(** * generate_branding: branding pipeline for application flavors

    A shallow embedding of [generate_branding.py]: the string helpers the
    script relies on, the regular-expression substitutions it applies to
    the native project files, the YAML data it merges into
    [pubspec.yaml], a file-system model for the cleaning and relocation
    steps, and the [main] procedure as a computation in a state and
    exception monad.  Definitions come first; the properties of the
    program follow. *)

From Stdlib Require Import ZArith Ascii String List Bool Lia.
From stdpp Require Import base option gmap strings list fin_maps.

Set Warnings "-register-all".

Local Open Scope string_scope.
Local Open Scope Z_scope.
Local Open Scope list_scope.

(* ===================================================================== *)
(** * Python strings *)
(* ===================================================================== *)

(** A Python [str] is modelled by [string]; a character is a code point
    below 256 (Latin-1).  Case conversion is the one of the Unicode
    tables on these code points. *)

Module Str.

(** The ASCII letters. *)
Definition ascii_lower (c : ascii) : bool :=
  (Ascii.leb "a" c && Ascii.leb c "z")%char.

Definition ascii_upper (c : ascii) : bool :=
  (Ascii.leb "A" c && Ascii.leb c "Z")%char.

(** The letters from 192 on whose other case is below 256: the upper-case
    ones are 192 to 222 without the multiplication sign (215), the
    lower-case ones 224 to 254 without the division sign (247).  As for
    the ASCII letters, the two cases of a letter are 32 apart. *)
Definition latin_upper (c : ascii) : bool :=
  let n := N_of_ascii c in
  ((192 <=? n) && (n <=? 222) && negb (n =? 215))%N.

Definition latin_lower (c : ascii) : bool :=
  let n := N_of_ascii c in
  ((224 <=? n) && (n <=? 254) && negb (n =? 247))%N.

(** The characters that have an upper-case form below 256 other than
    themselves, and those that have such a lower-case form. *)
Definition has_upper (c : ascii) : bool := ascii_lower c || latin_lower c.
Definition has_lower (c : ascii) : bool := ascii_upper c || latin_upper c.

(** The upper-case (and title-case) form of a character. *)
Definition upper (c : ascii) : ascii :=
  if has_upper c then ascii_of_N (N_of_ascii c - 32) else c.

(** The lower-case form of a character. *)
Definition lower (c : ascii) : ascii :=
  if has_lower c then ascii_of_N (N_of_ascii c + 32) else c.

(** The three characters below 256 whose title-case form is not one code
    point below 256: Python turns the micro sign (181) into U+039C, the
    sharp s (223) into the two letters Ss and the y with diaeresis (255)
    into U+0178.  [upper] keeps them, so [capitalize] below is the method
    of Python on the strings that do not start with one of them. *)
Definition title_outside (c : ascii) : bool :=
  let n := N_of_ascii c in ((n =? 181) || (n =? 223) || (n =? 255))%N.

Fixpoint map (f : ascii -> ascii) (s : string) : string :=
  match s with
  | EmptyString => EmptyString
  | String c s' => String (f c) (map f s')
  end.

(** [s.capitalize()]: first character upper-cased, all the others
    lower-cased. *)
Definition capitalize (s : string) : string :=
  match s with
  | EmptyString => EmptyString
  | String c s' => String (upper c) (map lower s')
  end.

(** The strings on which [capitalize] is [str.capitalize]. *)
Definition capitalizable (s : string) : bool :=
  match s with
  | EmptyString => true
  | String c _ => negb (title_outside c)
  end.

(** [c in chars] for a character. *)
Fixpoint mem (c : ascii) (chars : string) : bool :=
  match chars with
  | EmptyString => false
  | String d chars' => Ascii.eqb c d || mem c chars'
  end.

(** [s.lstrip(chars)]: drop the longest prefix made of characters of
    [chars]. *)
Fixpoint lstrip (chars : string) (s : string) : string :=
  match s with
  | EmptyString => EmptyString
  | String c s' => if mem c chars then lstrip chars s' else s
  end.

(** [s.startswith(p)] *)
Fixpoint prefix (p s : string) : bool :=
  match p, s with
  | EmptyString, _ => true
  | String a p', String b s' => Ascii.eqb a b && prefix p' s'
  | String _ _, EmptyString => false
  end.

(** [sub in s] for strings. *)
Fixpoint contains (sub s : string) : bool :=
  prefix sub s ||
  match s with
  | EmptyString => false
  | String _ s' => contains sub s'
  end.

(** [sub] starts at some position of [t] in the text [t +:+ s]. *)
Fixpoint occurs_in (sub t s : string) : bool :=
  match t with
  | EmptyString => false
  | String c t' => prefix sub (String c t' +:+ s) || occurs_in sub t' s
  end.

(** The character [c] repeated [n] times. *)
Fixpoint replicate (n : nat) (c : ascii) : string :=
  match n with
  | O => EmptyString
  | S n' => String c (replicate n' c)
  end.

(** [str.isspace] on one character, which is what [\s] matches. *)
Definition is_space (c : ascii) : bool :=
  let n := N_of_ascii c in
  ((9 <=? n) && (n <=? 13) || (28 <=? n) && (n <=? 32)
   || (n =? 133) || (n =? 160))%N.

Fixpoint forallb (p : ascii -> bool) (s : string) : bool :=
  match s with
  | EmptyString => true
  | String c s' => p c && forallb p s'
  end.

End Str.

(* ===================================================================== *)
(** * Flavor configuration *)
(* ===================================================================== *)

(** The object read from [config.json], restricted to the keys the
    script reads.  A field is [None] when the key is absent. *)
Record Config := {
  mainColor : option string;
  appName : option string;
  assets : option (list string)
}.

(** ['#' + config.get('mainColor', '').lstrip('#')] *)
Definition main_color_of (config : Config) : string :=
  "#" +:+ Str.lstrip "#" (default "" (mainColor config)).

(** [config.get('appName', flavor.capitalize())] *)
Definition app_name_of (config : Config) (flavor : string) : string :=
  default (Str.capitalize flavor) (appName config).

(** [f"com.giolabs.{flavor}"] *)
Definition package_name_of (flavor : string) : string :=
  "com.giolabs." +:+ flavor.

(* ===================================================================== *)
(** * Exceptions *)
(* ===================================================================== *)

(** The Python exceptions the script can meet, and a computation that
    returns a value or raises. *)
Inductive exn :=
| ReError               (* re.error, raised by a bad replacement template *)
| FileNotFoundError
| NotADirectoryError
| IsADirectoryError
| FileExistsError
| ShutilError           (* shutil.Error *)
| AttributeError
| TypeError
| ValueError            (* json / yaml / text decoding errors *)
| CalledProcessError
| SystemExit (code : Z).

Inductive result (A : Type) :=
| Ok (a : A)
| Raise (e : exn).
Arguments Ok {A} a.
Arguments Raise {A} e.

Definition rbind {A B} (r : result A) (k : A -> result B) : result B :=
  match r with
  | Ok a => k a
  | Raise e => Raise e
  end.

Definition rmap {A B} (f : A -> B) (r : result A) : result B :=
  rbind r (fun a => Ok (f a)).

(* ===================================================================== *)
(** * Regular expressions: [re.sub] *)
(* ===================================================================== *)

Module Re.

(** Every pattern of the script is a sequence of literal texts and of
    greedy repetitions of one character class (white space, anything
    but an angle bracket, anything but a double quote); one pattern is
    wrapped in a capturing group. *)
Inductive atom :=
| Lit (s : string)
| Many (cls : ascii -> bool) (min : nat).

Record pattern := {
  atoms : list atom;
  grouped : bool   (* the whole pattern is group 1 *)
}.

Fixpoint strip_prefix (lit s : string) : option string :=
  match lit, s with
  | EmptyString, _ => Some s
  | String a lit', String b s' =>
      if Ascii.eqb a b then strip_prefix lit' s' else None
  | String _ _, EmptyString => None
  end.

(** A greedy repetition of the class [cls], at least [min] times, followed
    by what [k] matches: it takes as many characters as it can and gives
    them back one at a time until [k] matches.  [n] counts the characters
    taken so far. *)
Fixpoint many (cls : ascii -> bool) (min : nat)
    (k : string -> option (string * string)) (s : string) (n : nat) {struct s}
  : option (string * string) :=
  let stop := if (min <=? n)%nat then k s else None in
  match s with
  | String c s' =>
      if cls c then
        match many cls min k s' (S n) with
        | Some (m, r) => Some (String c m, r)
        | None => stop
        end
      else stop
  | EmptyString => stop
  end.

(** Backtracking match of the atoms at the start of [s]: the matched
    text and what follows it. *)
Fixpoint match_atoms (p : list atom) (s : string) : option (string * string) :=
  match p with
  | [] => Some (EmptyString, s)
  | Lit l :: p' =>
      match strip_prefix l s with
      | Some s' =>
          match match_atoms p' s' with
          | Some (m, r) => Some (l +:+ m, r)
          | None => None
          end
      | None => None
      end
  | Many cls min :: p' => many cls min (match_atoms p') s O
  end.

(** ** Replacement templates *)

Definition digit_val (c : ascii) : option N :=
  let n := N_of_ascii c in
  if ((48 <=? n) && (n <=? 57))%N then Some (n - 48)%N else None.

Definition oct_val (c : ascii) : option N :=
  let n := N_of_ascii c in
  if ((48 <=? n) && (n <=? 55))%N then Some (n - 48)%N else None.

Definition is_ascii_letter (c : ascii) : bool :=
  Str.ascii_lower c || Str.ascii_upper c.

(** The one-letter escapes of a template. *)
Definition escape (c : ascii) : option ascii :=
  if Ascii.eqb c "a" then Some (ascii_of_N 7)
  else if Ascii.eqb c "b" then Some (ascii_of_N 8)
  else if Ascii.eqb c "f" then Some (ascii_of_N 12)
  else if Ascii.eqb c "n" then Some (ascii_of_N 10)
  else if Ascii.eqb c "r" then Some (ascii_of_N 13)
  else if Ascii.eqb c "t" then Some (ascii_of_N 9)
  else if Ascii.eqb c "v" then Some (ascii_of_N 11)
  else if Ascii.eqb c "\" then Some "\"%char
  else None.

Inductive tstate :=
| Text
| Name (acc : option N).   (* inside [\g<...>], the digits read so far *)

Section Template.
Variable whole : string.          (* group 0 *)
Variable groups : list string.    (* groups 1, 2, ... *)

Definition group (i : N) : result string :=
  if (i =? 0)%N then Ok whole
  else match groups !! (N.to_nat i - 1)%nat with
       | Some g => Ok g
       | None => Raise ReError     (* invalid group reference *)
       end.

Definition cons_to (c : ascii) (r : result string) : result string :=
  rmap (String c) r.

Definition app_to (g : result string) (r : result string) : result string :=
  rbind g (fun x => rmap (String.append x) r).

(** Expansion of a replacement template, as [re.sub] does it for a
    string replacement. *)
Fixpoint expand (t : string) (st : tstate) {struct t} : result string :=
  match st, t with
  | Name _, EmptyString => Raise ReError        (* missing > *)
  | Name acc, String c t' =>
      if Ascii.eqb c ">" then
        match acc with
        | Some i => app_to (group i) (expand t' Text)
        | None => Raise ReError                 (* missing group name *)
        end
      else
        match digit_val c with
        | Some d => expand t' (Name (Some (10 * default 0%N acc + d)%N))
        | None => Raise ReError                 (* no named groups *)
        end
  | Text, EmptyString => Ok EmptyString
  | Text, String c t' =>
      if negb (Ascii.eqb c "\") then cons_to c (expand t' Text)
      else
        match t' with
        | EmptyString => Raise ReError          (* bad escape (end of pattern) *)
        | String d t2 =>
            if Ascii.eqb d "g" then
              match t2 with
              | String e t3 =>
                  if Ascii.eqb e "<" then expand t3 (Name None)
                  else Raise ReError            (* missing < *)
              | EmptyString => Raise ReError
              end
            else if Ascii.eqb d "0" then
              match t2 with
              | String e t3 =>
                  match oct_val e with
                  | Some x =>
                      match t3 with
                      | String f t4 =>
                          match oct_val f with
                          | Some y =>
                              cons_to (ascii_of_N ((8 * x + y) mod 256))
                                      (expand t4 Text)
                          | None => cons_to (ascii_of_N x) (expand t3 Text)
                          end
                      | EmptyString => cons_to (ascii_of_N x) (expand t3 Text)
                      end
                  | None => cons_to (ascii_of_N 0) (expand t2 Text)
                  end
              | EmptyString => cons_to (ascii_of_N 0) (expand t2 Text)
              end
            else
              match digit_val d with
              | Some x =>
                  match t2 with
                  | String e t3 =>
                      match digit_val e with
                      | Some y =>
                          match t3 with
                          | String f t4 =>
                              match oct_val d, oct_val e, oct_val f with
                              | Some a, Some b, Some c3 =>
                                  let v := (64 * a + 8 * b + c3)%N in
                                  if (255 <? v)%N then Raise ReError
                                  else cons_to (ascii_of_N v) (expand t4 Text)
                              | _, _, _ =>
                                  app_to (group (10 * x + y)) (expand t3 Text)
                              end
                          | EmptyString =>
                              app_to (group (10 * x + y)) (expand t3 Text)
                          end
                      | None => app_to (group x) (expand t2 Text)
                      end
                  | EmptyString => app_to (group x) (expand t2 Text)
                  end
              | None =>
                  match escape d with
                  | Some x => cons_to x (expand t2 Text)
                  | None =>
                      if is_ascii_letter d then Raise ReError   (* bad escape *)
                      else cons_to c (cons_to d (expand t2 Text))
                  end
              end
        end
  end.
End Template.

(** ** Substitution *)

(** [re.sub(p, repl, s)]: scan [s] from the left; where the pattern
    matches, emit the expanded template and skip the matched text;
    elsewhere copy the character.  [skip] counts the characters of the
    current match that are still to be passed over. *)
Fixpoint scan (p : pattern) (repl : string) (s : string) (skip : nat)
  : result string :=
  let replacement m :=
    expand m (if grouped p then [m] else []) repl Text in
  match s with
  | EmptyString =>
      match skip, match_atoms (atoms p) EmptyString with
      | O, Some (m, _) => replacement m
      | _, _ => Ok EmptyString
      end
  | String c s' =>
      match skip with
      | S k => scan p repl s' k
      | O =>
          match match_atoms (atoms p) s with
          | Some (m, _) =>
              match String.length m with
              | O => app_to (replacement m) (cons_to c (scan p repl s' O))
              | S k => app_to (replacement m) (scan p repl s' k)
              end
          | None => cons_to c (scan p repl s' O)
          end
      end
  end.

Definition sub (p : pattern) (repl : string) (s : string) : result string :=
  scan p repl s O.

End Re.

(* ===================================================================== *)
(** * Native identity patches, on the text of the files *)
(* ===================================================================== *)

(** The double quote character. *)
Definition dquote : ascii := "034".

Definition not_lt (c : ascii) : bool := negb (Ascii.eqb c "<").
Definition not_quote (c : ascii) : bool := negb (Ascii.eqb c dquote).

(** A line feed and a tab, as the f-strings of the script hold them. *)
Definition nl_tab : string := String "010" (String "009" EmptyString).

Definition KEY_ID : string := "<key>CFBundleIdentifier</key>".
Definition KEY_NAME : string := "<key>CFBundleDisplayName</key>".

(** The pattern of a property-list entry: the key, optional white space,
    and a string element whose text is not empty and has no opening
    angle bracket. *)
Definition plist_entry (key : string) (grouped : bool) : Re.pattern :=
  {| Re.atoms := [Re.Lit key; Re.Many Str.is_space 0; Re.Lit "<string>";
                  Re.Many not_lt 1; Re.Lit "</string>"];
     Re.grouped := grouped |}.

(** The body of [update_ios_config], from the text read to the text
    written. *)
Definition update_ios_text (package_name app_name content : string)
  : result string :=
  rbind (Re.sub (plist_entry KEY_ID false)
                (KEY_ID +:+ nl_tab +:+ "<string>" +:+ package_name +:+ "</string>")
                content) (fun content =>
  if Str.contains KEY_NAME content then
    Re.sub (plist_entry KEY_NAME false)
           (KEY_NAME +:+ nl_tab +:+ "<string>" +:+ app_name +:+ "</string>")
           content
  else
    Re.sub (plist_entry KEY_ID true)
           ("\1\n\t<key>CFBundleDisplayName</key>\n\t<string>" +:+ app_name
            +:+ "</string>")
           content).

Definition quoted (s : string) : string :=
  String dquote (s +:+ String dquote EmptyString).

(** The pattern of an attribute with a quoted, non-empty value. *)
Definition quoted_attr (name : string) : Re.pattern :=
  {| Re.atoms := [Re.Lit (name +:+ "=" +:+ String dquote EmptyString);
                  Re.Many not_quote 1;
                  Re.Lit (String dquote EmptyString)];
     Re.grouped := false |}.

(** The pattern of the [applicationId] assignment. *)
Definition application_id : Re.pattern :=
  {| Re.atoms := [Re.Lit "applicationId"; Re.Many Str.is_space 0; Re.Lit "=";
                  Re.Many Str.is_space 0; Re.Lit (String dquote EmptyString);
                  Re.Many not_quote 1; Re.Lit (String dquote EmptyString)];
     Re.grouped := false |}.

(** The two substitutions [update_android_config] applies to
    [AndroidManifest.xml]. *)
Definition update_manifest_text (package_name app_name text : string)
  : result string :=
  rbind (Re.sub (quoted_attr "package") ("package=" +:+ quoted package_name) text)
        (Re.sub (quoted_attr "android:label")
                ("android:label=" +:+ quoted app_name)).

(** The substitution [update_android_config] applies to
    [build.gradle.kts]. *)
Definition update_gradle_text (package_name text : string) : result string :=
  Re.sub application_id ("applicationId = " +:+ quoted package_name) text.

(** ** Vocabulary for the properties of the property-list patch *)

(** An entry of the property list as the patterns expect it, and as the
    replacements write it. *)
Definition entry (key ws value : string) : string :=
  key +:+ ws +:+ "<string>" +:+ value +:+ "</string>".

Definition written (key value : string) : string :=
  key +:+ nl_tab +:+ "<string>" +:+ value +:+ "</string>".

(** A character with no meaning of its own in a replacement template, and
    a character that does not open a tag. *)
Definition plain (c : ascii) : bool := negb (Ascii.eqb c "\").
Definition clean (c : ascii) : bool := negb (Ascii.eqb "<" c).

(** [k] has a border with the start of [s]: a proper, non-empty suffix of
    [k] starts [s]. *)
Fixpoint borders (k s : string) : bool :=
  match k with
  | EmptyString => false
  | String _ k' =>
      (negb (String.eqb k' "") && Str.prefix k' s) || borders k' s
  end.

(** C6 in the words of the specification.  [value_of key value text]:
    wherever [key] stands in [text], its string element holds [value]. *)
Definition value_of (key value text : string) : Prop :=
  forall pre post, text = pre +:+ key +:+ post ->
    exists ws rest,
      Str.forallb Str.is_space ws = true
      /\ post = ws +:+ "<string>" +:+ value +:+ "</string>" +:+ rest.

(** What the specification says of the text [out] written for the text
    [text] read: the identifier holds the package name; the display name,
    if its key was there, holds the new name, and otherwise the pair has
    been inserted after the identifier entry. *)
Definition ios_patch_as_specified (package_name app_name text out : string) : Prop :=
  value_of KEY_ID package_name out
  /\ (if Str.contains KEY_NAME text then value_of KEY_NAME app_name out
      else exists pre post,
             out = pre +:+ written KEY_ID package_name +:+ nl_tab
                       +:+ written KEY_NAME app_name +:+ post).

(** ** Vocabulary for the patch of the property list on any text

    What [update_ios_text] returns, said of the text alone: the
    definitions below do not use the regular expressions of [Re]. *)

(** [m] is an entry of [key] as the patterns take it: the key, optional
    white space, and a string element whose text is not empty and has no
    opening angle bracket. *)
Definition is_entry (key m : string) : Prop :=
  exists ws v,
    Str.forallb Str.is_space ws = true /\ v <> ""
    /\ Str.forallb not_lt v = true /\ m = entry key ws v.

(** An entry of [key] stands at the start of [s]. *)
Definition starts_entry (key s : string) : Prop :=
  exists m rest, is_entry key m /\ s = m +:+ rest.

(** [rewritten rule text out]: reading [text] from the left, a text [m]
    the rule applies to is replaced by what the rule gives for it and the
    reading goes on behind [m]; a character at which the rule applies to
    nothing is copied. *)
Inductive rewritten (rule : string -> string -> Prop) : string -> string -> Prop :=
| rewritten_end : rewritten rule "" ""
| rewritten_entry (m r rest out : string) :
    rule m r -> rewritten rule rest out ->
    rewritten rule (m +:+ rest) (r +:+ out)
| rewritten_copy (c : ascii) (s out : string) :
    (forall m r rest, rule m r -> String c s <> m +:+ rest) ->
    rewritten rule s out ->
    rewritten rule (String c s) (String c out).

(** The rule of one substitution: an entry of [key] becomes [f] of it. *)
Definition entry_rule (key : string) (f : string -> string) (m r : string) : Prop :=
  is_entry key m /\ r = f m.

(** What the patch does to an entry when the text holds the display-name
    key: the value of an identifier entry becomes the package name, the
    value of a display-name entry the new name. *)
Definition replaces (package_name app_name m r : string) : Prop :=
  (is_entry KEY_ID m /\ r = written KEY_ID package_name)
  \/ (is_entry KEY_NAME m /\ r = written KEY_NAME app_name).

(** What it does when the text does not hold the display-name key: an
    identifier entry becomes the entry of the package name, followed by
    a line feed, a tab and the entry of the new name. *)
Definition inserts (package_name app_name m r : string) : Prop :=
  is_entry KEY_ID m
  /\ r = written KEY_ID package_name +:+ nl_tab +:+ written KEY_NAME app_name.

(** The rule the patch follows on [text]. *)
Definition patch_rule (package_name app_name text : string)
  : string -> string -> Prop :=
  if Str.contains KEY_NAME text then replaces package_name app_name
  else inserts package_name app_name.

(* ===================================================================== *)
(** * YAML data and Python dictionaries *)
(* ===================================================================== *)

(** What [ruamel.yaml] loads and dumps.  A mapping keeps the order of its
    keys, as the dumped file does. *)
Inductive yaml :=
| YNull
| YBool (b : bool)
| YInt (n : Z)
| YStr (s : string)
| YSeq (l : list yaml)
| YMap (m : list (string * yaml)).

Module Dict.
Section Dict.
Context {V : Type}.

Fixpoint get (k : string) (m : list (string * V)) : option V :=
  match m with
  | [] => None
  | (k', v) :: m' => if String.eqb k' k then Some v else get k m'
  end.

(** [m[k] = v]: an existing key keeps its position, a new one goes
    last. *)
Fixpoint set (k : string) (v : V) (m : list (string * V)) : list (string * V) :=
  match m with
  | [] => [(k, v)]
  | (k', v') :: m' =>
      if String.eqb k' k then (k', v) :: m' else (k', v') :: set k v m'
  end.

(** [m.setdefault(k, d)]: the value now under [k], and the
    dictionary. *)
Definition setdefault (k : string) (d : V) (m : list (string * V))
  : V * list (string * V) :=
  match get k m with
  | Some v => (v, m)
  | None => (d, set k d m)
  end.

(** [m.update(other)] *)
Definition update (m other : list (string * V)) : list (string * V) :=
  fold_left (fun acc kv => set (fst kv) (snd kv) acc) other m.
End Dict.
End Dict.

(* ===================================================================== *)
(** * The two merges into the manifest, on the loaded data *)
(* ===================================================================== *)

(** [x == asset] for an entry [x] of the list and a [str]. *)
Definition yaml_eq_str (asset : string) (x : yaml) : bool :=
  match x with
  | YStr s => String.eqb s asset
  | _ => false
  end.

(** One round of [if asset not in assets: assets.append(asset)], for
    whatever sits under the [assets] key. *)
Definition add_asset (assets : yaml) (asset : string) : result yaml :=
  match assets with
  | YSeq l =>
      Ok (if existsb (yaml_eq_str asset) l then assets
          else YSeq (l ++ [YStr asset]))
  | YStr s => if Str.contains asset s then Ok assets else Raise AttributeError
  | YMap m =>
      match Dict.get asset m with
      | Some _ => Ok assets
      | None => Raise AttributeError
      end
  | _ => Raise TypeError
  end.

Definition add_assets (assets : yaml) (new : list string) : result yaml :=
  fold_left (fun acc asset => rbind acc (fun a => add_asset a asset))
            new (Ok assets).

Definition flavor_assets (flavor : string) : list string :=
  [ "assets/configs/" +:+ flavor +:+ "/icon.png";
    "assets/configs/" +:+ flavor +:+ "/splash.png";
    "assets/configs/" +:+ flavor +:+ "/config.json" ].

(** [generate_pubspec_assets], from the data loaded to the data dumped.
    [config] is the outcome of reading [config.json], which the script
    does after it has located the list and before it adds to it. *)
Definition merge_assets (flavor : string) (config : result Config) (data : yaml)
  : result yaml :=
  match data with
  | YMap d =>
      let '(flutter, d1) := Dict.setdefault "flutter" (YMap []) d in
      match flutter with
      | YMap f =>
          let '(assets0, f1) := Dict.setdefault "assets" (YSeq []) f in
          rbind config (fun config =>
          rbind (add_assets assets0 (flavor_assets flavor)) (fun assets1 =>
          rbind (add_assets assets1 (default [] (assets config))) (fun assets2 =>
          Ok (YMap (Dict.set "flutter" (YMap (Dict.set "assets" assets2 f1)) d1)))))
      | _ => Raise AttributeError
      end
  | _ => Raise AttributeError
  end.

Definition launcher_icons_block (main_color : string) : list (string * yaml) :=
  [ ("android", YBool true);
    ("ios", YBool true);
    ("image_path_ios", YStr "icon.png");
    ("adaptive_icon_background", YStr main_color);
    ("adaptive_icon_foreground", YStr "icon.png");
    ("remove_alpha_ios", YBool true);
    ("min_sdk_android", YInt 21);
    ("web", YBool false);
    ("background_color_ios", YStr main_color) ].

Definition native_splash_block (main_color : string) : list (string * yaml) :=
  [ ("color", YStr main_color);
    ("image", YStr "splash.png");
    ("android_12", YMap [ ("image", YStr "splash.png");
                          ("icon_background_color", YStr main_color) ]);
    ("ios", YBool true);
    ("android", YBool true);
    ("web", YBool false) ].

(** [data.setdefault(key, {}).update(block)] *)
Definition merge_block (key : string) (block : list (string * yaml))
    (d : list (string * yaml)) : result (list (string * yaml)) :=
  let '(cur, d1) := Dict.setdefault key (YMap []) d in
  match cur with
  | YMap m => Ok (Dict.set key (YMap (Dict.update m block)) d1)
  | _ => Raise AttributeError
  end.

(** [update_pubspec], from the data loaded to the data dumped. *)
Definition merge_branding (main_color : string) (has_splash : bool) (data : yaml)
  : result yaml :=
  match data with
  | YMap d =>
      rbind (merge_block "flutter_launcher_icons"
                         (launcher_icons_block main_color) d) (fun d1 =>
      rbind (merge_block "flutter_native_splash"
                         (native_splash_block main_color) d1) (fun d2 =>
      Ok (YMap d2)))
  | _ => Raise AttributeError
  end.

(** The two configurations [generate_and_run] writes for the external
    generators. *)
Definition icons_cfg (flavor main_color : string) : yaml :=
  YMap [ ("flutter_launcher_icons", YMap
    [ ("android", YBool true);
      ("ios", YBool true);
      ("image_path", YStr ("assets/configs/" +:+ flavor +:+ "/icon.png"));
      ("min_sdk_android", YInt 21);
      ("adaptive_icon_background", YStr main_color);
      ("adaptive_icon_foreground",
       YStr ("assets/configs/" +:+ flavor +:+ "/icon.png"));
      ("background_color_ios", YStr main_color);
      ("remove_alpha_ios", YBool true) ]) ].

Definition splash_cfg (flavor main_color : string) : yaml :=
  YMap [ ("flutter_native_splash", YMap
    [ ("color", YStr main_color);
      ("image", YStr ("assets/configs/" +:+ flavor +:+ "/splash.png"));
      ("android_12", YMap
         [ ("image", YStr ("assets/configs/" +:+ flavor +:+ "/splash.png"));
           ("icon_background_color", YStr main_color) ]);
      ("ios", YBool true);
      ("android", YBool true);
      ("web", YBool false) ]) ].

(* ===================================================================== *)
(** * The file system *)
(* ===================================================================== *)

(** A path is the list of its components from the root.  A file holds a
    value of the kind its readers expect; a reader given another kind
    fails as the library would on a file it cannot parse. *)
Abbreviation path := (list string).

Inductive content :=
| Image (width height : Z)     (* a raster image PIL opens, with its size *)
| Json (config : Config)       (* a configuration object *)
| Yaml (data : yaml)
| Text (text : string)
| Binary.

Inductive node :=
| File (c : content)
| Dir.

Abbreviation filesystem := (gmap path node).

Fixpoint starts_with (p q : path) : bool :=
  match p, q with
  | [], _ => true
  | a :: p', b :: q' => String.eqb a b && starts_with p' q'
  | _ :: _, [] => false
  end.

Definition parent (p : path) : path := removelast p.
Definition name (p : path) : string := List.last p "".

Definition is_child (p q : path) : bool :=
  starts_with p q && Nat.eqb (length q) (S (length p)).

(** [p.exists()], [p.is_dir()] *)
Definition path_exists (fs : filesystem) (p : path) : bool :=
  match fs !! p with Some _ => true | None => false end.

Definition is_dir (fs : filesystem) (p : path) : bool :=
  match fs !! p with Some Dir => true | _ => false end.

(** The entries of directory [p], as [os.scandir] lists them. *)
Definition children (fs : filesystem) (p : path) : list path :=
  fst <$> map_to_list (filter (λ kv, is_child p kv.1 = true) fs).

(** [p.iterdir()] *)
Definition iterdir (fs : filesystem) (p : path) : result (list path) :=
  match fs !! p with
  | Some Dir => Ok (children fs p)
  | Some (File _) => Raise NotADirectoryError
  | None => Raise FileNotFoundError
  end.

Definition ends_with (suffix s : string) : bool :=
  let n := String.length s in
  let k := String.length suffix in
  (k <=? n)%nat && String.eqb (substring (n - k) k s) suffix.

(** [p.glob(pattern)] for the two patterns of the script: a literal
    followed by a star, and a star followed by a literal.  A path that is
    not a directory has no matches. *)
Inductive glob_pattern :=
| Prefixed (lit : string)     (* lit* *)
| Suffixed (lit : string).    (* *lit *)

Definition fnmatch (g : glob_pattern) (s : string) : bool :=
  match g with
  | Prefixed lit => Str.prefix lit s
  | Suffixed lit => ends_with lit s
  end.

Definition glob (fs : filesystem) (p : path) (g : glob_pattern) : list path :=
  if is_dir fs p then List.filter (λ q, fnmatch g (name q)) (children fs p)
  else [].

(** Everything at or below [p] is gone. *)
Definition remove_tree (p : path) (fs : filesystem) : filesystem :=
  filter (λ kv, starts_with p kv.1 = false) fs.

(** [shutil.rmtree(p, ignore_errors)] *)
Definition rmtree (ignore_errors : bool) (p : path) (fs : filesystem)
  : result filesystem :=
  match fs !! p with
  | Some Dir => Ok (remove_tree p fs)
  | Some (File _) => if ignore_errors then Ok fs else Raise NotADirectoryError
  | None => if ignore_errors then Ok fs else Raise FileNotFoundError
  end.

(** [p.unlink()] *)
Definition unlink (p : path) (fs : filesystem) : result filesystem :=
  match fs !! p with
  | Some (File _) => Ok (delete p fs)
  | Some Dir => Raise IsADirectoryError
  | None => Raise FileNotFoundError
  end.

(** The prefixes of a path, shortest first, the path itself last. *)
Fixpoint prefixes (p : path) : list path :=
  [] :: match p with
        | [] => []
        | a :: p' => (a ::.) <$> prefixes p'
        end.

(** [p.mkdir(parents=True, exist_ok=True)] *)
Definition mkdir (p : path) (fs : filesystem) : result filesystem :=
  fold_left
    (fun acc q =>
       rbind acc (fun fs =>
         match fs !! q with
         | Some Dir => Ok fs
         | Some (File _) =>
             Raise (if decide (q = p) then FileExistsError else NotADirectoryError)
         | None => Ok (<[q := Dir]> fs)
         end))
    (prefixes p) (Ok fs).

(** Opening [p] for reading. *)
Definition read (p : path) (fs : filesystem) : result content :=
  match fs !! p with
  | Some (File c) => Ok c
  | Some Dir => Raise IsADirectoryError
  | None => Raise FileNotFoundError
  end.

(** Opening [p] for writing and writing [c]. *)
Definition write (p : path) (c : content) (fs : filesystem) : result filesystem :=
  match fs !! p with
  | Some Dir => Raise IsADirectoryError
  | _ =>
      match fs !! parent p with
      | Some Dir => Ok (<[p := File c]> fs)
      | Some (File _) => Raise NotADirectoryError
      | None => Raise FileNotFoundError
      end
  end.

(** [shutil.copy(src, dst)]: into [dst] when it is a directory. *)
Definition copy (src dst : path) (fs : filesystem) : result filesystem :=
  let real_dst := if is_dir fs dst then (dst ++ [name src])%list else dst in
  rbind (read src fs) (fun c => write real_dst c fs).

(** The tree at [src] now hangs at [dst]. *)
Definition rename_tree (src dst : path) (fs : filesystem) : filesystem :=
  list_to_map
    ((λ kv, ((dst ++ drop (length src) kv.1)%list, kv.2)) <$>
       map_to_list (filter (λ kv, starts_with src kv.1 = true) fs))
  ∪ remove_tree src fs.

(** [shutil.move(src, dst)] *)
Definition move (src dst : path) (fs : filesystem) : result filesystem :=
  let real_dst := if is_dir fs dst then (dst ++ [name src])%list else dst in
  if is_dir fs dst && path_exists fs real_dst then Raise ShutilError
  else
    match fs !! src with
    | None => Raise FileNotFoundError
    | Some (File c) => write real_dst c (delete src fs)
    | Some Dir =>
        if starts_with src real_dst then Raise ShutilError
        else
          match fs !! real_dst with
          | Some _ => Raise FileExistsError
          | None =>
              rbind (mkdir (parent real_dst) fs) (fun fs =>
              Ok (rename_tree src real_dst fs))
          end
    end.

(* ===================================================================== *)
(** * Computations: state, log and exceptions *)
(* ===================================================================== *)

Inductive level := INFO | ERROR.

(** What a run can change: the files, and the log.  A log record keeps
    the level and the fixed part of the message, in ASCII. *)
Record world := {
  files : filesystem;
  log : list (level * string)
}.

(** A computation returns or raises, and leaves a world either way. *)
Definition M (A : Type) : Type := world -> result A * world.

Definition ret {A} (a : A) : M A := fun w => (Ok a, w).

Definition bind {A B} (m : M A) (k : A -> M B) : M B :=
  fun w =>
    match m w with
    | (Ok a, w') => k a w'
    | (Raise e, w') => (Raise e, w')
    end.

Notation "x <- c1 ;; c2" := (bind c1 (fun x => c2))
  (at level 100, c1 at next level, right associativity).
Notation "c1 ;; c2" := (bind c1 (fun _ => c2))
  (at level 100, right associativity).

Definition raise {A} (e : exn) : M A := fun w => (Raise e, w).

(** [logging.info(msg)], [logging.error(msg)] *)
Definition logging (l : level) (msg : string) : M unit :=
  fun w => (Ok tt, {| files := files w; log := (log w ++ [(l, msg)])%list |}).

(** A question to the file system. *)
Definition ask {A} (f : filesystem -> A) : M A :=
  fun w => (Ok (f (files w)), w).

(** A read that may raise. *)
Definition attempt {A} (f : filesystem -> result A) : M A :=
  fun w => (f (files w), w).

(** An operation that changes the files, or raises and changes nothing. *)
Definition effect (f : filesystem -> result filesystem) : M unit :=
  fun w =>
    match f (files w) with
    | Ok fs => (Ok tt, {| files := fs; log := log w |})
    | Raise e => (Raise e, w)
    end.

Definition when (b : bool) (m : M unit) : M unit :=
  if b then m else ret tt.

Fixpoint for_each {A} (l : list A) (body : A -> M unit) : M unit :=
  match l with
  | [] => ret tt
  | x :: l' => body x ;; for_each l' body
  end.

(** [try: m  except E: handler], for the exceptions [handles] selects. *)
Definition try_except {A} (m : M A) (handles : exn -> bool) (handler : M A) : M A :=
  fun w =>
    match m w with
    | (Raise e, w') => if handles e then handler w' else (Raise e, w')
    | r => r
    end.

(** The status the process ends with. *)
Definition exit_status {A} (r : result A) : Z :=
  match r with
  | Ok _ => 0
  | Raise (SystemExit code) => code
  | Raise _ => 1
  end.

(** [sys.exit(1)] *)
Definition sys_exit {A} (code : Z) : M A := raise (SystemExit code).

(** [json.load], [yaml.load], [Image.open(...).size], [read_text] *)
Definition json_at (p : path) (fs : filesystem) : result Config :=
  rbind (read p fs) (fun c =>
    match c with Json config => Ok config | _ => Raise ValueError end).

Definition load_json (p : path) : M Config := attempt (json_at p).

Definition load_yaml (p : path) : M yaml :=
  attempt (fun fs => rbind (read p fs) (fun c =>
    match c with Yaml data => Ok data | _ => Raise ValueError end)).

Definition image_size (p : path) : M (Z * Z) :=
  attempt (fun fs => rbind (read p fs) (fun c =>
    match c with Image w h => Ok (w, h) | _ => Raise ValueError end)).

Definition read_text (p : path) : M string :=
  attempt (fun fs => rbind (read p fs) (fun c =>
    match c with Text s => Ok s | _ => Raise ValueError end)).

(** [ICON_DIMENSIONS['android']['adaptive_icon']] is a number,
    [SPLASH_DIMENSIONS['android']['portrait']] a pair. *)
Inductive dimensions :=
| Side (n : Z)
| Size (min_width min_height : Z).

Definition ICON_ADAPTIVE : dimensions := Side 1024.
Definition SPLASH_PORTRAIT : dimensions := Size 1242 2436.

Definition validate_image_dimensions (image_path : path)
    (required : dimensions) (label : string) : M bool :=
  try_except
    (size <- image_size image_path ;;
     let '(width, height) := size in
     match required with
     | Size min_width min_height =>
         if (width <? min_width) || (height <? min_height) then
           logging ERROR (label +:+ " debe tener dimensiones minimas") ;;
           ret false
         else ret true
     | Side n =>
         if (width <? n) || (height <? n) then
           logging ERROR (label +:+ " debe tener dimensiones minimas") ;;
           ret false
         else if negb (width =? height) then
           logging ERROR (label +:+ " debe ser cuadrada") ;;
           ret false
         else ret true
     end)
    (fun e => match e with SystemExit _ => false | _ => true end)
    (logging ERROR ("Error al validar " +:+ label) ;; ret false).

(** What [validate_image_dimensions] answers for the file at [p]. *)
Definition image_meets (required : dimensions) (fs : filesystem) (p : path) : bool :=
  match fs !! p with
  | Some (File (Image width height)) =>
      match required with
      | Size min_width min_height =>
          negb ((width <? min_width) || (height <? min_height))
      | Side n =>
          negb ((width <? n) || (height <? n)) && (width =? height)
      end
  | _ => false
  end.

(** An exception that makes the process end with a non-zero status. *)
Definition ends_nonzero (e : exn) : Prop := e <> SystemExit 0.

(** A specification of a computation in terms of the files: from files
    that satisfy [P] it returns [a] and leaves files that satisfy [Q a],
    or it raises [e] and leaves files that satisfy [E e]. *)
Definition triple {A : Type} (E : exn -> filesystem -> Prop) (P : filesystem -> Prop)
    (m : M A) (Q : A -> filesystem -> Prop) : Prop :=
  forall w, P (files w) ->
    match m w with
    | (Ok a, w') => Q a (files w')
    | (Raise e, w') => E e (files w')
    end.

(* ===================================================================== *)
(** * The steps of the script *)
(* ===================================================================== *)

Section Program.

(** Where the project lives, and the two external generators: given
    the path of their configuration file they change the files and end
    with status zero ([true]) or not.  The working directory, which
    [generate_and_run] changes and restores, is not part of the state. *)
Variable PROJECT_ROOT : path.
Variable run_launcher_icons : path -> filesystem -> bool * filesystem.
Variable run_native_splash : path -> filesystem -> bool * filesystem.

Local Open Scope list_scope.

Definition ANDROID_RES_DEFAULT : path :=
  PROJECT_ROOT ++ ["android"; "app"; "src"; "main"; "res"].
Definition IOS_ASSETS : path :=
  PROJECT_ROOT ++ ["ios"; "Runner"; "Assets.xcassets"].
Definition PUBSPEC : path := PROJECT_ROOT ++ ["pubspec.yaml"].
Definition CONFIG_BASE : path := PROJECT_ROOT ++ ["assets"; "configs"].
Definition AndroidManifest : path :=
  PROJECT_ROOT ++ ["android"; "app"; "src"; "main"; "AndroidManifest.xml"].
Definition AndroidGradle : path :=
  PROJECT_ROOT ++ ["android"; "app"; "build.gradle.kts"].
Definition iOSInfoPlist : path :=
  PROJECT_ROOT ++ ["ios"; "Runner"; "Info.plist"].

(** [subprocess.run(cmd, check=True)] *)
Definition subprocess_run (cmd : filesystem -> bool * filesystem) : M unit :=
  fun w =>
    let '(ok, fs) := cmd (files w) in
    (if ok then Ok tt else Raise CalledProcessError,
     {| files := fs; log := log w |}).

Definition clean_previous_app_data : M unit :=
  logging INFO "Limpiando datos de apps anteriores..." ;;
  let android_data := PROJECT_ROOT ++ ["android"; "app"; "build"] in
  b <- ask (fun fs => path_exists fs android_data) ;;
  when b (effect (rmtree false android_data) ;;
          logging INFO "Limpiado build de Android") ;;
  let ios_data := PROJECT_ROOT ++ ["ios"; "build"] in
  b <- ask (fun fs => path_exists fs ios_data) ;;
  when b (effect (rmtree false ios_data) ;;
          logging INFO "Limpiado build de iOS") ;;
  let ios_pods := PROJECT_ROOT ++ ["ios"; "Pods"] in
  b <- ask (fun fs => path_exists fs ios_pods) ;;
  when b (effect (rmtree false ios_pods) ;;
          logging INFO "Limpiado Pods de iOS") ;;
  let podfile_lock := PROJECT_ROOT ++ ["ios"; "Podfile.lock"] in
  b <- ask (fun fs => path_exists fs podfile_lock) ;;
  when b (effect (unlink podfile_lock) ;;
          logging INFO "Limpiado Podfile.lock").

Definition clean_previous_assets (android_res_path : path) (flavor : string)
  : M unit :=
  logging INFO "Limpiando assets anteriores..." ;;
  b <- ask (fun fs => path_exists fs android_res_path) ;;
  when b (entries <- attempt (fun fs => iterdir fs android_res_path) ;;
          for_each entries (fun child =>
            d <- ask (fun fs => is_dir fs child) ;;
            when (d && Str.contains "mipmap" (name child))
                 (effect (rmtree true child)))) ;;
  for_each [IOS_ASSETS ++ ["AppIcon.appiconset"];
            IOS_ASSETS ++ ["LaunchImage.imageset"]] (fun folder =>
    b <- ask (fun fs => path_exists fs folder) ;;
    when b (effect (rmtree true folder)) ;;
    effect (mkdir folder)).

Definition validate_and_copy_images (flavor_dir : path) : M unit :=
  logging INFO "Validando y copiando imagenes..." ;;
  let icon_path := flavor_dir ++ ["icon.png"] in
  b <- ask (fun fs => path_exists fs icon_path) ;;
  when (negb b)
       (logging ERROR "No se encontro icon.png en el directorio del flavor" ;;
        sys_exit 1) ;;
  ok <- validate_image_dimensions icon_path ICON_ADAPTIVE "icon.png" ;;
  when (negb ok) (sys_exit 1) ;;
  let splash_path := flavor_dir ++ ["splash.png"] in
  b <- ask (fun fs => path_exists fs splash_path) ;;
  when (negb b)
       (logging ERROR "No se encontro splash.png en el directorio del flavor" ;;
        sys_exit 1) ;;
  ok <- validate_image_dimensions splash_path SPLASH_PORTRAIT "splash.png" ;;
  when (negb ok) (sys_exit 1) ;;
  effect (copy icon_path (PROJECT_ROOT ++ ["icon.png"])) ;;
  effect (copy splash_path (PROJECT_ROOT ++ ["splash.png"])) ;;
  logging INFO "Imagenes validadas y copiadas correctamente".

Definition generate_pubspec_assets (flavor_dir : path) : M unit :=
  data <- load_yaml PUBSPEC ;;
  config <- ask (json_at (flavor_dir ++ ["config.json"])) ;;
  data' <- attempt (fun _ => merge_assets (name flavor_dir) config data) ;;
  effect (write PUBSPEC (Yaml data')) ;;
  logging INFO "Actualizado pubspec.yaml con los assets".

Definition update_pubspec (main_color : string) (has_splash : bool) : M unit :=
  data <- load_yaml PUBSPEC ;;
  data' <- attempt (fun _ => merge_branding main_color has_splash data) ;;
  effect (write PUBSPEC (Yaml data')) ;;
  logging INFO "Actualizado pubspec.yaml con la configuracion de branding".

Definition move_assets_to_flavor (flavor : string) (android_res_path : path)
  : M unit :=
  logging INFO "Moviendo assets..." ;;
  let main_res := PROJECT_ROOT ++ ["android"; "app"; "src"; "main"; "res"] in
  effect (mkdir android_res_path) ;;
  entries <- ask (fun fs => glob fs main_res (Prefixed "mipmap-")) ;;
  for_each entries (fun mipmap_dir =>
    d <- ask (fun fs => is_dir fs mipmap_dir && path_exists fs mipmap_dir) ;;
    when d (let dest_dir := android_res_path ++ [name mipmap_dir] in
            b <- ask (fun fs => path_exists fs dest_dir) ;;
            when b (effect (rmtree false dest_dir)) ;;
            effect (move mipmap_dir dest_dir) ;;
            logging INFO "Movido directorio mipmap")) ;;
  let config_files :=
    [ ["values"; "colors.xml"];
      ["drawable"; "launch_background.xml"];
      ["drawable-v21"; "launch_background.xml"];
      ["values"; "styles.xml"];
      ["values-night"; "styles.xml"];
      ["values-v31"; "styles.xml"];
      ["values-night-v31"; "styles.xml"] ] in
  for_each config_files (fun config_file =>
    let src_file := main_res ++ config_file in
    b <- ask (fun fs => path_exists fs src_file) ;;
    when b (let dest_file := android_res_path ++ config_file in
            effect (mkdir (parent dest_file)) ;;
            effect (move src_file dest_file) ;;
            logging INFO "Movido archivo de configuracion")) ;;
  logging INFO "Assets movidos".

Definition generate_and_run (flavor main_color : string) : M unit :=
  let flavor_cfg := CONFIG_BASE ++ [flavor] in
  let icons_yaml :=
    flavor_cfg ++ ["flutter_launcher_icons-" +:+ flavor +:+ ".yaml"] in
  effect (write icons_yaml (Yaml (icons_cfg flavor main_color))) ;;
  logging INFO "Generado flutter_launcher_icons" ;;
  let splash_yaml :=
    flavor_cfg ++ ["flutter_native_splash-" +:+ flavor +:+ ".yaml"] in
  effect (write splash_yaml (Yaml (splash_cfg flavor main_color))) ;;
  logging INFO "Generado flutter_native_splash" ;;
  try_except
    (subprocess_run (run_launcher_icons icons_yaml) ;;
     logging INFO "Iconos generados correctamente" ;;
     subprocess_run (run_native_splash splash_yaml) ;;
     logging INFO "Splash screen generado correctamente")
    (fun e => match e with CalledProcessError => true | _ => false end)
    (logging ERROR "Error al generar assets" ;; sys_exit 1).

(** Read the text of [file], rewrite it, write it back. *)
Definition patch (file : path) (f : string -> result string) : M unit :=
  text <- read_text file ;;
  text' <- attempt (fun _ => f text) ;;
  effect (write file (Text text')).

Definition update_android_config (package_name app_name : string) : M unit :=
  b <- ask (fun fs => path_exists fs AndroidManifest) ;;
  when b (patch AndroidManifest (update_manifest_text package_name app_name) ;;
          logging INFO "Actualizado AndroidManifest.xml") ;;
  b <- ask (fun fs => path_exists fs AndroidGradle) ;;
  when b (patch AndroidGradle (update_gradle_text package_name) ;;
          logging INFO "Actualizado build.gradle.kts").

Definition update_ios_config (package_name app_name : string) : M unit :=
  b <- ask (fun fs => path_exists fs iOSInfoPlist) ;;
  when b (patch iOSInfoPlist (update_ios_text package_name app_name) ;;
          logging INFO "Actualizado Info.plist").

(** The condition [verify_ios_assets] tests on each asset catalog. *)
Definition catalog_complete (fs : filesystem) (folder : path) : bool :=
  path_exists fs folder
  && negb (Nat.eqb (length (glob fs folder (Suffixed ".png"))) 0)
  && path_exists fs (folder ++ ["Contents.json"]).

Definition verify_ios_assets (flavor : string) : M unit :=
  let app_icon := IOS_ASSETS ++ ["AppIcon.appiconset"] in
  let launch_img := IOS_ASSETS ++ ["LaunchImage.imageset"] in
  ok <- ask (fun fs => catalog_complete fs app_icon) ;;
  (if ok then logging INFO "iOS AppIcon.appiconset OK"
   else logging ERROR "iOS AppIcon.appiconset incompleto") ;;
  ok <- ask (fun fs => catalog_complete fs launch_img) ;;
  (if ok then logging INFO "iOS LaunchImage.imageset OK"
   else logging ERROR "iOS LaunchImage.imageset incompleto").

(** The last lines of [main]: the temporary files go. *)
Definition clean_temporary_files : M unit :=
  for_each ["icon.png"; "splash.png"] (fun tmp =>
    let p := PROJECT_ROOT ++ [tmp] in
    b <- ask (fun fs => path_exists fs p) ;;
    when b (effect (unlink p))) ;;
  logging INFO "Archivos temporales limpiados".

(** [main], with the two command-line arguments parsed: the flavor and
    the resolved [--android-res-path], if one was given. *)
Definition main (flavor : string) (android_res_arg : option path) : M unit :=
  let android_res_path := default ANDROID_RES_DEFAULT android_res_arg in
  let config_file := CONFIG_BASE ++ [flavor; "config.json"] in
  b <- ask (fun fs => path_exists fs config_file) ;;
  when (negb b) (logging ERROR "Config no encontrado" ;; sys_exit 1) ;;
  config <- load_json config_file ;;
  let main_color := main_color_of config in
  let app_name := app_name_of config flavor in
  let package_name := package_name_of flavor in
  clean_previous_app_data ;;
  clean_previous_assets android_res_path flavor ;;
  validate_and_copy_images (CONFIG_BASE ++ [flavor]) ;;
  generate_pubspec_assets (CONFIG_BASE ++ [flavor]) ;;
  has_splash <- ask (fun fs => path_exists fs (PROJECT_ROOT ++ ["splash.png"])) ;;
  update_pubspec main_color has_splash ;;
  generate_and_run flavor main_color ;;
  move_assets_to_flavor flavor android_res_path ;;
  update_android_config package_name app_name ;;
  update_ios_config package_name app_name ;;
  verify_ios_assets flavor ;;
  clean_temporary_files ;;
  logging INFO "Branding completado".


(** A whole run from a file system: how the process ends, and the world
    it leaves. *)
Definition run (flavor : string) (android_res_arg : option path)
    (fs : filesystem) : Z * world :=
  let '(r, w) := main flavor android_res_arg {| files := fs; log := [] |} in
  (exit_status r, w).

End Program.

(* ===================================================================== *)
(** * A sample project *)
(* ===================================================================== *)

(** A small project with one flavor, [demo], and generators that produce
    one density variant of the icon; the closed examples below run the
    script on it. *)
Module Sample.
Local Open Scope list_scope.

Definition root : path := ["proj"].
Definition res : path := root ++ ["android"; "app"; "src"; "main"; "res"].
Definition demo_res : path := root ++ ["android"; "app"; "src"; "demo"; "res"].
Definition demo_dir : path := root ++ ["assets"; "configs"; "demo"].

Definition demo_config : Config :=
  {| mainColor := Some "1A2B3C"; appName := None; assets := None |}.

Definition manifest : yaml := YMap [("name", YStr "app")].

Definition project (icon splash : content) : filesystem :=
  list_to_map
    [ ([], Dir); (root, Dir);
      (root ++ ["assets"], Dir);
      (root ++ ["assets"; "configs"], Dir);
      (demo_dir, Dir);
      (demo_dir ++ ["config.json"], File (Json demo_config));
      (demo_dir ++ ["icon.png"], File icon);
      (demo_dir ++ ["splash.png"], File splash);
      (root ++ ["pubspec.yaml"], File (Yaml manifest));
      (root ++ ["android"], Dir);
      (root ++ ["android"; "app"], Dir);
      (root ++ ["android"; "app"; "src"], Dir);
      (root ++ ["android"; "app"; "src"; "main"], Dir);
      (res, Dir) ].

Definition fs0 : filesystem := project (Image 1024 1024) (Image 1242 2436).

(** The icon generator leaves [mipmap-hdpi] under the default resource
    root; the splash generator leaves nothing. *)
Definition launcher_icons (cfg : path) (fs : filesystem) : bool * filesystem :=
  (true, <[res ++ ["mipmap-hdpi"; "ic_launcher.png"] := File Binary]>
           (<[res ++ ["mipmap-hdpi"] := Dir]> fs)).

Definition native_splash (cfg : path) (fs : filesystem) : bool * filesystem :=
  (true, fs).

Definition run_demo (android_res_arg : option path) (fs : filesystem)
  : Z * world :=
  run root launcher_icons native_splash "demo" android_res_arg fs.
End Sample.

(* ===================================================================== *)
(** * Vocabulary for the properties of the steps *)
(* ===================================================================== *)

(** The world after [if p.exists(): shutil.rmtree(p); logging.info(msg)]
    when [p] is not a file. *)
Definition without_tree (p : path) (msg : string) (w : world) : world :=
  if is_dir (files w) p
  then {| files := remove_tree p (files w); log := log w ++ [(INFO, msg)] |}
  else w.

(** [fs'] is [fs] but for the text of text files among [among]. *)
Definition edits_text (among : path -> Prop) (fs fs' : filesystem) : Prop :=
  forall q,
    fs' !! q = fs !! q
    \/ (among q /\ exists t t', fs !! q = Some (File (Text t))
                              /\ fs' !! q = Some (File (Text t'))).

(** What [data.setdefault(key, {})] finds: nothing, or a mapping. *)
Definition block_or_absent (key : string) (d : list (string * yaml))
    (m : list (string * yaml)) : Prop :=
  (Dict.get key d = None /\ m = []) \/ Dict.get key d = Some (YMap m).

(** An attribute of the manifest, and the assignment of the build
    script, as the patterns expect them. *)
Definition attr (name value : string) : string :=
  name +:+ "=" +:+ quoted value.

Definition assignment (ws1 ws2 value : string) : string :=
  "applicationId" +:+ ws1 +:+ "=" +:+ ws2 +:+ quoted value.

(** The literals the two patterns of the manifest start with. *)
Definition PACKAGE_ATTR : string := "package=" +:+ String dquote "".
Definition LABEL_ATTR : string := "android:label=" +:+ String dquote "".

(** A character that is not an equals sign. *)
Definition no_equals (c : ascii) : bool := negb (Ascii.eqb "=" c).

(** The resource files [move_assets_to_flavor] moves besides the density
    directories, relative to the resource root. *)
Definition config_files : list path :=
  [ ["values"; "colors.xml"];
    ["drawable"; "launch_background.xml"];
    ["drawable-v21"; "launch_background.xml"];
    ["values"; "styles.xml"];
    ["values-night"; "styles.xml"];
    ["values-v31"; "styles.xml"];
    ["values-night-v31"; "styles.xml"] ].

(* ===================================================================== *)
(** * Properties: configuration resolution *)
(* ===================================================================== *)

Section StringFacts.

Lemma mem_hash c : Str.mem c "#" = Ascii.eqb c "#".
Proof. simpl. apply orb_false_r. Qed.

(** [lstrip] removes a run of the character and leaves a text that does
    not start with it. *)
Lemma lstrip_hash_spec s :
  exists n, s = Str.replicate n "#" +:+ Str.lstrip "#" s
            /\ Str.prefix "#" (Str.lstrip "#" s) = false.
Proof.
  induction s as [|c s IH].
  - exists O. split; reflexivity.
  - cbn [Str.lstrip]. rewrite mem_hash.
    destruct (Ascii.eqb_spec c "#") as [->|Hc].
    + destruct IH as (n & Heq & Hp). exists (S n). split; [|exact Hp].
      change (String "#" s = String "#" (Str.replicate n "#" +:+ Str.lstrip "#" s)).
      f_equal. exact Heq.
    + exists O. split; [reflexivity|].
      cbn [Str.prefix]. rewrite Ascii.eqb_sym.
      apply Ascii.eqb_neq in Hc. rewrite Hc. reflexivity.
Qed.

Lemma upper_of_lower c :
  Str.has_upper c = true ->
  Str.has_lower (Str.upper c) = true
  /\ (N_of_ascii (Str.upper c) + 32 = N_of_ascii c)%N.
Proof.
  destruct c as [[] [] [] [] [] [] [] []]; vm_compute; intros H;
    first [discriminate H | split; reflexivity].
Qed.

Lemma upper_of_other c : Str.has_upper c = false -> Str.upper c = c.
Proof. unfold Str.upper. intros ->. reflexivity. Qed.

Lemma lower_of_upper c :
  Str.has_lower c = true ->
  Str.has_upper (Str.lower c) = true
  /\ (N_of_ascii c + 32 = N_of_ascii (Str.lower c))%N.
Proof.
  destruct c as [[] [] [] [] [] [] [] []]; vm_compute; intros H;
    first [discriminate H | split; reflexivity].
Qed.

Lemma lower_of_other c : Str.has_lower c = false -> Str.lower c = c.
Proof. unfold Str.lower. intros ->. reflexivity. Qed.

End StringFacts.

Example main_color_plain :
  main_color_of {| mainColor := Some "1A2B3C"; appName := None; assets := None |}
  = "#1A2B3C".
Proof. reflexivity. Qed.

Example capitalize_demo : Str.capitalize "demo" = "Demo".
Proof. reflexivity. Qed.

Example capitalize_mixed : Str.capitalize "myApp" = "Myapp".
Proof. reflexivity. Qed.

(** Two names with letters of the upper half: the one in front is
    upper-cased, the one behind lower-cased (233 and 201 are the two
    cases of the e with acute accent). *)
Example capitalize_latin_first :
  Str.capitalize (String "233" "cole") = String "201" "cole".
Proof. reflexivity. Qed.

Example capitalize_latin_rest :
  Str.capitalize (String "a" (String "201" "")) = String "A" (String "233" "").
Proof. reflexivity. Qed.

(** C4: the resolved main color has exactly one leading hash sign: it is
    the hash sign followed by the configured value without its leading
    hash signs, however many there are; "1A2B3C" gives "#1A2B3C". *)
Theorem main_color_one_leading_hash (config : Config) (s : string)
    (Hkey : mainColor config = Some s) :
  (s = "1A2B3C" -> main_color_of config = "#1A2B3C")
  /\ exists n rest,
       s = Str.replicate n "#" +:+ rest
       /\ Str.prefix "#" rest = false
       /\ main_color_of config = String "#" rest
       /\ Str.prefix "#" (main_color_of config) = true
       /\ Str.prefix "##" (main_color_of config) = false.
Proof.
  unfold main_color_of. rewrite Hkey. cbn [default].
  split.
  - intros ->. reflexivity.
  - destruct (lstrip_hash_spec s) as (n & Heq & Hp).
    exists n, (Str.lstrip "#" s). repeat split; assumption.
Qed.

Lemma main_color_one_leading_hash_witness :
  exists n rest,
    "##1A2B3C" = Str.replicate n "#" +:+ rest
    /\ Str.prefix "#" rest = false
    /\ main_color_of {| mainColor := Some "##1A2B3C"; appName := None;
                        assets := None |} = String "#" rest
    /\ Str.prefix "#" (main_color_of {| mainColor := Some "##1A2B3C";
                                        appName := None; assets := None |}) = true
    /\ Str.prefix "##" (main_color_of {| mainColor := Some "##1A2B3C";
                                         appName := None; assets := None |}) = false.
Proof.
  exact (proj2 (main_color_one_leading_hash
                  {| mainColor := Some "##1A2B3C"; appName := None; assets := None |}
                  "##1A2B3C" eq_refl)).
Defined.

(** C5: the package identifier is "com.giolabs." followed by the flavor
    name as it is; for the flavor "demo" it is "com.giolabs.demo". *)
Theorem package_name_verbatim (flavor : string) :
  package_name_of flavor = "com.giolabs." +:+ flavor
  /\ String.length (package_name_of flavor) = (12 + String.length flavor)%nat
  /\ substring 12 (String.length flavor) (package_name_of flavor) = flavor
  /\ package_name_of "demo" = "com.giolabs.demo".
Proof.
  repeat split.
  unfold package_name_of.
  change (substring 0 (String.length flavor) flavor = flavor).
  induction flavor as [|c s IH]; cbn [substring String.length]; [reflexivity|].
  f_equal. exact IH.
Qed.

(** C8: without an [appName] key the display name is the capitalized
    flavor name: its first character upper-cased (and the others
    lower-cased, as [str.capitalize] does); with the key, its value.
    A letter with an upper-case form goes to it, 32 below; any other
    first character stays, and so does a character behind it unless it
    is an upper-case letter, which goes to its lower-case form.  The
    flavor does not start with one of the three characters whose
    title-case form lies outside the strings of the model. *)
Theorem app_name_default (config : Config) (flavor : string) :
  (appName config = None -> Str.capitalizable flavor = true ->
     app_name_of config flavor = Str.capitalize flavor
     /\ (flavor = "" -> app_name_of config flavor = "")
     /\ forall c rest, flavor = String c rest ->
          app_name_of config flavor = String (Str.upper c) (Str.map Str.lower rest)
          /\ Str.title_outside c = false
          /\ (Str.has_upper c = true ->
                Str.has_lower (Str.upper c) = true
                /\ (N_of_ascii (Str.upper c) + 32 = N_of_ascii c)%N)
          /\ (Str.has_upper c = false -> Str.upper c = c)
          /\ (forall d, Str.has_lower d = true ->
                Str.has_upper (Str.lower d) = true
                /\ (N_of_ascii d + 32 = N_of_ascii (Str.lower d))%N)
          /\ (forall d, Str.has_lower d = false -> Str.lower d = d))
  /\ (forall s, appName config = Some s -> app_name_of config flavor = s).
Proof.
  unfold app_name_of. split.
  - intros -> Hcap. cbn [default]. split; [reflexivity|].
    split; [intros ->; reflexivity|].
    intros c rest ->. split; [reflexivity|].
    split; [apply negb_true_iff, Hcap|]. split; [apply upper_of_lower|].
    split; [apply upper_of_other|]. split.
    + apply lower_of_upper.
    + apply lower_of_other.
  - intros s ->. reflexivity.
Qed.

Lemma app_name_default_witness :
  app_name_of {| mainColor := None; appName := None; assets := None |}
              (String "233" "cole")
  = String "201" "cole".
Proof.
  exact (proj1 (proj1 (app_name_default
                         {| mainColor := None; appName := None; assets := None |}
                         (String "233" "cole")) eq_refl eq_refl)).
Defined.

(* ===================================================================== *)
(** * Properties: dictionaries and the manifest merges *)
(* ===================================================================== *)

Section DictFacts.
Context {V : Type}.
Implicit Types (m : list (string * V)) (k : string) (v : V).

Lemma get_set_eq k v m : Dict.get k (Dict.set k v m) = Some v.
Proof.
  induction m as [|[k' v'] m IH]; cbn [Dict.set Dict.get].
  - rewrite String.eqb_refl. reflexivity.
  - destruct (String.eqb k' k) eqn:E; cbn [Dict.get]; rewrite E; auto.
Qed.

Lemma get_set_ne k k' v m :
  k <> k' -> Dict.get k (Dict.set k' v m) = Dict.get k m.
Proof.
  intros Hne. induction m as [|[k0 v0] m IH]; cbn [Dict.set Dict.get].
  - destruct (String.eqb_spec k' k); [congruence | reflexivity].
  - destruct (String.eqb_spec k0 k') as [->|Hk]; cbn [Dict.get].
    + destruct (String.eqb_spec k' k); [congruence | reflexivity].
    + destruct (String.eqb k0 k); auto.
Qed.

Lemma set_set k v v' m : Dict.set k v (Dict.set k v' m) = Dict.set k v m.
Proof.
  induction m as [|[k0 v0] m IH]; cbn [Dict.set].
  - rewrite String.eqb_refl. reflexivity.
  - destruct (String.eqb k0 k) eqn:E; cbn [Dict.set]; rewrite E; congruence.
Qed.

Lemma setdefault_present k d m v :
  Dict.get k m = Some v -> Dict.setdefault k d m = (v, m).
Proof. unfold Dict.setdefault. intros ->. reflexivity. Qed.

Lemma setdefault_other k k' d m :
  k <> k' -> Dict.get k (snd (Dict.setdefault k' d m)) = Dict.get k m.
Proof.
  intros Hne. unfold Dict.setdefault. destruct (Dict.get k' m); cbn [snd].
  - reflexivity.
  - apply get_set_ne, Hne.
Qed.

End DictFacts.


Lemma merge_block_spec key block d d' :
  merge_block key block d = Ok d' ->
  (exists m, Dict.get key d' = Some (YMap (Dict.update m block)))
  /\ (forall k, k <> key -> Dict.get k d' = Dict.get k d).
Proof.
  unfold merge_block.
  pose proof (setdefault_other (V := yaml)) as Hother.
  destruct (Dict.setdefault key (YMap []) d) as [cur d1] eqn:E.
  destruct cur; try discriminate. intros [= <-]. split.
  - eexists. apply get_set_eq.
  - intros k Hk. rewrite get_set_ne by exact Hk.
    specialize (Hother k key (YMap []) d Hk). rewrite E in Hother. exact Hother.
Qed.

Lemma merge_branding_spec main_color has_splash d data' :
  merge_branding main_color has_splash (YMap d) = Ok data' ->
  exists d' m1 m2,
    data' = YMap d'
    /\ Dict.get "flutter_launcher_icons" d'
       = Some (YMap (Dict.update m1 (launcher_icons_block main_color)))
    /\ Dict.get "flutter_native_splash" d'
       = Some (YMap (Dict.update m2 (native_splash_block main_color))).
Proof.
  cbn [merge_branding].
  destruct (merge_block "flutter_launcher_icons" _ d) as [d1|] eqn:E1;
    cbn [rbind]; [|discriminate].
  destruct (merge_block "flutter_native_splash" _ d1) as [d2|] eqn:E2;
    cbn [rbind]; [|discriminate].
  intros [= <-].
  apply merge_block_spec in E1 as [[m1 H1] _].
  apply merge_block_spec in E2 as [[m2 H2] Hk].
  exists d2, m1, m2. repeat split; [|exact H2].
  rewrite Hk by discriminate. exact H1.
Qed.




(** ** The asset merge *)

Lemma add_assets_raise e new :
  fold_left (fun acc asset => rbind acc (fun a => add_asset a asset)) new (Raise e)
  = Raise e.
Proof. induction new as [|a new IH]; [reflexivity | exact IH]. Qed.

Lemma add_assets_cons v a new :
  add_assets v (a :: new) = rbind (add_asset v a) (fun v' => add_assets v' new).
Proof.
  unfold add_assets. cbn [fold_left rbind].
  destruct (add_asset v a); cbn [rbind]; [reflexivity | apply add_assets_raise].
Qed.

Lemma add_assets_app v new1 new2 :
  add_assets v (new1 ++ new2)
  = rbind (add_assets v new1) (fun v' => add_assets v' new2).
Proof.
  revert v. induction new1 as [|a new1 IH]; intros v; [reflexivity|].
  cbn [app]. rewrite !add_assets_cons.
  destruct (add_asset v a); cbn [rbind]; [apply IH | reflexivity].
Qed.

Lemma existsb_snoc a l b :
  existsb (yaml_eq_str a) (l ++ [YStr b])
  = existsb (yaml_eq_str a) l || String.eqb b a.
Proof.
  rewrite existsb_app. cbn [existsb yaml_eq_str]. rewrite orb_false_r. reflexivity.
Qed.

Lemma snoc_neq {A} (l : list A) x : l ++ [x] <> l.
Proof.
  intros H. apply (f_equal (@length A)) in H.
  rewrite length_app in H. cbn in H. lia.
Qed.

(** An asset is present when adding it changes nothing. *)
Lemma present_seq a l :
  add_asset (YSeq l) a = Ok (YSeq l) <-> existsb (yaml_eq_str a) l = true.
Proof.
  cbn [add_asset]. destruct (existsb (yaml_eq_str a) l); split; auto.
  - intros [= H]. exfalso. exact (snoc_neq _ _ H).
  - discriminate.
Qed.

Lemma add_asset_then_present v a v' :
  add_asset v a = Ok v' -> add_asset v' a = Ok v'.
Proof.
  destruct v; cbn [add_asset]; try discriminate.
  - destruct (Str.contains a s) eqn:E; [|discriminate].
    intros [= <-]. cbn [add_asset]. rewrite E. reflexivity.
  - destruct (existsb (yaml_eq_str a) l) eqn:E; intros [= <-].
    + apply present_seq, E.
    + apply present_seq. rewrite existsb_snoc, String.eqb_refl. apply orb_true_r.
  - destruct (Dict.get a m) eqn:E; [|discriminate].
    intros [= <-]. cbn [add_asset]. rewrite E. reflexivity.
Qed.

Lemma add_asset_keeps_present v a v' b :
  add_asset v b = Ok v -> add_asset v a = Ok v' -> add_asset v' b = Ok v'.
Proof.
  destruct v; cbn [add_asset]; try discriminate.
  - intros Hb. destruct (Str.contains a s); [|discriminate].
    intros [= <-]. exact Hb.
  - intros Hb. apply (proj1 (present_seq b l)) in Hb.
    destruct (existsb (yaml_eq_str a) l); intros [= <-]; apply present_seq.
    + exact Hb.
    + rewrite existsb_snoc, Hb. reflexivity.
  - intros Hb. destruct (Dict.get a m); [|discriminate].
    intros [= <-]. exact Hb.
Qed.

Lemma add_assets_result v new v' :
  add_assets v new = Ok v' ->
  (forall b, add_asset v b = Ok v -> add_asset v' b = Ok v')
  /\ (forall a, In a new -> add_asset v' a = Ok v').
Proof.
  revert v. induction new as [|a new IH]; intros v.
  - intros [= <-]. split; [auto | intros a []].
  - rewrite add_assets_cons. destruct (add_asset v a) as [v1|] eqn:E;
      cbn [rbind]; [|discriminate].
    intros H. destruct (IH _ H) as [Hkeep Hnew]. split.
    + intros b Hb. apply Hkeep. eapply add_asset_keeps_present; eauto.
    + intros x [<- | Hx]; [|auto].
      apply Hkeep. eapply add_asset_then_present; eauto.
Qed.

Lemma add_assets_all_present v new :
  (forall a, In a new -> add_asset v a = Ok v) -> add_assets v new = Ok v.
Proof.
  induction new as [|a new IH]; intros H; [reflexivity|].
  rewrite add_assets_cons, (H a (or_introl eq_refl)). cbn [rbind].
  apply IH. intros x Hx. apply H. right. exact Hx.
Qed.

(** On a list, the merge appends: what was there stays in place, and what
    is appended was absent and is appended once. *)
Lemma add_assets_seq l new :
  exists extra,
    add_assets (YSeq l) new = Ok (YSeq (l ++ extra))
    /\ List.NoDup extra
    /\ (forall x, In x extra ->
          exists a, x = YStr a /\ In a new /\ existsb (yaml_eq_str a) l = false).
Proof.
  revert l. induction new as [|a new IH]; intros l.
  - exists []. rewrite app_nil_r. repeat split; [apply List.NoDup_nil | intros x []].
  - rewrite add_assets_cons. cbn [add_asset rbind].
    destruct (existsb (yaml_eq_str a) l) eqn:E.
    + destruct (IH l) as (extra & Heq & Hnd & Hin).
      exists extra. repeat split; auto.
      intros x Hx. destruct (Hin x Hx) as (b & -> & Hb & Hl).
      exists b. repeat split; auto. right. exact Hb.
    + destruct (IH (l ++ [YStr a])) as (extra & Heq & Hnd & Hin).
      exists (YStr a :: extra). rewrite Heq, <- app_assoc. cbn [app].
      repeat split.
      * apply List.NoDup_cons; [|exact Hnd].
        intros Hx. destruct (Hin _ Hx) as (b & [= <-] & _ & Hl).
        rewrite existsb_snoc, String.eqb_refl, orb_true_r in Hl. discriminate.
      * intros x [<- | Hx].
        -- exists a. repeat split; auto. left. reflexivity.
        -- destruct (Hin x Hx) as (b & -> & Hb & Hl).
           exists b. rewrite existsb_snoc in Hl.
           apply orb_false_iff in Hl as [Hl _].
           repeat split; auto. right. exact Hb.
Qed.

Lemma merge_assets_twice flavor config data data1 :
  merge_assets flavor (Ok config) data = Ok data1 ->
  merge_assets flavor (Ok config) data1 = Ok data1.
Proof.
  destruct data as [| | | | |d]; try discriminate.
  cbn [merge_assets].
  destruct (Dict.setdefault "flutter" (YMap []) d) as [flutter d1] eqn:Ed.
  destruct flutter as [| | | | |f]; try discriminate.
  destruct (Dict.setdefault "assets" (YSeq []) f) as [assets0 f1] eqn:Ef.
  cbn [rbind].
  destruct (add_assets assets0 (flavor_assets flavor)) as [a1|] eqn:E1;
    cbn [rbind]; [|discriminate].
  destruct (add_assets a1 (default [] (assets config))) as [a2|] eqn:E2;
    cbn [rbind]; [|discriminate].
  intros [= <-]. cbn [merge_assets].
  rewrite (setdefault_present _ _ _ _ (get_set_eq _ _ _)).
  rewrite (setdefault_present _ _ _ _ (get_set_eq _ _ _)).
  cbn [rbind].
  destruct (add_assets_result _ _ _ E1) as [_ H1].
  destruct (add_assets_result _ _ _ E2) as [Hk2 H2].
  rewrite (add_assets_all_present a2 (flavor_assets flavor))
    by (intros a Ha; apply Hk2, H1, Ha).
  cbn [rbind]. rewrite (add_assets_all_present a2 _ H2). cbn [rbind].
  rewrite !set_set. reflexivity.
Qed.

Lemma merge_assets_appends flavor config d f l :
  Dict.get "flutter" d = Some (YMap f) ->
  Dict.get "assets" f = Some (YSeq l) ->
  exists extra,
    merge_assets flavor (Ok config) (YMap d)
    = Ok (YMap (Dict.set "flutter"
                  (YMap (Dict.set "assets" (YSeq (l ++ extra)) f)) d))
    /\ List.NoDup extra
    /\ (forall x, In x extra ->
          exists a, x = YStr a
                    /\ In a (flavor_assets flavor ++ default [] (assets config))
                    /\ existsb (yaml_eq_str a) l = false).
Proof.
  intros Hd Hf.
  destruct (add_assets_seq l (flavor_assets flavor ++ default [] (assets config)))
    as (extra & Heq & Hnd & Hin).
  exists extra. split; [|split; assumption].
  cbn [merge_assets].
  rewrite (setdefault_present _ _ _ _ Hd), (setdefault_present _ _ _ _ Hf).
  cbn [rbind]. rewrite add_assets_app in Heq.
  destruct (add_assets (YSeq l) (flavor_assets flavor)) as [a1|];
    cbn [rbind] in Heq |- *; [|discriminate].
  rewrite Heq. reflexivity.
Qed.

Lemma merge_assets_needs_config flavor e data :
  exists e', merge_assets flavor (Raise e) data = Raise e'.
Proof.
  destruct data as [| | | | |d]; cbn [merge_assets]; eauto.
  destruct (Dict.setdefault "flutter" (YMap []) d) as [[| | | | |f] d1]; eauto.
  destruct (Dict.setdefault "assets" (YSeq []) f) as [a0 f1]. cbn. eauto.
Qed.

Lemma parent_snoc (p : path) (x : string) : parent (p ++ [x]) = p.
Proof. unfold parent. apply removelast_last. Qed.

Lemma snoc_ne_self (p : path) (x : string) : p ++ [x] <> p.
Proof. apply snoc_neq. Qed.

(** Running the step again on the world it left changes no file. *)
Lemma generate_pubspec_assets_twice root flavor_dir w w1 :
  generate_pubspec_assets root flavor_dir w = (Ok tt, w1) ->
  exists w2, generate_pubspec_assets root flavor_dir w1 = (Ok tt, w2)
             /\ files w2 = files w1.
Proof.
  unfold generate_pubspec_assets, bind, load_yaml, attempt, ask, effect, logging,
    json_at, write, read, PUBSPEC.
  rewrite parent_snoc.
  destruct (files w !! (root ++ ["pubspec.yaml"])) as [[[? ?|?|data|?|]|]|] eqn:Ep;
    cbn; try (intros [=]; fail).
  destruct (files w !! (flavor_dir ++ ["config.json"]))
    as [[[? ?|config|?|?|]|]|] eqn:Ec; cbn.
  all: try (match goal with |- context [merge_assets ?f (Raise ?e) ?d] =>
              destruct (merge_assets_needs_config f e d) as [e' ->] end;
            cbn; intros [=]; fail).
  destruct (merge_assets (name flavor_dir) (Ok config) data) as [data1|] eqn:Em;
    cbn; try (intros [=]; fail).
  destruct (files w !! root) as [[]|] eqn:Er; cbn; try (intros [=]; fail).
  intros [= <-]. cbn.
  assert (Hne : root ++ ["pubspec.yaml"] <> flavor_dir ++ ["config.json"]).
  { intros H. rewrite H in Ep. congruence. }
  rewrite lookup_insert_eq. cbn. rewrite lookup_insert_ne by exact Hne.
  rewrite Ec. cbn. rewrite (merge_assets_twice _ _ _ _ Em). cbn.
  rewrite lookup_insert_ne by apply snoc_ne_self. rewrite Er.
  eexists. split; [reflexivity|]. cbn. apply insert_insert_eq.
Qed.

(** C3: the asset merge is idempotent, on the loaded manifest and on the
    file; on an asset list it only appends, so the entries that were
    there keep their order, it appends no path that was already there,
    and none twice. *)
Theorem merge_assets_idempotent :
  (forall flavor config data data1,
     merge_assets flavor (Ok config) data = Ok data1 ->
     merge_assets flavor (Ok config) data1 = Ok data1)
  /\ (forall root flavor_dir w w1,
        generate_pubspec_assets root flavor_dir w = (Ok tt, w1) ->
        exists w2, generate_pubspec_assets root flavor_dir w1 = (Ok tt, w2)
                   /\ files w2 = files w1)
  /\ (forall flavor config d f l,
        Dict.get "flutter" d = Some (YMap f) ->
        Dict.get "assets" f = Some (YSeq l) ->
        exists extra,
          merge_assets flavor (Ok config) (YMap d)
          = Ok (YMap (Dict.set "flutter"
                        (YMap (Dict.set "assets" (YSeq (l ++ extra)) f)) d))
          /\ List.NoDup extra
          /\ (forall x, In x extra ->
                exists a, x = YStr a
                          /\ In a (flavor_assets flavor ++ default [] (assets config))
                          /\ existsb (yaml_eq_str a) l = false)).
Proof.
  split; [exact merge_assets_twice|].
  split; [exact generate_pubspec_assets_twice | exact merge_assets_appends].
Qed.

Example merge_assets_demo :
  merge_assets "demo"
    (Ok {| mainColor := None; appName := None;
           assets := Some ["fonts/a.ttf"; "assets/configs/demo/icon.png"] |})
    (YMap [("flutter", YMap [("assets", YSeq [YStr "assets/configs/demo/icon.png";
                                              YStr "logo.png"])])])
  = Ok (YMap [("flutter", YMap [("assets",
          YSeq [YStr "assets/configs/demo/icon.png"; YStr "logo.png";
                YStr "assets/configs/demo/splash.png";
                YStr "assets/configs/demo/config.json";
                YStr "fonts/a.ttf"])])]).
Proof. reflexivity. Qed.

(* ===================================================================== *)
(** * Properties: the file system *)
(* ===================================================================== *)

Lemma starts_with_refl (p : path) : starts_with p p = true.
Proof.
  induction p as [|a p IH]; [reflexivity|].
  cbn [starts_with]. rewrite String.eqb_refl. exact IH.
Qed.

Lemma starts_with_app (r p q : path) :
  starts_with (r ++ p) (r ++ q) = starts_with p q.
Proof.
  induction r as [|a r IH]; [reflexivity|].
  cbn [app starts_with]. rewrite String.eqb_refl. exact IH.
Qed.

Lemma starts_with_length (p q : path) :
  starts_with p q = true -> (length p <= length q)%nat.
Proof.
  revert q. induction p as [|a p IH]; intros [|b q]; cbn; try lia; try discriminate.
  intros H. apply andb_true_iff in H as [_ H]. apply IH in H. lia.
Qed.

Lemma starts_with_trans (p q r : path) :
  starts_with p q = true -> starts_with q r = true -> starts_with p r = true.
Proof.
  revert q r. induction p as [|a p IH]; intros [|b q] [|c r]; cbn; auto;
    try discriminate.
  intros H1 H2. apply andb_true_iff in H1 as [E1 H1].
  apply andb_true_iff in H2 as [E2 H2].
  apply String.eqb_eq in E1, E2. subst. rewrite String.eqb_refl. eauto.
Qed.

Lemma lookup_remove_tree (p q : path) (fs : filesystem) :
  remove_tree p fs !! q = if starts_with p q then None else fs !! q.
Proof.
  unfold remove_tree. destruct (starts_with p q) eqn:E.
  - apply map_lookup_filter_None. right. intros x _. cbn. congruence.
  - destruct (fs !! q) as [x|] eqn:Hq.
    + apply map_lookup_filter_Some. split; [exact Hq | exact E].
    + apply map_lookup_filter_None. left. exact Hq.
Qed.

(** The defect behind C1, on any file system: when source and destination
    are the same directory, [rmtree(dest)] removes the source and
    [shutil.move] then finds nothing to move. *)
Lemma rmtree_then_move_same (fs : filesystem) (d : path) :
  fs !! d = Some Dir ->
  rmtree false d fs = Ok (remove_tree d fs)
  /\ remove_tree d fs !! d = None
  /\ move d d (remove_tree d fs) = Raise FileNotFoundError.
Proof.
  intros Hd.
  assert (Hgone : remove_tree d fs !! d = None).
  { rewrite lookup_remove_tree, starts_with_refl. reflexivity. }
  split; [|split].
  - unfold rmtree. rewrite Hd. reflexivity.
  - exact Hgone.
  - unfold move, is_dir, path_exists. rewrite Hgone. reflexivity.
Qed.

(** With a resource root of its own, the sample run moves the density
    variant: status 0, the directory under the flavor root and no longer
    under the default one. *)
Example sample_run_with_override :
  let '(status, w) := Sample.run_demo (Some Sample.demo_res) Sample.fs0 in
  status = 0
  /\ files w !! (Sample.demo_res ++ ["mipmap-hdpi"]) = Some Dir
  /\ files w !! (Sample.demo_res ++ ["mipmap-hdpi"; "ic_launcher.png"])
     = Some (File Binary)
  /\ files w !! (Sample.res ++ ["mipmap-hdpi"]) = None
  /\ files w !! (Sample.res ++ ["mipmap-hdpi"; "ic_launcher.png"]) = None.
Proof. vm_compute. repeat split. Qed.

(** C1, at the failing input: the sample project run without
    [--android-res-path].  The flavor root is the default root, the
    generated [mipmap-hdpi] is deleted as a stale destination, the move
    raises, and the process ends with status 1 and without the
    directory. *)
Theorem default_root_run_fails :
  let '(status, w) := Sample.run_demo None Sample.fs0 in
  status = 1
  /\ fst (main Sample.root Sample.launcher_icons Sample.native_splash "demo" None
            {| files := Sample.fs0; log := [] |}) = Raise FileNotFoundError
  /\ files w !! (Sample.res ++ ["mipmap-hdpi"]) = None
  /\ files w !! (Sample.res ++ ["mipmap-hdpi"; "ic_launcher.png"]) = None
  /\ List.last (log w) (INFO, "") = (INFO, "Moviendo assets...").
Proof. vm_compute. repeat split. Qed.

(* ===================================================================== *)
(** * Properties: the end of a run *)
(* ===================================================================== *)



Lemma world_eta w : {| files := files w; log := log w |} = w.
Proof. destruct w. reflexivity. Qed.





(* ===================================================================== *)
(** * Properties: rules for specifications of computations *)
(* ===================================================================== *)

Section TripleRules.
Context {A B : Type}.
Variable E : exn -> filesystem -> Prop.
Implicit Types (P : filesystem -> Prop).

Lemma triple_ret P (a : A) : triple E P (ret a) (fun x fs => x = a /\ P fs).
Proof. intros w H. cbn. auto. Qed.

Lemma triple_bind P (m : M A) (k : A -> M B) R Q :
  triple E P m R -> (forall a, triple E (R a) (k a) Q) -> triple E P (bind m k) Q.
Proof.
  intros Hm Hk w HP. unfold bind. specialize (Hm w HP).
  destruct (m w) as [[a|e] w']; [|exact Hm]. apply Hk, Hm.
Qed.

Lemma triple_conseq P P' (m : M A) Q Q' :
  (forall fs, P fs -> P' fs) -> triple E P' m Q' ->
  (forall a fs, Q' a fs -> Q a fs) -> triple E P m Q.
Proof.
  intros HP Hm HQ w H. specialize (Hm w (HP _ H)).
  destruct (m w) as [[a|e] w']; auto.
Qed.

Lemma triple_ask P (f : filesystem -> A) :
  triple E P (ask f) (fun a fs => P fs /\ a = f fs).
Proof. intros w H. cbn. auto. Qed.

Lemma triple_attempt P (f : filesystem -> result A) :
  (forall fs e, P fs -> f fs = Raise e -> E e fs) ->
  triple E P (attempt f) (fun a fs => P fs /\ f fs = Ok a).
Proof.
  intros HE w H. unfold attempt. destruct (f (files w)) eqn:Ef; cbn; eauto.
Qed.

Lemma triple_raise P (e : exn) (Q : A -> filesystem -> Prop) :
  (forall fs, P fs -> E e fs) -> triple E P (raise e) Q.
Proof. intros HE w H. cbn. auto. Qed.

End TripleRules.

Section TripleRulesUnit.
Variable E : exn -> filesystem -> Prop.
Implicit Types (P : filesystem -> Prop) (Q : unit -> filesystem -> Prop).

Lemma triple_effect P (f : filesystem -> result filesystem) Q :
  (forall fs fs', P fs -> f fs = Ok fs' -> Q tt fs') ->
  (forall fs e, P fs -> f fs = Raise e -> E e fs) ->
  triple E P (effect f) Q.
Proof.
  intros HQ HE w H. unfold effect. destruct (f (files w)) eqn:Ef; cbn; eauto.
Qed.

Lemma triple_logging P (l : level) (msg : string) : triple E P (logging l msg) (fun _ fs => P fs).
Proof. intros w H. cbn. exact H. Qed.

Lemma triple_when P (b : bool) (m : M unit) Q :
  (b = true -> triple E P m Q) -> (b = false -> forall fs, P fs -> Q tt fs) ->
  triple E P (when b m) Q.
Proof.
  intros Ht Hf. destruct b; cbn [when]; [auto|].
  intros w H. cbn. auto.
Qed.

Lemma triple_for_each {X : Type} (I : filesystem -> Prop) (l : list X) (body : X -> M unit) :
  (forall x, In x l -> triple E I (body x) (fun _ => I)) ->
  triple E I (for_each l body) (fun _ => I).
Proof.
  induction l as [|x l IH]; intros Hb; cbn [for_each].
  - intros w H. exact H.
  - eapply triple_bind; [apply Hb; left; reflexivity|].
    intros u. apply IH. intros y Hy. apply Hb. right. exact Hy.
Qed.

End TripleRulesUnit.

(* ===================================================================== *)
(** * Properties: what the file operations leave alone *)
(* ===================================================================== *)

Lemma rmtree_shrinks (b : bool) (p : path) (fs fs' : filesystem) :
  rmtree b p fs = Ok fs' ->
  forall q, (starts_with p q = false -> fs' !! q = fs !! q)
            /\ (fs' !! q = fs !! q \/ fs' !! q = None).
Proof.
  unfold rmtree. intros H q.
  assert (Hcases : fs' = fs \/ fs' = remove_tree p fs).
  { destruct (fs !! p) as [[c|]|]; destruct b; simplify_eq; auto. }
  destruct Hcases as [-> | ->]; [auto|].
  rewrite lookup_remove_tree. destruct (starts_with p q); split; auto; discriminate.
Qed.

Lemma rmtree_raises (b : bool) (p : path) (fs : filesystem) (e : exn) :
  rmtree b p fs = Raise e -> ends_nonzero e.
Proof.
  unfold rmtree, ends_nonzero. destruct (fs !! p) as [[c|]|]; destruct b;
    intros; simplify_eq; discriminate.
Qed.

Lemma unlink_shrinks (p : path) (fs fs' : filesystem) :
  unlink p fs = Ok fs' ->
  forall q, (q <> p -> fs' !! q = fs !! q)
            /\ (fs' !! q = fs !! q \/ fs' !! q = None).
Proof.
  unfold unlink. destruct (fs !! p) as [[c|]|]; intros H q; simplify_eq.
  destruct (decide (q = p)) as [->|Hne].
  - rewrite lookup_delete_eq. split; [congruence | auto].
  - rewrite lookup_delete_ne by congruence. auto.
Qed.

Lemma unlink_raises (p : path) (fs : filesystem) (e : exn) :
  unlink p fs = Raise e -> ends_nonzero e.
Proof.
  unfold unlink, ends_nonzero. destruct (fs !! p) as [[c|]|]; intros; simplify_eq; discriminate.
Qed.

Lemma prefixes_starts_with (p q : path) : In q (prefixes p) -> starts_with q p = true.
Proof.
  revert q. induction p as [|a p IH]; intros q; cbn [prefixes].
  - intros [<- | []]. reflexivity.
  - intros [<- | H]; [reflexivity|].
    apply list_elem_of_In, list_elem_of_fmap in H as (q' & -> & H).
    cbn [starts_with]. rewrite String.eqb_refl. apply IH, list_elem_of_In, H.
Qed.

Lemma mkdir_fold_keeps (p : path) (l : list path) (r : result filesystem)
    (fs' : filesystem) (q : path) :
  fold_left
    (fun acc q =>
       rbind acc (fun fs =>
         match fs !! q with
         | Some Dir => Ok fs
         | Some (File _) =>
             Raise (if decide (q = p) then FileExistsError else NotADirectoryError)
         | None => Ok (<[q := Dir]> fs)
         end)) l r = Ok fs' ->
  ~ In q l ->
  exists fs, r = Ok fs /\ fs' !! q = fs !! q.
Proof.
  revert r. induction l as [|x l IH]; intros r; cbn [fold_left].
  - intros -> _. eauto.
  - intros H Hq. apply IH in H as (fs1 & H1 & ->); [|intros Hin; apply Hq; right; exact Hin].
    destruct r as [fs|e]; cbn [rbind] in H1; [|discriminate].
    exists fs. split; [reflexivity|].
    destruct (fs !! x) as [[c|]|]; simplify_eq; [reflexivity|].
    apply lookup_insert_ne. intros ->. apply Hq. left. reflexivity.
Qed.

Lemma mkdir_keeps (p : path) (fs fs' : filesystem) (q : path) :
  mkdir p fs = Ok fs' -> starts_with q p = false -> fs' !! q = fs !! q.
Proof.
  unfold mkdir. intros H Hq.
  apply (mkdir_fold_keeps p _ _ _ q) in H as (fs1 & [= <-] & ->); [reflexivity|].
  intros Hin. apply prefixes_starts_with in Hin. congruence.
Qed.

Lemma mkdir_fold_raises (p : path) (l : list path) (r : result filesystem) (e : exn) :
  fold_left
    (fun acc q =>
       rbind acc (fun fs =>
         match fs !! q with
         | Some Dir => Ok fs
         | Some (File _) =>
             Raise (if decide (q = p) then FileExistsError else NotADirectoryError)
         | None => Ok (<[q := Dir]> fs)
         end)) l r = Raise e ->
  (forall e', r = Raise e' -> ends_nonzero e') -> ends_nonzero e.
Proof.
  revert r. induction l as [|x l IH]; intros r; cbn [fold_left].
  - intros -> H. auto.
  - intros H Hr. eapply IH; [exact H|].
    intros e'. destruct r as [fs|e0]; cbn [rbind].
    + destruct (fs !! x) as [[c|]|]; intros; simplify_eq;
        unfold ends_nonzero; case_decide; discriminate.
    + intros [= <-]. auto.
Qed.

Lemma mkdir_raises (p : path) (fs : filesystem) (e : exn) :
  mkdir p fs = Raise e -> ends_nonzero e.
Proof.
  unfold mkdir. intros H. eapply mkdir_fold_raises; [exact H|]. discriminate.
Qed.

Lemma children_is_child (fs : filesystem) (p q : path) :
  In q (children fs p) -> is_child p q = true.
Proof.
  unfold children. intros H.
  apply list_elem_of_In, list_elem_of_fmap in H as ([q' x] & -> & H).
  apply elem_of_map_to_list, map_lookup_filter_Some in H as [_ H]. exact H.
Qed.

Lemma iterdir_entries (fs : filesystem) (p : path) (l : list path) :
  iterdir fs p = Ok l -> forall q, In q l -> is_child p q = true.
Proof.
  unfold iterdir. destruct (fs !! p) as [[c|]|]; intros; simplify_eq.
  eapply children_is_child; eauto.
Qed.

Lemma iterdir_raises (fs : filesystem) (p : path) (e : exn) :
  iterdir fs p = Raise e -> ends_nonzero e.
Proof.
  unfold iterdir, ends_nonzero. destruct (fs !! p) as [[c|]|]; intros; simplify_eq; discriminate.
Qed.

Lemma json_at_raises (p : path) (fs : filesystem) (e : exn) :
  json_at p fs = Raise e -> ends_nonzero e.
Proof.
  unfold json_at, read, ends_nonzero.
  destruct (fs !! p) as [[[]|]|]; cbn; intros; simplify_eq; discriminate.
Qed.


Lemma validate_image_dimensions_spec (p : path) (required : dimensions)
    (label : string) (w : world) :
  exists msgs,
    validate_image_dimensions p required label w
    = (Ok (image_meets required (files w) p),
       {| files := files w; log := log w ++ msgs |}).
Proof.
  unfold validate_image_dimensions, try_except, image_size, attempt, bind,
    image_meets, read, logging, ret.
  destruct (files w !! p) as [[[width height|c|d|t|]|]|]; cbn [rbind files log].
  2-7: eexists; reflexivity.
  destruct required as [n|mw mh].
  - destruct ((width <? n) || (height <? n)); cbn [negb andb files log].
    + eexists; reflexivity.
    + destruct (width =? height); cbn [negb files log].
      * exists []. rewrite app_nil_r, world_eta. reflexivity.
      * eexists; reflexivity.
  - destruct ((width <? mw) || (height <? mh)); cbn [negb files log].
    + eexists; reflexivity.
    + exists []. rewrite app_nil_r, world_eta. reflexivity.
Qed.

Lemma validate_and_copy_images_exits (root flavor_dir : path) (w : world) :
  path_exists (files w) (flavor_dir ++ ["icon.png"]) = false
  \/ image_meets ICON_ADAPTIVE (files w) (flavor_dir ++ ["icon.png"]) = false
  \/ path_exists (files w) (flavor_dir ++ ["splash.png"]) = false
  \/ image_meets SPLASH_PORTRAIT (files w) (flavor_dir ++ ["splash.png"]) = false ->
  exists w',
    validate_and_copy_images root flavor_dir w = (Raise (SystemExit 1), w')
    /\ files w' = files w.
Proof.
  intros Hbad. unfold validate_and_copy_images.
  unfold bind at 1. cbn [logging].
  unfold bind at 1. cbn [ask files].
  destruct (path_exists (files w) (flavor_dir ++ ["icon.png"])) eqn:Ei;
    cbn [negb when]; [|eexists; split; reflexivity].
  unfold bind at 1. cbn [ret].
  unfold bind at 1.
  destruct (validate_image_dimensions_spec (flavor_dir ++ ["icon.png"])
              ICON_ADAPTIVE "icon.png"
              {| files := files w;
                 log := log w ++ [(INFO, "Validando y copiando imagenes...")] |})
    as [msgs ->].
  cbn [files log].
  destruct (image_meets ICON_ADAPTIVE (files w) (flavor_dir ++ ["icon.png"])) eqn:Em;
    cbn [negb when]; [|eexists; split; reflexivity].
  unfold bind at 1. cbn [ret].
  unfold bind at 1. cbn [ask files].
  destruct (path_exists (files w) (flavor_dir ++ ["splash.png"])) eqn:Es;
    cbn [negb when]; [|eexists; split; reflexivity].
  unfold bind at 1. cbn [ret].
  unfold bind at 1.
  match goal with |- context [validate_image_dimensions ?p ?r ?l ?w0] =>
    destruct (validate_image_dimensions_spec p r l w0) as [msgs' ->] end.
  cbn [files log].
  destruct (image_meets SPLASH_PORTRAIT (files w) (flavor_dir ++ ["splash.png"])) eqn:Ems;
    cbn [negb when]; [|eexists; split; reflexivity].
  exfalso. destruct Hbad as [H|[H|[H|H]]]; discriminate H.
Qed.

Lemma triple_false {A : Type} (E : exn -> filesystem -> Prop) (m : M A)
    (Q : A -> filesystem -> Prop) :
  triple E (fun _ => False) m Q.
Proof. intros w []. Qed.

Lemma starts_with_short (p q r : path) :
  starts_with p (q ++ r) = true -> (length p <= length q)%nat ->
  starts_with p q = true.
Proof.
  revert q. induction p as [|a p IH]; intros [|b q]; cbn; auto; try lia.
  intros H Hl. apply andb_true_iff in H as [-> H]. apply IH; [exact H | lia].
Qed.

Lemma starts_with_same_length (p q : path) :
  starts_with p q = true -> length p = length q -> p = q.
Proof.
  revert q. induction p as [|a p IH]; intros [|b q]; cbn; auto; try discriminate.
  intros H Hl. apply andb_true_iff in H as [Ha H]. apply String.eqb_eq in Ha.
  f_equal; [exact Ha | apply IH; [exact H | lia]].
Qed.

Lemma name_snoc (p : path) (x : string) : name (p ++ [x]) = x.
Proof. unfold name. apply last_last. Qed.

Section ValidationFirst.

Variable root : path.
Variables g1 g2 : path -> filesystem -> bool * filesystem.
Variable flavor : string.
Variable arg : option path.
Variable fs0 : filesystem.

Hypothesis Hres :
  forall p, arg = Some p -> starts_with p root = true ->
            (length root <= length p)%nat.

Let icon : path := (CONFIG_BASE root ++ [flavor]) ++ ["icon.png"].
Let splash : path := (CONFIG_BASE root ++ [flavor]) ++ ["splash.png"].
Let res_path : path := default (ANDROID_RES_DEFAULT root) arg.

(** The manifest is as it was, and each source image is as it was or is
    gone. *)
Let I (fs : filesystem) : Prop :=
  fs !! PUBSPEC root = fs0 !! PUBSPEC root
  /\ (fs !! icon = fs0 !! icon \/ fs !! icon = None)
  /\ (fs !! splash = fs0 !! splash \/ fs !! splash = None).

Let E (e : exn) (fs : filesystem) : Prop := ends_nonzero e /\ I fs.

Lemma I_shrink (fs fs' : filesystem) :
  I fs -> fs' !! PUBSPEC root = fs !! PUBSPEC root ->
  (forall q, fs' !! q = fs !! q \/ fs' !! q = None) -> I fs'.
Proof.
  intros (Hp & Hi & Hs) Hp' Hq. split; [congruence|]. split.
  - destruct (Hq icon) as [H|H]; [rewrite H; exact Hi | auto].
  - destruct (Hq splash) as [H|H]; [rewrite H; exact Hs | auto].
Qed.

Lemma I_same (fs fs' : filesystem) :
  I fs -> fs' !! PUBSPEC root = fs !! PUBSPEC root ->
  fs' !! icon = fs !! icon -> fs' !! splash = fs !! splash -> I fs'.
Proof. intros (Hp & Hi & Hs) H1 H2 H3. unfold I. rewrite H1, H2, H3. auto. Qed.

(** Removing the tree at a path that is not above the manifest. *)
Lemma rmtree_triple (b : bool) (p : path) :
  starts_with p (PUBSPEC root) = false ->
  triple E I (effect (rmtree b p)) (fun _ => I).
Proof.
  intros Hp. apply triple_effect.
  - intros fs fs' HI H. pose proof (rmtree_shrinks _ _ _ _ H) as Hq.
    apply (I_shrink fs); [exact HI | apply Hq, Hp | intros q; apply Hq].
  - intros fs e HI H. split; [eapply rmtree_raises, H | exact HI].
Qed.

Lemma ask_triple {X : Type} (f : filesystem -> X) :
  triple E I (ask f) (fun _ => I).
Proof. intros w H. exact H. Qed.

Lemma when_triple (b : bool) (m : M unit) :
  triple E I m (fun _ => I) -> triple E I (when b m) (fun _ => I).
Proof. intros Hm. apply triple_when; [intros _; exact Hm | intros _ fs H; exact H]. Qed.

Lemma then_log_triple (m : M unit) (l : level) (msg : string) :
  triple E I m (fun _ => I) -> triple E I (m ;; logging l msg) (fun _ => I).
Proof. intros Hm. eapply triple_bind; [exact Hm|]. intros u. apply triple_logging. Qed.

Lemma exit_triple {X : Type} (l : level) (msg : string) (Q : X -> filesystem -> Prop) :
  triple E I (logging l msg ;; sys_exit 1) Q.
Proof.
  eapply triple_bind; [apply triple_logging|]. intros u.
  apply triple_raise. intros fs H. split; [discriminate | exact H].
Qed.

Lemma clean_previous_app_data_triple :
  triple E I (clean_previous_app_data root) (fun _ => I).
Proof.
  unfold clean_previous_app_data.
  eapply triple_bind; [apply triple_logging|]. intros u0.
  do 3 (eapply triple_bind; [apply ask_triple|]; intros ?;
        eapply triple_bind;
          [apply when_triple, then_log_triple, rmtree_triple;
           unfold PUBSPEC; rewrite starts_with_app; reflexivity|]; intros ?).
  eapply triple_bind; [apply ask_triple|]. intros b.
  apply when_triple, then_log_triple, triple_effect.
  - intros fs fs' HI H. pose proof (unlink_shrinks _ _ _ H) as Hq.
    apply (I_shrink fs); [exact HI | | intros q; apply Hq].
    apply Hq. unfold PUBSPEC. intros Heq. apply app_inv_head in Heq. discriminate.
  - intros fs e HI H. split; [eapply unlink_raises, H | exact HI].
Qed.

Lemma mipmap_child_not_above_manifest (child : path) :
  is_child res_path child = true ->
  Str.contains "mipmap" (name child) = true ->
  starts_with child (PUBSPEC root) = false.
Proof.
  intros Hc Hn. destruct (starts_with child (PUBSPEC root)) eqn:Hs; [exfalso|reflexivity].
  unfold is_child in Hc. apply andb_true_iff in Hc as [Hpre Hlen].
  apply Nat.eqb_eq in Hlen.
  pose proof (starts_with_length _ _ Hs) as Hle.
  unfold PUBSPEC in Hs, Hle. rewrite length_app in Hle. cbn [length] in Hle.
  destruct (decide (length child = length root + 1)%nat) as [Heq|Hne].
  - apply starts_with_same_length in Hs;
      [|rewrite length_app; cbn [length]; exact Heq].
    rewrite Hs, name_snoc in Hn. discriminate Hn.
  - assert (Hroot : starts_with child root = true)
      by (apply (starts_with_short _ _ _ Hs); lia).
    pose proof (starts_with_trans _ _ _ Hpre Hroot) as Hres_root.
    unfold res_path in *. destruct arg as [p|] eqn:Ha;
      cbn [default from_option id] in *.
    + specialize (Hres p eq_refl Hres_root). lia.
    + apply starts_with_length in Hres_root. unfold ANDROID_RES_DEFAULT in Hres_root.
      rewrite length_app in Hres_root. cbn [length] in Hres_root. lia.
Qed.

Lemma ios_folder_triple (x : string) :
  triple E I
    (b <- ask (fun fs => path_exists fs (IOS_ASSETS root ++ [x])) ;;
     when b (effect (rmtree true (IOS_ASSETS root ++ [x]))) ;;
     effect (mkdir (IOS_ASSETS root ++ [x])))
    (fun _ => I).
Proof.
  eapply triple_bind; [apply ask_triple|]. intros b.
  eapply triple_bind.
  { apply when_triple, rmtree_triple. unfold IOS_ASSETS, PUBSPEC.
    rewrite <- app_assoc, starts_with_app. reflexivity. }
  intros u. apply triple_effect.
  - intros fs fs' HI H. apply (I_same fs); [exact HI | | |];
      apply (mkdir_keeps _ _ _ _ H);
      unfold icon, splash, CONFIG_BASE, IOS_ASSETS, PUBSPEC;
      rewrite <- ?app_assoc, starts_with_app; reflexivity.
  - intros fs e HI H. split; [eapply mkdir_raises, H | exact HI].
Qed.

Lemma clean_previous_assets_triple :
  triple E I (clean_previous_assets root res_path flavor) (fun _ => I).
Proof.
  unfold clean_previous_assets.
  eapply triple_bind; [apply triple_logging|]. intros u0.
  eapply triple_bind; [apply ask_triple|]. intros b.
  eapply triple_bind.
  { apply when_triple.
    eapply triple_bind.
    { apply triple_attempt. intros fs e HI H.
      split; [eapply iterdir_raises, H | exact HI]. }
    intros entries.
    eapply triple_conseq with
      (P' := fun fs => I fs /\ forall q, In q entries -> is_child res_path q = true)
      (Q' := fun _ fs => I fs /\ forall q, In q entries -> is_child res_path q = true).
    { intros fs [HI H]. split; [exact HI | eapply iterdir_entries, H]. }
    2: { intros a fs [HI _]. exact HI. }
    intros w [HI Hentries].
    assert (Hloop : triple E I (for_each entries (fun child =>
              d <- ask (fun fs => is_dir fs child) ;;
              when (d && Str.contains "mipmap" (name child))
                   (effect (rmtree true child)))) (fun _ => I)).
    { apply triple_for_each. intros child Hin.
      eapply triple_bind; [apply ask_triple|]. intros d.
      destruct (d && Str.contains "mipmap" (name child)) eqn:Hd.
      - apply rmtree_triple, mipmap_child_not_above_manifest.
        + apply Hentries, Hin.
        + apply andb_true_iff in Hd as [_ Hd]. exact Hd.
      - intros w0 H0. exact H0. }
    specialize (Hloop w HI).
    destruct (for_each entries _ w) as [[a|e] w']; [split|]; auto. }
  intros u1. apply triple_for_each. intros folder [<- | [<- | []]];
    apply ios_folder_triple.
Qed.

Hypothesis Hbad :
  (exists width height,
     fs0 !! icon = Some (File (Image width height))
     /\ (width < 1024 \/ height < 1024 \/ width <> height))
  \/ (exists width height,
        fs0 !! splash = Some (File (Image width height))
        /\ (width < 1242 \/ height < 2436)).

Lemma validate_and_copy_images_triple :
  triple E I (validate_and_copy_images root (CONFIG_BASE root ++ [flavor]))
         (fun _ _ => False).
Proof.
  intros w HI.
  destruct (validate_and_copy_images_exits root (CONFIG_BASE root ++ [flavor]) w)
    as (w' & -> & Hfiles).
  - destruct HI as (_ & Hi & Hs). fold icon splash.
    unfold path_exists, image_meets, ICON_ADAPTIVE, SPLASH_PORTRAIT.
    destruct Hbad as [(width & height & H0 & Hdim) | (width & height & H0 & Hdim)].
    + destruct Hi as [Hi | Hi]; rewrite Hi; [|auto].
      rewrite H0. right. left.
      destruct (Z.ltb_spec width 1024); [reflexivity|].
      destruct (Z.ltb_spec height 1024); [reflexivity|].
      destruct (Z.eqb_spec width height); [lia | reflexivity].
    + destruct Hs as [Hs | Hs]; rewrite Hs; [|auto].
      rewrite H0. right. right. right.
      destruct (Z.ltb_spec width 1242); [reflexivity|].
      destruct (Z.ltb_spec height 2436); [reflexivity | lia].
  - split; [discriminate | rewrite Hfiles; exact HI].
Qed.

Lemma main_triple :
  triple E I (main root g1 g2 flavor arg) (fun _ _ => False).
Proof.
  unfold main.
  eapply triple_bind; [apply ask_triple|]. intros b.
  eapply triple_bind; [apply when_triple, exit_triple|]. intros u0.
  eapply triple_bind.
  { apply triple_attempt. intros fs e HI H.
    split; [eapply json_at_raises, H | exact HI]. }
  intros config.
  eapply triple_conseq with (P' := I) (Q' := fun _ _ => False);
    [intros fs [H _]; exact H | | auto].
  eapply triple_bind; [apply clean_previous_app_data_triple|]. intros u1.
  eapply triple_bind; [apply clean_previous_assets_triple|]. intros u2.
  eapply triple_bind; [apply validate_and_copy_images_triple|]. intros u3.
  apply triple_false.
Qed.

(** C2: when the icon is narrower or shorter than 1024 px or not square,
    or the splash is smaller than 1242 x 2436 px, the run ends with a
    non-zero status and the manifest is what it was before the run: the
    validation comes before the two steps that write the manifest.  (A
    resource root given on the command line is assumed not to lie above
    the project directory; cleaning such a root could remove the project
    itself.) *)
Theorem invalid_images_stop_before_manifest :
  exists status w',
    run root g1 g2 flavor arg fs0 = (status, w')
    /\ status <> 0
    /\ files w' !! PUBSPEC root = fs0 !! PUBSPEC root.
Proof.
  pose proof (main_triple {| files := fs0; log := [] |}) as H.
  unfold run.
  destruct (main root g1 g2 flavor arg {| files := fs0; log := [] |}) as [[a|e] w'].
  - exfalso. apply H. cbn [files]. unfold I. auto.
  - destruct H as [He HI]; [cbn [files]; unfold I; auto|].
    exists (exit_status (@Raise unit e)), w'. split; [reflexivity|].
    split; [|apply HI].
    unfold ends_nonzero in He. destruct e; cbn [exit_status]; try discriminate.
    intros ->. apply He. reflexivity.
Qed.

End ValidationFirst.


Lemma invalid_images_stop_before_manifest_witness :
  exists status w',
    Sample.run_demo None (Sample.project (Image 512 512) (Image 1242 2436))
    = (status, w')
    /\ status <> 0
    /\ files w' !! PUBSPEC Sample.root
       = Sample.project (Image 512 512) (Image 1242 2436) !! PUBSPEC Sample.root.
Proof.
  apply (invalid_images_stop_before_manifest Sample.root Sample.launcher_icons
           Sample.native_splash "demo" None
           (Sample.project (Image 512 512) (Image 1242 2436))).
  - intros p Hp. discriminate Hp.
  - left. exists 512, 512. split; [vm_compute; reflexivity | lia].
Defined.

(* ===================================================================== *)
(** * Properties: validation and staging of the images *)
(* ===================================================================== *)

(** X1: [validate_image_dimensions] never raises and never changes a
    file.  It answers [True] exactly when the path holds an image that
    can be opened and whose size meets the requirement: both sides at
    least the number and equal to each other for a number, width and
    height at least the pair for a pair.  [True] logs nothing; [False]
    logs one record, at the error level. *)
Theorem validate_image_dimensions_answer (p : path) (required : dimensions)
    (label : string) (w : world) :
  exists (b : bool) (msgs : list (level * string)),
    validate_image_dimensions p required label w
    = (Ok b, {| files := files w; log := log w ++ msgs |})
    /\ (b = true <->
        exists width height,
          files w !! p = Some (File (Image width height))
          /\ match required with
             | Side n => n <= width /\ n <= height /\ width = height
             | Size min_width min_height =>
                 min_width <= width /\ min_height <= height
             end)
    /\ (if b then msgs = [] else exists text, msgs = [(ERROR, text)]).
Proof.
  unfold validate_image_dimensions, try_except, image_size, attempt, bind,
    read, logging, ret.
  destruct (files w !! p) as [[[width height|c|d|t|]|]|] eqn:Ep;
    cbn [rbind files log].
  2-7: exists false; eexists; split; [reflexivity|];
       split; [|eexists; reflexivity];
       split; [discriminate | intros (? & ? & [=] & _)].
  destruct required as [n|mw mh].
  - destruct (Z.ltb_spec width n); cbn [orb files log].
    { exists false; eexists; split; [reflexivity|].
      split; [|eexists; reflexivity].
      split; [discriminate | intros (? & ? & [= <- <-] & ?); lia]. }
    destruct (Z.ltb_spec height n); cbn [orb files log].
    { exists false; eexists; split; [reflexivity|].
      split; [|eexists; reflexivity].
      split; [discriminate | intros (? & ? & [= <- <-] & ?); lia]. }
    destruct (Z.eqb_spec width height); cbn [negb files log].
    + exists true, []. rewrite app_nil_r, world_eta. split; [reflexivity|].
      split; [|reflexivity]. split; [|reflexivity].
      intros _. exists width, height. auto.
    + exists false; eexists; split; [reflexivity|].
      split; [|eexists; reflexivity].
      split; [discriminate | intros (? & ? & [= <- <-] & ?); lia].
  - destruct (Z.ltb_spec width mw); cbn [orb files log].
    { exists false; eexists; split; [reflexivity|].
      split; [|eexists; reflexivity].
      split; [discriminate | intros (? & ? & [= <- <-] & ?); lia]. }
    destruct (Z.ltb_spec height mh); cbn [orb files log].
    { exists false; eexists; split; [reflexivity|].
      split; [|eexists; reflexivity].
      split; [discriminate | intros (? & ? & [= <- <-] & ?); lia]. }
    exists true, []. rewrite app_nil_r, world_eta. split; [reflexivity|].
    split; [|reflexivity]. split; [|reflexivity].
    intros _. exists width, height. auto.
Qed.

Lemma image_meets_answer (p : path) (required : dimensions) (label : string)
    (w : world) :
  exists msgs,
    validate_image_dimensions p required label w
    = (Ok (image_meets required (files w) p),
       {| files := files w; log := log w ++ msgs |})
    /\ (if image_meets required (files w) p then msgs = []
        else exists text, msgs = [(ERROR, text)]).
Proof.
  destruct (validate_image_dimensions_answer p required label w)
    as (b & msgs & Hrun & _ & Hlog).
  destruct (validate_image_dimensions_spec p required label w) as [msgs' Hspec].
  rewrite Hspec in Hrun. injection Hrun as Hb Hm.
  apply app_inv_head in Hm. subst msgs' b.
  exists msgs. split; [exact Hspec | exact Hlog].
Qed.

(** X2: when the icon or the splash image of the flavor is missing, or
    does not pass the validation, [validate_and_copy_images] ends the
    process with status 1 ([SystemExit 1]); it has logged an error by
    then and has changed no file: nothing is staged. *)
Theorem validate_and_copy_images_rejects (root flavor_dir : path) (w : world) :
  path_exists (files w) (flavor_dir ++ ["icon.png"]) = false
  \/ image_meets ICON_ADAPTIVE (files w) (flavor_dir ++ ["icon.png"]) = false
  \/ path_exists (files w) (flavor_dir ++ ["splash.png"]) = false
  \/ image_meets SPLASH_PORTRAIT (files w) (flavor_dir ++ ["splash.png"]) = false ->
  exists msgs text,
    validate_and_copy_images root flavor_dir w
    = (Raise (SystemExit 1), {| files := files w; log := log w ++ msgs |})
    /\ In (ERROR, text) msgs.
Proof.
  intros Hbad. unfold validate_and_copy_images.
  unfold bind at 1. cbn [logging].
  unfold bind at 1. cbn [ask files].
  destruct (path_exists (files w) (flavor_dir ++ ["icon.png"])) eqn:Ei;
    cbn [negb when].
  2:{ unfold bind, logging, sys_exit, raise. cbn [files log].
      rewrite <- !app_assoc.
      eexists _, _. split; [reflexivity|].
      rewrite !in_app_iff. right. left. reflexivity. }
  unfold bind at 1. cbn [ret].
  unfold bind at 1.
  destruct (image_meets_answer (flavor_dir ++ ["icon.png"]) ICON_ADAPTIVE "icon.png"
              {| files := files w;
                 log := log w ++ [(INFO, "Validando y copiando imagenes...")] |})
    as (msgs & -> & Hmsgs).
  cbn [files log] in *.
  destruct (image_meets ICON_ADAPTIVE (files w) (flavor_dir ++ ["icon.png"])) eqn:Em;
    cbn [negb when].
  2:{ destruct Hmsgs as [text ->].
      unfold sys_exit, raise. rewrite <- !app_assoc.
      eexists _, text. split; [reflexivity|].
      rewrite !in_app_iff. right. left. reflexivity. }
  unfold bind at 1. cbn [ret].
  unfold bind at 1. cbn [ask files].
  destruct (path_exists (files w) (flavor_dir ++ ["splash.png"])) eqn:Es;
    cbn [negb when].
  2:{ unfold bind, logging, sys_exit, raise. cbn [files log].
      rewrite <- !app_assoc.
      eexists _, _. split; [reflexivity|].
      rewrite !in_app_iff. right. right. left. reflexivity. }
  unfold bind at 1. cbn [ret].
  unfold bind at 1.
  match goal with |- context [validate_image_dimensions ?p ?r ?l ?w0] =>
    destruct (image_meets_answer p r l w0) as (msgs' & -> & Hmsgs') end.
  cbn [files log] in *.
  destruct (image_meets SPLASH_PORTRAIT (files w) (flavor_dir ++ ["splash.png"])) eqn:Ems;
    cbn [negb when].
  2:{ destruct Hmsgs' as [text ->].
      unfold sys_exit, raise. rewrite <- !app_assoc.
      eexists _, text. split; [reflexivity|].
      rewrite !in_app_iff. right. right. left. reflexivity. }
  exfalso. destruct Hbad as [H|[H|[H|H]]]; discriminate H.
Qed.

Lemma validate_and_copy_images_rejects_witness :
  exists msgs text,
    validate_and_copy_images Sample.root Sample.demo_dir
      {| files := Sample.project (Image 512 512) (Image 1242 2436); log := [] |}
    = (Raise (SystemExit 1),
       {| files := Sample.project (Image 512 512) (Image 1242 2436);
          log := [] ++ msgs |})
    /\ In (ERROR, text) msgs.
Proof.
  apply (validate_and_copy_images_rejects Sample.root Sample.demo_dir
           {| files := Sample.project (Image 512 512) (Image 1242 2436); log := [] |}).
  right. left. vm_compute. reflexivity.
Defined.

Lemma image_meets_file (required : dimensions) (fs : filesystem) (p : path) :
  image_meets required fs p = true ->
  exists width height, fs !! p = Some (File (Image width height)).
Proof.
  unfold image_meets. destruct (fs !! p) as [[[width height|c|d|t|]|]|];
    try discriminate. eauto.
Qed.

Lemma copy_file (src dst : path) (c : content) (fs : filesystem) :
  fs !! src = Some (File c) -> is_dir fs dst = false ->
  fs !! parent dst = Some Dir ->
  copy src dst fs = Ok (<[dst := File c]> fs).
Proof.
  unfold copy, read, write. intros -> Hd Hp. rewrite Hd. cbn [rbind].
  unfold is_dir in Hd.
  destruct (fs !! dst) as [[c'|]|]; try discriminate; rewrite Hp; reflexivity.
Qed.

(** X3: when both images of the flavor pass the validation and the
    project root is a directory, [validate_and_copy_images] returns; it
    has copied the two images to [icon.png] and [splash.png] of the
    project root, replacing files that were there, the images of the
    flavor are still in place, and no other path has changed.  (The two
    staged paths are assumed not to be directories.) *)
Theorem validate_and_copy_images_stages (root flavor_dir : path) (w : world)
    (Hicon : image_meets ICON_ADAPTIVE (files w) (flavor_dir ++ ["icon.png"]) = true)
    (Hsplash : image_meets SPLASH_PORTRAIT (files w) (flavor_dir ++ ["splash.png"]) = true)
    (Hne : flavor_dir <> root)
    (Hroot : files w !! root = Some Dir)
    (Hi : is_dir (files w) (root ++ ["icon.png"]) = false)
    (Hs : is_dir (files w) (root ++ ["splash.png"]) = false) :
  exists w',
    validate_and_copy_images root flavor_dir w = (Ok tt, w')
    /\ files w' !! (root ++ ["icon.png"]) = files w !! (flavor_dir ++ ["icon.png"])
    /\ files w' !! (root ++ ["splash.png"]) = files w !! (flavor_dir ++ ["splash.png"])
    /\ (forall q, q <> root ++ ["icon.png"] -> q <> root ++ ["splash.png"] ->
                  files w' !! q = files w !! q).
Proof.
  destruct (image_meets_file _ _ _ Hicon) as (iw & ih & Ei).
  destruct (image_meets_file _ _ _ Hsplash) as (sw & sh & Es).
  assert (Hpi : path_exists (files w) (flavor_dir ++ ["icon.png"]) = true)
    by (unfold path_exists; rewrite Ei; reflexivity).
  assert (Hps : path_exists (files w) (flavor_dir ++ ["splash.png"]) = true)
    by (unfold path_exists; rewrite Es; reflexivity).
  assert (Hd : root ++ ["icon.png"] <> root ++ ["splash.png"]).
  { intros H. apply app_inv_head in H. discriminate. }
  assert (Hsrc : flavor_dir ++ ["splash.png"] <> root ++ ["icon.png"]).
  { intros H. apply app_inj_tail in H as [_ H]. discriminate. }
  unfold validate_and_copy_images.
  unfold bind at 1. cbn [logging].
  unfold bind at 1. cbn [ask files]. rewrite Hpi. cbn [negb when].
  unfold bind at 1. cbn [ret].
  unfold bind at 1.
  match goal with |- context [validate_image_dimensions ?p ?r ?l ?w0] =>
    destruct (image_meets_answer p r l w0) as (msgs & -> & Hm) end.
  cbn [files log] in *. rewrite Hicon in *. subst msgs. cbn [negb when].
  unfold bind at 1. cbn [ret].
  unfold bind at 1. cbn [ask files]. rewrite Hps. cbn [negb when].
  unfold bind at 1. cbn [ret].
  unfold bind at 1.
  match goal with |- context [validate_image_dimensions ?p ?r ?l ?w0] =>
    destruct (image_meets_answer p r l w0) as (msgs & -> & Hm) end.
  cbn [files log] in *. rewrite Hsplash in *. subst msgs. cbn [negb when].
  unfold bind at 1. cbn [ret].
  unfold bind at 1. unfold effect at 1. cbn [files log].
  rewrite (copy_file _ _ _ _ Ei Hi) by (rewrite parent_snoc; exact Hroot).
  unfold bind at 1. unfold effect at 1. cbn [files log].
  rewrite (copy_file _ _ (Image sw sh)).
  2:{ rewrite lookup_insert_ne by congruence. exact Es. }
  2:{ unfold is_dir in *. rewrite lookup_insert_ne by congruence. exact Hs. }
  2:{ rewrite parent_snoc, lookup_insert_ne; [exact Hroot|].
      intros H. apply (snoc_ne_self root "icon.png"). exact H. }
  cbn [logging files log]. eexists. split; [reflexivity|]. cbn [files].
  split; [|split].
  - rewrite lookup_insert_ne by congruence. rewrite lookup_insert_eq. congruence.
  - rewrite lookup_insert_eq. congruence.
  - intros q H1 H2. rewrite !lookup_insert_ne by congruence. reflexivity.
Qed.

Lemma validate_and_copy_images_stages_witness :
  exists w',
    validate_and_copy_images Sample.root Sample.demo_dir
      {| files := Sample.fs0; log := [] |} = (Ok tt, w')
    /\ files w' !! (Sample.root ++ ["icon.png"]) = Some (File (Image 1024 1024))
    /\ files w' !! (Sample.root ++ ["splash.png"]) = Some (File (Image 1242 2436)).
Proof.
  destruct (validate_and_copy_images_stages Sample.root Sample.demo_dir
              {| files := Sample.fs0; log := [] |})
    as (w' & Hrun & Hi & Hs & _).
  - vm_compute. reflexivity.
  - vm_compute. reflexivity.
  - discriminate.
  - vm_compute. reflexivity.
  - vm_compute. reflexivity.
  - vm_compute. reflexivity.
  - exists w'. split; [exact Hrun|]. rewrite Hi, Hs. split; vm_compute; reflexivity.
Defined.

(** X4: a flavor with no [config.json] ends the run at once with status
    1: one error is logged, and no file has been removed, written or
    moved. *)
Theorem missing_config_stops_run (root : path)
    (g1 g2 : path -> filesystem -> bool * filesystem) (flavor : string)
    (arg : option path) (fs : filesystem) :
  fs !! (CONFIG_BASE root ++ [flavor; "config.json"]) = None ->
  run root g1 g2 flavor arg fs
  = (1, {| files := fs; log := [(ERROR, "Config no encontrado")] |}).
Proof.
  intros H. unfold run, main.
  unfold bind at 1. cbn [ask files]. unfold path_exists. rewrite H.
  cbn [negb when]. reflexivity.
Qed.

Lemma missing_config_stops_run_witness :
  Sample.run_demo None ∅
  = (1, {| files := ∅; log := [(ERROR, "Config no encontrado")] |}).
Proof.
  apply (missing_config_stops_run Sample.root Sample.launcher_icons
           Sample.native_splash "demo" None ∅).
  reflexivity.
Defined.

(* ===================================================================== *)
(** * Properties: the removal of build data *)
(* ===================================================================== *)

Lemma guarded_rmtree {A : Type} (p : path) (msg : string) (rest : M A) (w : world) :
  (forall c, files w !! p <> Some (File c)) ->
  (b <- ask (fun fs => path_exists fs p) ;;
   when b (effect (rmtree false p) ;; logging INFO msg) ;; rest) w
  = rest (without_tree p msg w).
Proof.
  intros Hp.
  destruct (files w !! p) as [[c|]|] eqn:E; [exfalso; exact (Hp c eq_refl)| |];
    unfold bind, ask, when, effect, rmtree, path_exists, without_tree, is_dir,
      logging, ret; rewrite !E; cbn [files log]; rewrite ?E; reflexivity.
Qed.

Lemma lookup_without_tree (p : path) (msg : string) (w : world) (q : path) :
  files (without_tree p msg w) !! q
  = if is_dir (files w) p && starts_with p q then None else files w !! q.
Proof.
  unfold without_tree. destruct (is_dir (files w) p); cbn [files andb];
    [apply lookup_remove_tree | reflexivity].
Qed.

Lemma not_file_not_dir (fs : filesystem) (p : path) :
  (forall c, fs !! p <> Some (File c)) -> is_dir fs p = false -> fs !! p = None.
Proof.
  unfold is_dir. destruct (fs !! p) as [[c|]|]; intros H; try discriminate; auto.
  exfalso. exact (H c eq_refl).
Qed.

Lemma without_tree_absent (p : path) (msg : string) (w : world) :
  files w !! p = None -> without_tree p msg w = w.
Proof. unfold without_tree, is_dir. intros ->. reflexivity. Qed.

Section AppData.
Variable root : path.
Variable w : world.

Let android_data : path := root ++ ["android"; "app"; "build"].
Let ios_data : path := root ++ ["ios"; "build"].
Let ios_pods : path := root ++ ["ios"; "Pods"].
Let podfile_lock : path := root ++ ["ios"; "Podfile.lock"].

Hypothesis Handroid : forall c, files w !! android_data <> Some (File c).
Hypothesis Hios : forall c, files w !! ios_data <> Some (File c).
Hypothesis Hpods : forall c, files w !! ios_pods <> Some (File c).
Hypothesis Hlock : is_dir (files w) podfile_lock = false.

Let w1 : world :=
  without_tree android_data "Limpiado build de Android"
    {| files := files w;
       log := log w ++ [(INFO, "Limpiando datos de apps anteriores...")] |}.
Let w2 : world := without_tree ios_data "Limpiado build de iOS" w1.
Let w3 : world := without_tree ios_pods "Limpiado Pods de iOS" w2.

Lemma app_data_lookup (q : path) :
  files w3 !! q
  = if (is_dir (files w) android_data && starts_with android_data q)
       || (is_dir (files w) ios_data && starts_with ios_data q)
       || (is_dir (files w) ios_pods && starts_with ios_pods q)
    then None else files w !! q.
Proof.
  assert (H2 : is_dir (files w1) ios_data = is_dir (files w) ios_data).
  { unfold is_dir, w1. rewrite lookup_without_tree. cbn [files].
    unfold android_data, ios_data. rewrite starts_with_app, andb_false_r.
    reflexivity. }
  assert (H3 : is_dir (files w2) ios_pods = is_dir (files w) ios_pods).
  { unfold is_dir, w2, w1. rewrite !lookup_without_tree. cbn [files].
    unfold android_data, ios_data, ios_pods.
    rewrite !starts_with_app, !andb_false_r. reflexivity. }
  unfold w3. rewrite lookup_without_tree, H3.
  unfold w2. rewrite lookup_without_tree, H2.
  unfold w1. rewrite lookup_without_tree. cbn [files].
  destruct (is_dir (files w) android_data && starts_with android_data q);
    destruct (is_dir (files w) ios_data && starts_with ios_data q);
    destruct (is_dir (files w) ios_pods && starts_with ios_pods q); reflexivity.
Qed.

Lemma clean_previous_app_data_spec :
  exists msgs,
    clean_previous_app_data root w
    = (Ok tt, {| files := delete podfile_lock (files w3); log := log w3 ++ msgs |}).
Proof.
  assert (H2 : forall c, files w1 !! ios_data <> Some (File c)).
  { intros c. unfold w1. rewrite lookup_without_tree. cbn [files].
    unfold android_data, ios_data. rewrite starts_with_app, andb_false_r.
    apply Hios. }
  assert (H3 : forall c, files w2 !! ios_pods <> Some (File c)).
  { intros c. unfold w2, w1. rewrite !lookup_without_tree. cbn [files].
    unfold android_data, ios_data, ios_pods.
    rewrite !starts_with_app, !andb_false_r. apply Hpods. }
  assert (H4 : is_dir (files w3) podfile_lock = false).
  { unfold is_dir. rewrite app_data_lookup.
    unfold android_data, ios_data, ios_pods, podfile_lock.
    rewrite !starts_with_app, !andb_false_r. exact Hlock. }
  unfold clean_previous_app_data.
  unfold bind at 1. cbn [logging].
  rewrite guarded_rmtree by exact Handroid. fold android_data. fold w1.
  rewrite guarded_rmtree by exact H2. fold ios_data. fold w2.
  rewrite guarded_rmtree by exact H3. fold ios_pods. fold w3.
  fold podfile_lock.
  unfold bind, ask, when, effect, unlink, path_exists, logging, ret.
  unfold is_dir in H4.
  destruct (files w3 !! podfile_lock) as [[c|]|] eqn:E; [|discriminate|];
    rewrite ?E; cbn [files log].
  - eexists. reflexivity.
  - exists []. rewrite app_nil_r, (delete_id _ _ E), world_eta. reflexivity.
Qed.

End AppData.

(** X5: when none of the three build directories is a file and
    [Podfile.lock] is not a directory, [clean_previous_app_data]
    returns.  Afterwards none of the four paths exists, everything that
    was below a build directory is gone, every path outside the four is
    as it was, and a second run returns without changing a file. *)
Theorem clean_previous_app_data_clears (root : path) (w : world)
    (Handroid : forall c, files w !! (root ++ ["android"; "app"; "build"]) <> Some (File c))
    (Hios : forall c, files w !! (root ++ ["ios"; "build"]) <> Some (File c))
    (Hpods : forall c, files w !! (root ++ ["ios"; "Pods"]) <> Some (File c))
    (Hlock : is_dir (files w) (root ++ ["ios"; "Podfile.lock"]) = false) :
  exists w',
    clean_previous_app_data root w = (Ok tt, w')
    /\ (forall t, In t [root ++ ["android"; "app"; "build"]; root ++ ["ios"; "build"];
                        root ++ ["ios"; "Pods"]; root ++ ["ios"; "Podfile.lock"]] ->
                  files w' !! t = None)
    /\ (forall t q, In t [root ++ ["android"; "app"; "build"]; root ++ ["ios"; "build"];
                          root ++ ["ios"; "Pods"]] ->
                    files w !! t = Some Dir -> starts_with t q = true ->
                    files w' !! q = None)
    /\ (forall q, (forall t, In t [root ++ ["android"; "app"; "build"];
                                   root ++ ["ios"; "build"]; root ++ ["ios"; "Pods"]] ->
                             starts_with t q = false) ->
                  q <> root ++ ["ios"; "Podfile.lock"] ->
                  files w' !! q = files w !! q)
    /\ (exists w'', clean_previous_app_data root w' = (Ok tt, w'')
                    /\ files w'' = files w').
Proof.
  destruct (clean_previous_app_data_spec root w Handroid Hios Hpods Hlock)
    as [msgs Hrun].
  eexists. split; [exact Hrun|]. cbn [files].
  assert (Hgone : forall t,
            In t [root ++ ["android"; "app"; "build"]; root ++ ["ios"; "build"];
                  root ++ ["ios"; "Pods"]; root ++ ["ios"; "Podfile.lock"]] ->
            delete (root ++ ["ios"; "Podfile.lock"])
              (files (without_tree (root ++ ["ios"; "Pods"]) "Limpiado Pods de iOS"
                 (without_tree (root ++ ["ios"; "build"]) "Limpiado build de iOS"
                    (without_tree (root ++ ["android"; "app"; "build"])
                       "Limpiado build de Android"
                       {| files := files w;
                          log := log w ++ [(INFO, "Limpiando datos de apps anteriores...")] |}))))
            !! t = None).
  { intros t Ht.
    destruct (decide (t = root ++ ["ios"; "Podfile.lock"])) as [->|Hne];
      [apply lookup_delete_eq|].
    rewrite lookup_delete_ne by congruence. rewrite app_data_lookup.
    match goal with |- (if ?cond then _ else _) = _ =>
      destruct cond eqn:C; [reflexivity|] end.
    apply orb_false_iff in C as [C C3]. apply orb_false_iff in C as [C1 C2].
    destruct Ht as [<-|[<-|[<-|[<-|[]]]]]; [| | |congruence];
      apply not_file_not_dir; try assumption.
    + rewrite starts_with_refl, andb_true_r in C1. exact C1.
    + rewrite starts_with_refl, andb_true_r in C2. exact C2.
    + rewrite starts_with_refl, andb_true_r in C3. exact C3. }
  split; [exact Hgone|]. split; [|split].
  - intros t q Ht Hd Hq.
    destruct (decide (q = root ++ ["ios"; "Podfile.lock"])) as [->|Hne];
      [apply lookup_delete_eq|].
    rewrite lookup_delete_ne by congruence. rewrite app_data_lookup.
    unfold is_dir.
    destruct Ht as [<-|[<-|[<-|[]]]]; rewrite Hd, Hq; cbn [andb orb];
      rewrite ?orb_true_r; reflexivity.
  - intros q Hq Hne. rewrite lookup_delete_ne by congruence.
    rewrite app_data_lookup.
    rewrite (Hq (root ++ ["android"; "app"; "build"])) by (cbn; auto).
    rewrite (Hq (root ++ ["ios"; "build"])) by (cbn; auto).
    rewrite (Hq (root ++ ["ios"; "Pods"])) by (cbn; auto).
    rewrite !andb_false_r. reflexivity.
  - match goal with |- context [clean_previous_app_data root ?w0] =>
      destruct (clean_previous_app_data_spec root w0) as [msgs' Hagain] end.
    + intros c. cbn [files]. rewrite Hgone by (cbn; auto). discriminate.
    + intros c. cbn [files]. rewrite Hgone by (cbn; auto). discriminate.
    + intros c. cbn [files]. rewrite Hgone by (cbn; auto). discriminate.
    + unfold is_dir. cbn [files]. rewrite Hgone by (cbn; auto 6). reflexivity.
    + eexists. split; [exact Hagain|]. cbn [files].
      rewrite (without_tree_absent (root ++ ["android"; "app"; "build"]))
        by (cbn [files]; apply Hgone; cbn; auto).
      rewrite (without_tree_absent (root ++ ["ios"; "build"]))
        by (cbn [files]; apply Hgone; cbn; auto).
      rewrite (without_tree_absent (root ++ ["ios"; "Pods"]))
        by (cbn [files]; apply Hgone; cbn; auto).
      cbn [files]. apply delete_id, Hgone. cbn. auto 6.
Qed.

Lemma clean_previous_app_data_clears_witness :
  exists w',
    clean_previous_app_data Sample.root
      {| files := <[Sample.root ++ ["ios"; "build"; "app.o"] := File Binary]>
                    (<[Sample.root ++ ["ios"; "build"] := Dir]> Sample.fs0);
         log := [] |} = (Ok tt, w')
    /\ files w' !! (Sample.root ++ ["ios"; "build"; "app.o"]) = None.
Proof.
  destruct (clean_previous_app_data_clears Sample.root
              {| files := <[Sample.root ++ ["ios"; "build"; "app.o"] := File Binary]>
                            (<[Sample.root ++ ["ios"; "build"] := Dir]> Sample.fs0);
                 log := [] |})
    as (w' & Hrun & _ & Hbelow & _).
  - intros c. vm_compute. discriminate.
  - intros c. vm_compute. discriminate.
  - intros c. vm_compute. discriminate.
  - vm_compute. reflexivity.
  - exists w'. split; [exact Hrun|].
    apply (Hbelow (Sample.root ++ ["ios"; "build"])).
    + right. left. reflexivity.
    + vm_compute. reflexivity.
    + vm_compute. reflexivity.
Defined.

(* ===================================================================== *)
(** * Properties: the reset of the generated assets *)
(* ===================================================================== *)

Lemma in_prefixes (p q : path) : starts_with q p = true -> In q (prefixes p).
Proof.
  revert q. induction p as [|a p IH]; intros [|b q]; cbn [starts_with prefixes];
    try discriminate; auto.
  - intros _. left. reflexivity.
  - intros _. left. reflexivity.
  - intros H. apply andb_true_iff in H as [Hb H]. apply String.eqb_eq in Hb.
    subst b. right. apply list_elem_of_In, list_elem_of_fmap.
    exists q. split; [reflexivity|]. apply list_elem_of_In, IH, H.
Qed.

Lemma mkdir_fold_ok (p : path) (l : list path) (fs : filesystem) :
  (forall q c, In q l -> fs !! q <> Some (File c)) ->
  exists fs',
    fold_left
      (fun acc q =>
         rbind acc (fun fs =>
           match fs !! q with
           | Some Dir => Ok fs
           | Some (File _) =>
               Raise (if decide (q = p) then FileExistsError else NotADirectoryError)
           | None => Ok (<[q := Dir]> fs)
           end)) l (Ok fs) = Ok fs'
    /\ (forall q, In q l -> fs' !! q = Some Dir)
    /\ (forall q, ~ In q l -> fs' !! q = fs !! q).
Proof.
  revert fs. induction l as [|x l IH]; intros fs Hl.
  - exists fs. split; [reflexivity|]. split; [intros q []|reflexivity].
  - cbn [fold_left rbind].
    assert (Hstep : exists fs1,
               match fs !! x with
               | Some Dir => Ok fs
               | Some (File _) =>
                   Raise (if decide (x = p) then FileExistsError else NotADirectoryError)
               | None => Ok (<[x := Dir]> fs)
               end = Ok fs1
               /\ fs1 !! x = Some Dir
               /\ (forall q, q <> x -> fs1 !! q = fs !! q)).
    { destruct (fs !! x) as [[c|]|] eqn:E.
      - exfalso. exact (Hl x c (or_introl eq_refl) E).
      - exists fs. auto.
      - exists (<[x := Dir]> fs). split; [reflexivity|].
        split; [apply lookup_insert_eq|].
        intros q Hq. apply lookup_insert_ne. congruence. }
    destruct Hstep as (fs1 & -> & Hx & Hother).
    destruct (IH fs1) as (fs' & Hrun & Hin & Hout).
    { intros q c Hq. destruct (decide (q = x)) as [->|Hne]; [congruence|].
      rewrite Hother by exact Hne. apply Hl. right. exact Hq. }
    exists fs'. split; [exact Hrun|]. split.
    + intros q [<-|Hq]; [|auto].
      destruct (decide (x ∈ l)) as [Hxl|Hxl].
      * apply Hin, list_elem_of_In, Hxl.
      * rewrite Hout by (intros H; apply Hxl, list_elem_of_In, H). exact Hx.
    + intros q Hq. rewrite Hout by (intros H; apply Hq; right; exact H).
      apply Hother. intros ->. apply Hq. left. reflexivity.
Qed.

(** [mkdir] succeeds when no file is in the way; the ancestors of the
    path and the path are then directories, and nothing else changes. *)
Lemma mkdir_ok (p : path) (fs : filesystem) :
  (forall q c, starts_with q p = true -> fs !! q <> Some (File c)) ->
  exists fs',
    mkdir p fs = Ok fs'
    /\ (forall q, fs' !! q = if starts_with q p then Some Dir else fs !! q).
Proof.
  intros Hp. destruct (mkdir_fold_ok p (prefixes p) fs) as (fs' & Hrun & Hin & Hout).
  { intros q c Hq. apply Hp, prefixes_starts_with, Hq. }
  exists fs'. split; [exact Hrun|]. intros q.
  destruct (starts_with q p) eqn:E.
  - apply Hin, in_prefixes, E.
  - apply Hout. intros H. apply prefixes_starts_with in H. congruence.
Qed.

Lemma in_children (fs : filesystem) (p q : path) :
  is_child p q = true -> fs !! q <> None -> In q (children fs p).
Proof.
  intros Hc Hq. unfold children. destruct (fs !! q) as [x|] eqn:E; [|congruence].
  apply list_elem_of_In, list_elem_of_fmap. exists (q, x). split; [reflexivity|].
  apply elem_of_map_to_list, map_lookup_filter_Some. split; [exact E | exact Hc].
Qed.

(** What the loop over the entries of the resource root leaves: the
    trees of the directories with [mipmap] in their name are gone. *)
Lemma mipmap_loop (l : list path) (w : world) :
  exists fs',
    for_each l (fun child =>
      d <- ask (fun fs => is_dir fs child) ;;
      when (d && Str.contains "mipmap" (name child))
           (effect (rmtree true child))) w
    = (Ok tt, {| files := fs'; log := log w |})
    /\ (forall q,
          fs' !! q
          = if existsb (fun child => is_dir (files w) child
                                     && Str.contains "mipmap" (name child)
                                     && starts_with child q) l
            then None else files w !! q).
Proof.
  revert w. induction l as [|c l IH]; intros w.
  - exists (files w). cbn [for_each ret existsb]. rewrite world_eta. auto.
  - cbn [for_each]. unfold bind at 1. unfold bind at 1. cbn [ask].
    destruct (is_dir (files w) c && Str.contains "mipmap" (name c)) eqn:Ec;
      cbn [when ret existsb].
    + apply andb_true_iff in Ec as [Hd Hm].
      unfold effect, rmtree. unfold is_dir in Hd.
      destruct (files w !! c) as [[x|]|] eqn:E; try discriminate.
      destruct (IH {| files := remove_tree c (files w); log := log w |})
        as (fs' & Hrun & Hlook).
      exists fs'. split; [exact Hrun|]. intros q. rewrite Hlook. cbn [files].
      unfold is_dir at 2. rewrite E, Hm. cbn [andb].
      destruct (starts_with c q) eqn:Ecq; cbn [orb].
      * rewrite lookup_remove_tree, Ecq. destruct (existsb _ l); reflexivity.
      * rewrite lookup_remove_tree, Ecq.
        match goal with |- (if ?a then _ else _) = (if ?b then _ else _) =>
          assert (Hab : a = b); [|rewrite Hab; reflexivity] end.
        apply eq_true_iff_eq. rewrite !existsb_exists.
        split; intros (y & Hy & Hcond); exists y; (split; [exact Hy|]);
          apply andb_true_iff in Hcond as [Hcond Hyq];
          apply andb_true_iff in Hcond as [Hdy Hmy];
          rewrite Hmy, Hyq, !andb_true_r.
        -- unfold is_dir in *. rewrite lookup_remove_tree in Hdy.
           destruct (starts_with c y); [discriminate | exact Hdy].
        -- unfold is_dir in *. rewrite lookup_remove_tree.
           destruct (starts_with c y) eqn:Ecy; [|exact Hdy].
           rewrite (starts_with_trans _ _ _ Ecy Hyq) in Ecq. discriminate.
    + destruct (IH w) as (fs' & Hrun & Hlook).
      exists fs'. split; [exact Hrun|]. intros q. rewrite Hlook.
      rewrite Ec. reflexivity.
Qed.

(** One round of the loop over the two asset catalogs. *)
Lemma catalog_reset (folder : path) (w : world) :
  (forall q c, starts_with q folder = true -> files w !! q <> Some (File c)) ->
  exists fs',
    (b <- ask (fun fs => path_exists fs folder) ;;
     when b (effect (rmtree true folder)) ;;
     effect (mkdir folder)) w
    = (Ok tt, {| files := fs'; log := log w |})
    /\ (forall q,
          fs' !! q
          = if starts_with q folder then Some Dir
            else if is_dir (files w) folder && starts_with folder q then None
            else files w !! q).
Proof.
  intros Hfree.
  assert (Hself : forall c, files w !! folder <> Some (File c)).
  { intros c. apply Hfree, starts_with_refl. }
  unfold bind at 1. cbn [ask]. unfold path_exists, is_dir.
  destruct (files w !! folder) as [[c|]|] eqn:E.
  - exfalso. exact (Hself c eq_refl).
  - cbn [when]. unfold bind at 1. unfold effect at 1. unfold rmtree. rewrite E.
    destruct (mkdir_ok folder (remove_tree folder (files w))) as (fs' & Hrun & Hlook).
    { intros q c Hq. rewrite lookup_remove_tree.
      destruct (starts_with folder q); [discriminate | apply Hfree, Hq]. }
    exists fs'. unfold effect. cbn [files log]. rewrite Hrun.
    split; [reflexivity|]. intros q. rewrite Hlook, lookup_remove_tree.
    reflexivity.
  - cbn [when]. unfold bind at 1. cbn [ret].
    destruct (mkdir_ok folder (files w)) as (fs' & Hrun & Hlook).
    { intros q c Hq. apply Hfree, Hq. }
    exists fs'. unfold effect. rewrite Hrun.
    split; [reflexivity|]. intros q. rewrite Hlook. reflexivity.
Qed.

Lemma starts_with_take (p q : path) :
  starts_with p q = true -> p = take (length p) q.
Proof.
  revert q. induction p as [|a p IH]; intros [|b q]; cbn; try discriminate; auto.
  intros H. apply andb_true_iff in H as [Ha H]. apply String.eqb_eq in Ha.
  subst b. f_equal. apply IH, H.
Qed.

(** A directory of the resource root with [mipmap] in its name is not
    above an asset catalog, unless the resource root is a proper ancestor
    of the project root. *)
Lemma mipmap_child_not_above_catalog (root arp child : path) (x : string) :
  (starts_with arp root = true -> (length root <= length arp)%nat) ->
  Str.contains "mipmap" x = false ->
  is_child arp child = true ->
  Str.contains "mipmap" (name child) = true ->
  starts_with child (IOS_ASSETS root ++ [x]) = false.
Proof.
  intros Harp Hx Hc Hn.
  destruct (starts_with child (IOS_ASSETS root ++ [x])) eqn:Hs; [exfalso|reflexivity].
  unfold is_child in Hc. apply andb_true_iff in Hc as [Hpre Hlen].
  apply Nat.eqb_eq in Hlen.
  unfold IOS_ASSETS in Hs. rewrite <- app_assoc in Hs. cbn [app] in Hs.
  pose proof (starts_with_length _ _ Hs) as Hle.
  rewrite length_app in Hle. cbn [length] in Hle.
  destruct (le_lt_dec (length child) (length root)) as [Hshort|Hlong].
  - pose proof (starts_with_short _ _ _ Hs Hshort) as Hroot.
    pose proof (starts_with_trans _ _ _ Hpre Hroot) as Habove.
    specialize (Harp Habove). lia.
  - apply starts_with_take in Hs.
    assert (Hk : exists k, length child = (length root + S k)%nat /\ (k < 4)%nat).
    { exists (length child - length root - 1)%nat. lia. }
    destruct Hk as (k & Hk & Hk4). rewrite Hk, firstn_app_2 in Hs.
    rewrite Hs in Hn.
    destruct k as [|[|[|[|k]]]]; try lia; cbn [take firstn] in Hn.
    + change (root ++ ["ios"]) with (root ++ ["ios"]) in Hn.
      rewrite name_snoc in Hn. discriminate Hn.
    + change (root ++ ["ios"; "Runner"]) with (root ++ ["ios"] ++ ["Runner"]) in Hn.
      rewrite app_assoc, name_snoc in Hn. discriminate Hn.
    + change (root ++ ["ios"; "Runner"; "Assets.xcassets"])
        with (root ++ ["ios"; "Runner"] ++ ["Assets.xcassets"]) in Hn.
      rewrite app_assoc, name_snoc in Hn. discriminate Hn.
    + change (root ++ ["ios"; "Runner"; "Assets.xcassets"; x])
        with (root ++ ["ios"; "Runner"; "Assets.xcassets"] ++ [x]) in Hn.
      rewrite app_assoc, name_snoc in Hn. congruence.
Qed.

Section CleanAssets.
Variable root arp : path.
Variable flavor : string.
Variable w : world.

Let f1 : path := IOS_ASSETS root ++ ["AppIcon.appiconset"].
Let f2 : path := IOS_ASSETS root ++ ["LaunchImage.imageset"].

Hypothesis Harp : forall c, files w !! arp <> Some (File c).
Hypothesis Hway1 : forall q c, starts_with q f1 = true -> files w !! q <> Some (File c).
Hypothesis Hway2 : forall q c, starts_with q f2 = true -> files w !! q <> Some (File c).

(** The entries the first loop visits, and whether it removes a tree
    that holds [q]. *)
Let entries : list path :=
  match files w !! arp with Some Dir => children (files w) arp | _ => [] end.

Let removed (q : path) : bool :=
  existsb (fun child => is_dir (files w) child
                        && Str.contains "mipmap" (name child)
                        && starts_with child q) entries.

Let look1 (q : path) : option node := if removed q then None else files w !! q.
Let d1 : bool := match look1 f1 with Some Dir => true | _ => false end.
Let look2 (q : path) : option node :=
  if starts_with q f1 then Some Dir
  else if d1 && starts_with f1 q then None else look1 q.
Let d2 : bool := match look2 f2 with Some Dir => true | _ => false end.
Let look3 (q : path) : option node :=
  if starts_with q f2 then Some Dir
  else if d2 && starts_with f2 q then None else look2 q.

Lemma clean_previous_assets_spec :
  exists fs3,
    clean_previous_assets root arp flavor w
    = (Ok tt, {| files := fs3;
                 log := log w ++ [(INFO, "Limpiando assets anteriores...")] |})
    /\ (forall q, fs3 !! q = look3 q).
Proof.
  unfold clean_previous_assets.
  unfold bind at 1. cbn [logging].
  unfold bind at 1. cbn [ask files].
  set (w0 := {| files := files w;
                log := log w ++ [(INFO, "Limpiando assets anteriores...")] |}).
  assert (Hloop : exists fs1,
            (when (path_exists (files w) arp)
               (entries <- attempt (fun fs => iterdir fs arp) ;;
                for_each entries (fun child =>
                  d <- ask (fun fs => is_dir fs child) ;;
                  when (d && Str.contains "mipmap" (name child))
                       (effect (rmtree true child))))) w0
            = (Ok tt, {| files := fs1; log := log w0 |})
            /\ (forall q, fs1 !! q = look1 q)).
  { unfold path_exists, look1, removed, entries.
    destruct (files w !! arp) as [[c|]|] eqn:E.
    - exfalso. exact (Harp c eq_refl).
    - cbn [when]. unfold bind at 1. unfold attempt, iterdir. cbn [files w0].
      rewrite E. apply (mipmap_loop (children (files w) arp) w0).
    - cbn [when ret existsb]. exists (files w). split; [reflexivity|]. reflexivity. }
  destruct Hloop as (fs1 & Hloop & H1).
  unfold bind at 1. rewrite Hloop.
  cbn [for_each]. fold f1. fold f2.
  unfold bind at 1.
  destruct (catalog_reset f1 {| files := fs1; log := log w0 |}) as (fs2 & Hr2 & H2).
  { intros q c Hq. cbn [files]. rewrite H1. unfold look1.
    destruct (removed q); [discriminate | apply Hway1, Hq]. }
  rewrite Hr2. cbn [files log] in *.
  assert (H2' : forall q, fs2 !! q = look2 q).
  { intros q. rewrite H2. unfold look2, d1, is_dir. rewrite !H1. reflexivity. }
  unfold bind at 1.
  destruct (catalog_reset f2 {| files := fs2; log := log w0 |}) as (fs3 & Hr3 & H3).
  { intros q c Hq. cbn [files]. rewrite H2'. unfold look2, look1.
    destruct (starts_with q f1); [discriminate|].
    destruct (d1 && starts_with f1 q); [discriminate|].
    destruct (removed q); [discriminate | apply Hway2, Hq]. }
  rewrite Hr3. cbn [files log ret] in *.
  exists fs3. split; [reflexivity|].
  intros q. rewrite H3. unfold look3, d2, is_dir. rewrite !H2'. reflexivity.
Qed.

Lemma catalogs_apart : starts_with f1 f2 = false /\ starts_with f2 f1 = false.
Proof. unfold f1, f2. rewrite !starts_with_app. split; reflexivity. Qed.

Lemma removed_spec (q : path) :
  removed q = true ->
  exists child,
    is_child arp child = true /\ is_dir (files w) child = true
    /\ Str.contains "mipmap" (name child) = true /\ starts_with child q = true.
Proof.
  unfold removed. intros H. apply existsb_exists in H as (child & Hin & H).
  apply andb_true_iff in H as [H Hq]. apply andb_true_iff in H as [Hd Hm].
  exists child. repeat split; try assumption.
  unfold entries in Hin. destruct (files w !! arp) as [[c|]|]; try contradiction.
  eapply children_is_child, Hin.
Qed.

Lemma removed_below (p q : path) :
  removed p = true -> starts_with p q = true -> removed q = true.
Proof.
  unfold removed. intros H Hpq. apply existsb_exists in H as (child & Hin & H).
  apply existsb_exists. exists child. split; [exact Hin|].
  apply andb_true_iff in H as [H Hp]. rewrite H.
  apply (starts_with_trans _ _ _ Hp Hpq).
Qed.

(** A catalog that was a directory is removed by the first loop or is
    seen as a directory by the second. *)
Lemma seen_or_removed (folder : path) :
  is_dir (files w) folder = true ->
  match look1 folder with Some Dir => true | _ => false end = false ->
  removed folder = true.
Proof.
  unfold look1, is_dir. destruct (removed folder); [reflexivity|].
  destruct (files w !! folder) as [[c|]|]; discriminate.
Qed.

Lemma strictly_below (p q : path) :
  starts_with p q = true -> q <> p -> starts_with q p = false.
Proof.
  intros Hpq Hne. destruct (starts_with q p) eqn:E; [|reflexivity].
  exfalso. apply Hne. apply starts_with_same_length; [exact E|].
  apply starts_with_length in Hpq, E. lia.
Qed.

Lemma same_length_prefixes (a b q : path) :
  starts_with a q = true -> starts_with b q = true -> length a = length b -> a = b.
Proof.
  intros Ha Hb Hl. apply starts_with_take in Ha, Hb. rewrite Ha, Hb, Hl. reflexivity.
Qed.

Lemma not_below_both (q : path) :
  starts_with f1 q = true -> starts_with f2 q = true -> False.
Proof.
  intros H1 H2. assert (E : f1 = f2).
  { apply (same_length_prefixes _ _ q H1 H2). unfold f1, f2.
    rewrite !length_app. reflexivity. }
  unfold f1, f2 in E. apply app_inv_head in E. discriminate E.
Qed.

(** X6: when the resource root is not a file and no file stands where
    the two asset catalogs or their ancestors go, [clean_previous_assets]
    returns.  Afterwards both catalogs and their ancestors are
    directories; a catalog that was a directory is empty; every directory
    of the resource root with [mipmap] in its name is gone with all it
    held (the resource root not being a proper ancestor of the project
    root); and every path outside those trees, other than the ancestors
    of the catalogs, is as it was. *)
Theorem clean_previous_assets_resets :
  exists w',
    clean_previous_assets root arp flavor w = (Ok tt, w')
    /\ (forall q, starts_with q f1 = true \/ starts_with q f2 = true ->
                  files w' !! q = Some Dir)
    /\ (forall folder q, folder = f1 \/ folder = f2 ->
                         is_dir (files w) folder = true ->
                         starts_with folder q = true -> q <> folder ->
                         files w' !! q = None)
    /\ (files w !! arp = Some Dir ->
        (starts_with arp root = true -> (length root <= length arp)%nat) ->
        forall child q,
          is_child arp child = true -> is_dir (files w) child = true ->
          Str.contains "mipmap" (name child) = true ->
          starts_with child q = true ->
          files w' !! q = None)
    /\ (forall q,
          (forall child, is_child arp child = true ->
                         Str.contains "mipmap" (name child) = true ->
                         starts_with child q = false) ->
          starts_with f1 q = false -> starts_with f2 q = false ->
          starts_with q (IOS_ASSETS root) = false ->
          files w' !! q = files w !! q).
Proof.
  destruct clean_previous_assets_spec as (fs3 & Hrun & Hlook).
  destruct catalogs_apart as [H12 H21].
  eexists. split; [exact Hrun|]. cbn [files]. split; [|split; [|split]].
  - intros q Hq. rewrite Hlook. unfold look3.
    destruct (starts_with q f2) eqn:E2; [reflexivity|].
    destruct Hq as [E1|E]; [|discriminate].
    destruct (starts_with f2 q) eqn:E2'.
    { rewrite (starts_with_trans _ _ _ E2' E1) in H21. discriminate. }
    rewrite andb_false_r. unfold look2. rewrite E1. reflexivity.
  - intros folder q Hf Hd Hq Hne. rewrite Hlook. unfold look3, look2.
    destruct Hf as [-> | ->].
    + destruct (starts_with q f2) eqn:E2.
      { rewrite (starts_with_trans _ _ _ Hq E2) in H12. discriminate. }
      destruct (starts_with f2 q) eqn:E2'; [destruct (not_below_both q Hq E2')|].
      rewrite andb_false_r, (strictly_below _ _ Hq Hne), Hq, andb_true_r.
      destruct d1 eqn:Ed1; [reflexivity|].
      unfold look1. rewrite (removed_below f1 q); [reflexivity| |exact Hq].
      apply seen_or_removed; [exact Hd | exact Ed1].
    + rewrite (strictly_below _ _ Hq Hne), Hq, andb_true_r.
      destruct d2 eqn:Ed2; [reflexivity|].
      destruct (starts_with q f1) eqn:E1.
      { rewrite (starts_with_trans _ _ _ Hq E1) in H21. discriminate. }
      destruct (starts_with f1 q) eqn:E1'; [destruct (not_below_both q E1' Hq)|].
      rewrite andb_false_r.
      unfold look1. rewrite (removed_below f2 q); [reflexivity| |exact Hq].
      apply seen_or_removed; [exact Hd|].
      unfold d2, look2 in Ed2. rewrite H21, H12, andb_false_r in Ed2. exact Ed2.
  - intros Hdir Habove child q Hc Hd Hm Hq.
    assert (Hrem : removed q = true).
    { unfold removed, entries. rewrite Hdir. apply existsb_exists.
      exists child. split.
      - apply in_children; [exact Hc|]. unfold is_dir in Hd.
        destruct (files w !! child); [discriminate | discriminate Hd].
      - rewrite Hd, Hm, Hq. reflexivity. }
    assert (Hn1 : starts_with q f1 = false).
    { destruct (starts_with q f1) eqn:E; [|reflexivity].
      pose proof (starts_with_trans _ _ _ Hq E) as Hcf.
      unfold f1 in Hcf.
      rewrite (mipmap_child_not_above_catalog root arp child "AppIcon.appiconset"
                 Habove eq_refl Hc Hm) in Hcf. discriminate. }
    assert (Hn2 : starts_with q f2 = false).
    { destruct (starts_with q f2) eqn:E; [|reflexivity].
      pose proof (starts_with_trans _ _ _ Hq E) as Hcf.
      unfold f2 in Hcf.
      rewrite (mipmap_child_not_above_catalog root arp child "LaunchImage.imageset"
                 Habove eq_refl Hc Hm) in Hcf. discriminate. }
    rewrite Hlook. unfold look3, look2, look1. rewrite Hn1, Hn2, Hrem.
    destruct (d2 && starts_with f2 q); [reflexivity|].
    destruct (d1 && starts_with f1 q); reflexivity.
  - intros q Hchild H1 H2 Hq.
    assert (Hpre : forall x, starts_with q (IOS_ASSETS root ++ [x]) = true ->
                             q = IOS_ASSETS root ++ [x]).
    { intros x Hx. apply starts_with_same_length; [exact Hx|].
      pose proof (starts_with_length _ _ Hx) as Hle.
      rewrite length_app in Hle |- *. cbn [length] in Hle |- *.
      destruct (le_lt_dec (length q) (length (IOS_ASSETS root))) as [Hs|Hs]; [|lia].
      rewrite (starts_with_short _ _ _ Hx Hs) in Hq. discriminate. }
    assert (Hn1 : starts_with q f1 = false).
    { destruct (starts_with q f1) eqn:E; [|reflexivity].
      apply Hpre in E. rewrite E in H1. fold f1 in H1.
      rewrite starts_with_refl in H1. discriminate. }
    assert (Hn2 : starts_with q f2 = false).
    { destruct (starts_with q f2) eqn:E; [|reflexivity].
      apply Hpre in E. rewrite E in H2. fold f2 in H2.
      rewrite starts_with_refl in H2. discriminate. }
    rewrite Hlook. unfold look3, look2, look1.
    rewrite Hn1, Hn2, H1, H2, !andb_false_r.
    destruct (removed q) eqn:Er; [|reflexivity].
    apply removed_spec in Er as (child & Hc & _ & Hm & Hcq).
    rewrite (Hchild child Hc Hm) in Hcq. discriminate.
Qed.

End CleanAssets.

Lemma clean_previous_assets_resets_witness :
  exists w',
    clean_previous_assets Sample.root Sample.demo_res "demo"
      {| files := <[Sample.demo_res ++ ["mipmap-hdpi"; "ic_launcher.png"] := File Binary]>
                    (<[Sample.demo_res ++ ["mipmap-hdpi"] := Dir]>
                       (<[Sample.demo_res := Dir]> Sample.fs0));
         log := [] |} = (Ok tt, w')
    /\ files w' !! (IOS_ASSETS Sample.root ++ ["AppIcon.appiconset"]) = Some Dir
    /\ files w' !! (Sample.demo_res ++ ["mipmap-hdpi"; "ic_launcher.png"]) = None.
Proof.
  destruct (clean_previous_assets_resets Sample.root Sample.demo_res "demo"
              {| files := <[Sample.demo_res ++ ["mipmap-hdpi"; "ic_launcher.png"] := File Binary]>
                            (<[Sample.demo_res ++ ["mipmap-hdpi"] := Dir]>
                               (<[Sample.demo_res := Dir]> Sample.fs0));
                 log := [] |})
    as (w' & Hrun & Hdirs & _ & Hmipmap & _).
  - intros c. vm_compute. discriminate.
  - intros q c Hq.
    apply in_prefixes, list_elem_of_In in Hq. vm_compute in Hq.
    repeat (apply elem_of_cons in Hq as [-> | Hq]; [vm_compute; discriminate|]).
    apply elem_of_nil in Hq. contradiction.
  - intros q c Hq.
    apply in_prefixes, list_elem_of_In in Hq. vm_compute in Hq.
    repeat (apply elem_of_cons in Hq as [-> | Hq]; [vm_compute; discriminate|]).
    apply elem_of_nil in Hq. contradiction.
  - exists w'. split; [exact Hrun|]. split.
    + apply Hdirs. left. apply starts_with_refl.
    + apply (Hmipmap eq_refl) with (child := Sample.demo_res ++ ["mipmap-hdpi"]).
      * intros _. vm_compute. lia.
      * vm_compute. reflexivity.
      * vm_compute. reflexivity.
      * vm_compute. reflexivity.
      * vm_compute. reflexivity.
Defined.

(* ===================================================================== *)
(** * Properties: the move of the generated resources *)
(* ===================================================================== *)

Lemma starts_with_prefix (p r : path) : starts_with p (p ++ r) = true.
Proof.
  induction p as [|a p IH]; [reflexivity|].
  cbn [app starts_with]. rewrite String.eqb_refl. exact IH.
Qed.

Lemma starts_with_drop (p q : path) :
  starts_with p q = true -> q = p ++ drop (length p) q.
Proof.
  revert q. induction p as [|a p IH]; intros [|b q]; cbn; try discriminate; auto.
  intros H. apply andb_true_iff in H as [Ha H]. apply String.eqb_eq in Ha.
  subst b. f_equal. apply IH, H.
Qed.

Lemma child_eq (p q : path) : is_child p q = true -> q = p ++ [name q].
Proof.
  unfold is_child. intros H. apply andb_true_iff in H as [Hs Hl].
  apply Nat.eqb_eq in Hl. pose proof (starts_with_drop _ _ Hs) as Hq.
  destruct (drop (length p) q) as [|x [|y r]] eqn:E.
  - rewrite Hq, length_app in Hl. cbn in Hl. lia.
  - rewrite Hq at 2. rewrite name_snoc. exact Hq.
  - rewrite Hq, length_app in Hl. cbn in Hl. lia.
Qed.

(** Two prefixes of one path are comparable. *)
Lemma prefixes_comparable (a b q : path) :
  starts_with a q = true -> starts_with b q = true ->
  starts_with a b = true \/ starts_with b a = true.
Proof.
  revert b q. induction a as [|x a IH]; intros [|y b] [|z q]; cbn; auto;
    try discriminate.
  intros Ha Hb. apply andb_true_iff in Ha as [Hx Ha].
  apply andb_true_iff in Hb as [Hy Hb].
  apply String.eqb_eq in Hx, Hy. subst.
  rewrite !String.eqb_refl. cbn [andb]. eauto.
Qed.

(** Paths below two trees of which neither holds the other are not
    below each other. *)
Lemma apart_below (a b x y : path) :
  starts_with a b = false -> starts_with b a = false ->
  starts_with (a ++ x) (b ++ y) = false.
Proof.
  intros Hab Hba. destruct (starts_with (a ++ x) (b ++ y)) eqn:E; [|reflexivity].
  pose proof (starts_with_trans _ _ _ (starts_with_prefix a x) E) as Ha.
  destruct (prefixes_comparable _ _ _ Ha (starts_with_prefix b y)); congruence.
Qed.

Lemma siblings_apart (p : path) (x y : string) (r s : path) :
  x <> y -> starts_with (p ++ x :: r) (p ++ y :: s) = false.
Proof.
  intros Hne. rewrite starts_with_app. cbn [starts_with].
  destruct (String.eqb_spec x y); [congruence | reflexivity].
Qed.

Lemma mkdir_noop (p : path) (fs : filesystem) :
  (forall q, starts_with q p = true -> fs !! q = Some Dir) -> mkdir p fs = Ok fs.
Proof.
  intros Hp. destruct (mkdir_ok p fs) as (fs' & Hrun & Hlook).
  { intros q c Hq. rewrite (Hp q Hq). discriminate. }
  rewrite Hrun. f_equal. apply map_eq. intros q. rewrite Hlook.
  destruct (starts_with q p) eqn:E; [symmetry; apply Hp, E | reflexivity].
Qed.

(** Where the entries of a renamed tree are found. *)
Lemma lookup_rename_tree (src dst q : path) (fs : filesystem) :
  rename_tree src dst fs !! q
  = match (if starts_with dst q
           then fs !! (src ++ drop (length dst) q) else None) with
    | Some x => Some x
    | None => if starts_with src q then None else fs !! q
    end.
Proof.
  unfold rename_tree. rewrite lookup_union, lookup_remove_tree.
  set (l := (λ kv : path * node, (dst ++ drop (length src) kv.1, kv.2)) <$>
              map_to_list (filter (λ kv : path * node, starts_with src kv.1 = true) fs)).
  assert (Hin : forall k v, (k, v) ∈ l <->
            exists rest, k = dst ++ rest /\ fs !! (src ++ rest) = Some v).
  { intros k v. unfold l. rewrite list_elem_of_fmap. split.
    - intros ([k0 v0] & [= -> ->] & H0).
      apply elem_of_map_to_list, map_lookup_filter_Some in H0 as [H0 Hs].
      cbn in Hs. exists (drop (length src) k0). split; [reflexivity|].
      cbn. rewrite <- (starts_with_drop _ _ Hs). exact H0.
    - intros (rest & -> & H0). exists (src ++ rest, v). split.
      + cbn. rewrite drop_app_length. reflexivity.
      + apply elem_of_map_to_list, map_lookup_filter_Some.
        split; [exact H0 | apply starts_with_prefix]. }
  assert (Hl : (list_to_map l : filesystem) !! q
               = if starts_with dst q then fs !! (src ++ drop (length dst) q)
                 else None).
  { destruct ((list_to_map l : filesystem) !! q) as [v|] eqn:E.
    - apply elem_of_list_to_map_2, Hin in E as (rest & -> & E).
      rewrite starts_with_prefix, drop_app_length. symmetry. exact E.
    - apply not_elem_of_list_to_map_2 in E.
      destruct (starts_with dst q) eqn:Es; [|reflexivity].
      destruct (fs !! (src ++ drop (length dst) q)) as [v|] eqn:Ev; [|reflexivity].
      exfalso. apply E. apply list_elem_of_fmap. exists (q, v).
      split; [reflexivity|]. apply Hin. exists (drop (length dst) q).
      split; [apply starts_with_drop, Es | exact Ev]. }
  rewrite Hl.
  destruct (if starts_with dst q then fs !! (src ++ drop (length dst) q) else None)
    as [v|]; destruct (if starts_with src q then None else fs !! q); reflexivity.
Qed.

(** [shutil.move] of a directory to a free place whose parent exists. *)
Lemma move_dir_ok (src dst : path) (fs : filesystem) :
  fs !! src = Some Dir -> fs !! dst = None -> starts_with src dst = false ->
  (forall q, starts_with q (parent dst) = true -> fs !! q = Some Dir) ->
  move src dst fs = Ok (rename_tree src dst fs).
Proof.
  intros Hsrc Hdst Hapart Hparent. unfold move, is_dir, path_exists.
  rewrite Hdst, Hsrc. cbn [andb]. rewrite Hapart, Hdst.
  rewrite (mkdir_noop _ _ Hparent). reflexivity.
Qed.

(** [shutil.move] of a file to a path that is not a directory, in a
    directory that exists. *)
Lemma move_file_ok (src dst : path) (c : content) (fs : filesystem) :
  fs !! src = Some (File c) -> is_dir fs dst = false ->
  fs !! parent dst = Some Dir ->
  move src dst fs = Ok (<[dst := File c]> (delete src fs)).
Proof.
  intros Hsrc Hdst Hparent. unfold move. rewrite Hdst. cbn [andb].
  rewrite Hsrc. unfold write, is_dir in *.
  assert (Hne : parent dst <> src) by congruence.
  rewrite (lookup_delete_ne fs src (parent dst)) by congruence. rewrite Hparent.
  destruct (decide (dst = src)) as [->|Hd].
  - rewrite lookup_delete_eq. reflexivity.
  - rewrite lookup_delete_ne by congruence.
    destruct (fs !! dst) as [[c'|]|]; try discriminate; reflexivity.
Qed.

(** The loop over the density directories when source and destination
    root are the same: the first directory is removed as a stale
    destination, and the move of it raises. *)
Lemma same_root_loop (root : path) (l : list path) (w : world) :
  (forall d, In d l -> is_child (ANDROID_RES_DEFAULT root) d = true) ->
  (exists d, In d l /\ is_dir (files w) d = true) ->
  exists d,
    In d l /\ is_dir (files w) d = true
    /\ for_each l (fun mipmap_dir =>
         d <- ask (fun fs => is_dir fs mipmap_dir && path_exists fs mipmap_dir) ;;
         when d (let dest_dir := ANDROID_RES_DEFAULT root ++ [name mipmap_dir] in
                 b <- ask (fun fs => path_exists fs dest_dir) ;;
                 when b (effect (rmtree false dest_dir)) ;;
                 effect (move mipmap_dir dest_dir) ;;
                 logging INFO "Movido directorio mipmap")) w
       = (Raise FileNotFoundError,
          {| files := remove_tree d (files w); log := log w |}).
Proof.
  induction l as [|e l IH]; intros Hl (d & Hd & Hdir); [destruct Hd|].
  destruct (is_dir (files w) e) eqn:Ee.
  - exists e. split; [left; reflexivity|]. split; [exact Ee|].
    cbn [for_each]. unfold bind at 1. unfold bind at 1. cbn [ask].
    assert (He : files w !! e = Some Dir).
    { unfold is_dir in Ee. destruct (files w !! e) as [[c|]|]; try discriminate.
      reflexivity. }
    rewrite Ee. unfold path_exists at 1. rewrite He. cbn [andb when].
    rewrite <- (child_eq _ _ (Hl e (or_introl eq_refl))).
    destruct (rmtree_then_move_same (files w) e He) as (Hrm & _ & Hmv).
    unfold bind, ask, when, effect, path_exists. rewrite He, Hrm. cbn [files log].
    rewrite Hmv. reflexivity.
  - destruct IH as (d' & Hd' & Hdir' & Hrun).
    { intros x Hx. apply Hl. right. exact Hx. }
    { exists d. split; [|exact Hdir]. destruct Hd as [<-|Hd]; [congruence | exact Hd]. }
    exists d'. split; [right; exact Hd'|]. split; [exact Hdir'|].
    cbn [for_each]. unfold bind at 1. unfold bind at 1. cbn [ask].
    rewrite Ee. cbn [andb when ret]. exact Hrun.
Qed.

(** X7: with the default resource root as the flavor root, which is
    what [main] passes when [--android-res-path] is not given,
    [move_assets_to_flavor] cannot move a density directory: as soon as
    the main resource directory holds a directory named [mipmap-...], the
    step removes one such directory with all it holds and then raises
    [FileNotFoundError].  (The main resource directory and its ancestors
    are assumed to exist.) *)
Theorem same_root_move_fails (root : path) (flavor : string) (w : world)
    (Hdirs : forall q, starts_with q (ANDROID_RES_DEFAULT root) = true ->
                       files w !! q = Some Dir)
    (Hgen : exists d, is_child (ANDROID_RES_DEFAULT root) d = true
                      /\ Str.prefix "mipmap-" (name d) = true
                      /\ is_dir (files w) d = true) :
  exists d w',
    move_assets_to_flavor root flavor (ANDROID_RES_DEFAULT root) w
    = (Raise FileNotFoundError, w')
    /\ is_child (ANDROID_RES_DEFAULT root) d = true
    /\ Str.prefix "mipmap-" (name d) = true
    /\ is_dir (files w) d = true
    /\ files w' = remove_tree d (files w).
Proof.
  destruct Hgen as (d & Hc & Hp & Hd).
  set (w0 := {| files := files w; log := log w ++ [(INFO, "Moviendo assets...")] |}).
  set (l := glob (files w) (ANDROID_RES_DEFAULT root) (Prefixed "mipmap-")).
  assert (Hl : forall x, In x l ->
             is_child (ANDROID_RES_DEFAULT root) x = true
             /\ Str.prefix "mipmap-" (name x) = true).
  { intros x. unfold l, glob, is_dir.
    rewrite (Hdirs _ (starts_with_refl _)). intros Hx.
    apply filter_In in Hx as [Hx Hm]. split; [|exact Hm].
    eapply children_is_child, Hx. }
  destruct (same_root_loop root l w0) as (d' & Hd' & Hdir' & Hrun).
  { intros x Hx. apply Hl, Hx. }
  { exists d. split; [|exact Hd]. unfold l, glob, is_dir.
    rewrite (Hdirs _ (starts_with_refl _)). apply filter_In. split; [|exact Hp].
    apply in_children; [exact Hc|]. unfold is_dir in Hd.
    destruct (files w !! d); [discriminate | discriminate Hd]. }
  exists d'. eexists. split.
  - unfold move_assets_to_flavor.
    unfold bind at 1. cbn [logging]. fold w0.
    unfold bind at 1. unfold effect at 1. cbn [files w0].
    change (root ++ ["android"; "app"; "src"; "main"; "res"])
      with (ANDROID_RES_DEFAULT root).
    rewrite (mkdir_noop _ _ Hdirs).
    unfold bind at 1. cbn [ask files]. fold l.
    unfold bind at 1.
    replace {| files := files w; log := log w0 |} with w0 by reflexivity.
    cbv zeta in Hrun. rewrite Hrun. reflexivity.
  - destruct (Hl d' Hd') as [Hc' Hp']. cbn [files]. auto.
Qed.

Lemma same_root_move_fails_witness :
  exists d w',
    move_assets_to_flavor Sample.root "demo" (ANDROID_RES_DEFAULT Sample.root)
      {| files := snd (Sample.launcher_icons [] Sample.fs0); log := [] |}
    = (Raise FileNotFoundError, w')
    /\ files w' = remove_tree d (snd (Sample.launcher_icons [] Sample.fs0)).
Proof.
  destruct (same_root_move_fails Sample.root "demo"
              {| files := snd (Sample.launcher_icons [] Sample.fs0); log := [] |})
    as (d & w' & Hrun & _ & _ & _ & Hfiles).
  - intros q Hq. apply in_prefixes, list_elem_of_In in Hq. vm_compute in Hq.
    repeat (apply elem_of_cons in Hq as [-> | Hq]; [vm_compute; reflexivity|]).
    apply elem_of_nil in Hq. contradiction.
  - exists (Sample.res ++ ["mipmap-hdpi"]). repeat split; vm_compute; reflexivity.
  - exists d, w'. split; [exact Hrun | exact Hfiles].
Defined.

Section MoveApart.
Variable root arp : path.

Let main_res : path := ANDROID_RES_DEFAULT root.

Hypothesis Hab : starts_with arp main_res = false.
Hypothesis Hba : starts_with main_res arp = false.

Let dest (d : path) : path := arp ++ [name d].

(** The files after the round of the first loop for the entry [d]. *)
Let cleared (d : path) (fs : filesystem) : filesystem :=
  if is_dir fs (dest d) then remove_tree (dest d) fs else fs.
Let step (d : path) (fs : filesystem) : filesystem :=
  if is_dir fs d then rename_tree d (dest d) (cleared d fs) else fs.

Lemma dest_apart (d e : path) (r s : path) :
  is_child main_res d = true ->
  starts_with (d ++ r) (dest e ++ s) = false
  /\ starts_with (dest e ++ s) (d ++ r) = false.
Proof.
  intros Hd. rewrite (child_eq _ _ Hd). unfold dest.
  rewrite <- !app_assoc. split; apply apart_below; assumption.
Qed.

Lemma not_above_arp (d q : path) :
  is_child main_res d = true -> starts_with q arp = true ->
  starts_with d q = false /\ starts_with (dest d) q = false.
Proof.
  intros Hd Hq. split.
  - destruct (starts_with d q) eqn:E; [|reflexivity].
    pose proof (starts_with_trans _ _ _ E Hq) as H.
    rewrite (child_eq _ _ Hd) in H.
    pose proof (starts_with_trans _ _ _ (starts_with_prefix main_res _) H).
    congruence.
  - destruct (starts_with (dest d) q) eqn:E; [|reflexivity].
    pose proof (starts_with_trans _ _ _ E Hq) as H.
    apply starts_with_length in H. unfold dest in H. rewrite length_app in H.
    cbn in H. lia.
Qed.

Lemma lookup_cleared (d q : path) (fs : filesystem) :
  cleared d fs !! q
  = if is_dir fs (dest d) && starts_with (dest d) q then None else fs !! q.
Proof.
  unfold cleared. destruct (is_dir fs (dest d)); cbn [andb];
    [apply lookup_remove_tree | reflexivity].
Qed.

Lemma step_frame (d q : path) (fs : filesystem) :
  starts_with d q = false -> starts_with (dest d) q = false ->
  step d fs !! q = fs !! q.
Proof.
  intros Hd Hq. unfold step. destruct (is_dir fs d); [|reflexivity].
  rewrite lookup_rename_tree, Hq, Hd, lookup_cleared, Hq, andb_false_r.
  reflexivity.
Qed.

Lemma own_dest_apart (d rest : path) :
  is_child main_res d = true ->
  starts_with (dest d) (d ++ rest) = false
  /\ starts_with d (dest d ++ rest) = false.
Proof.
  intros Hc. split.
  - pose proof (proj2 (dest_apart d d rest [] Hc)) as H.
    rewrite app_nil_r in H. exact H.
  - pose proof (proj1 (dest_apart d d [] rest Hc)) as H.
    rewrite app_nil_r in H. exact H.
Qed.

Lemma step_source (d rest : path) (fs : filesystem) :
  is_child main_res d = true -> is_dir fs d = true ->
  step d fs !! (d ++ rest) = None.
Proof.
  intros Hc Hd. unfold step. rewrite Hd, lookup_rename_tree.
  rewrite (proj1 (own_dest_apart d rest Hc)), starts_with_prefix. reflexivity.
Qed.

Lemma step_target (d rest : path) (fs : filesystem) :
  is_child main_res d = true -> is_dir fs d = true ->
  (forall x, fs !! (d ++ rest) = Some x -> step d fs !! (dest d ++ rest) = Some x)
  /\ (is_dir fs (dest d) = true -> step d fs !! (dest d ++ rest) = fs !! (d ++ rest)).
Proof.
  intros Hc Hd. unfold step. rewrite Hd, lookup_rename_tree.
  rewrite starts_with_prefix, drop_app_length, !lookup_cleared.
  rewrite (proj1 (own_dest_apart d rest Hc)), andb_false_r.
  rewrite (proj2 (own_dest_apart d rest Hc)), starts_with_prefix, andb_true_r.
  split.
  - intros x ->. reflexivity.
  - intros ->. destruct (fs !! (d ++ rest)); reflexivity.
Qed.

(** One round of the first loop. *)
Lemma move_round (d : path) (w : world) :
  is_child main_res d = true ->
  (forall q, starts_with q arp = true -> files w !! q = Some Dir) ->
  (is_dir (files w) d = true -> forall c, files w !! dest d <> Some (File c)) ->
  exists msgs,
    (b <- ask (fun fs => is_dir fs d && path_exists fs d) ;;
     when b (c <- ask (fun fs => path_exists fs (arp ++ [name d])) ;;
             when c (effect (rmtree false (arp ++ [name d]))) ;;
             effect (move d (arp ++ [name d])) ;;
             logging INFO "Movido directorio mipmap")) w
    = (Ok tt, {| files := step d (files w); log := log w ++ msgs |}).
Proof.
  intros Hc Harp Hdest. unfold bind at 1. cbn [ask]. unfold step.
  destruct (is_dir (files w) d) eqn:Hd; cbn [andb when ret].
  2:{ exists []. rewrite app_nil_r, world_eta. reflexivity. }
  assert (He : files w !! d = Some Dir).
  { unfold is_dir in Hd. destruct (files w !! d) as [[c|]|]; try discriminate.
    reflexivity. }
  unfold path_exists at 1. rewrite He. cbn [when].
  assert (Hmove : move d (dest d) (cleared d (files w))
                  = Ok (rename_tree d (dest d) (cleared d (files w)))).
  { apply move_dir_ok.
    - pose proof (proj1 (own_dest_apart d [] Hc)) as H. rewrite app_nil_r in H.
      rewrite lookup_cleared, H, andb_false_r. exact He.
    - rewrite lookup_cleared, starts_with_refl, andb_true_r.
      unfold is_dir. specialize (Hdest eq_refl).
      destruct (files w !! dest d) as [[c|]|]; try reflexivity.
      exfalso. exact (Hdest c eq_refl).
    - pose proof (proj2 (own_dest_apart d [] Hc)) as H. rewrite app_nil_r in H.
      exact H.
    - unfold dest at 1. rewrite parent_snoc. intros q Hq.
      rewrite lookup_cleared, (proj2 (not_above_arp d q Hc Hq)), andb_false_r.
      apply Harp, Hq. }
  fold (dest d). unfold bind at 1. cbn [ask]. unfold path_exists, cleared in *.
  unfold is_dir in Hmove |- *. specialize (Hdest eq_refl).
  destruct (files w !! dest d) as [[c|]|] eqn:E; cbn [when].
  - exfalso. exact (Hdest c eq_refl).
  - unfold bind, effect, rmtree, logging. rewrite E. cbn [files log].
    rewrite Hmove. eexists. reflexivity.
  - unfold bind, effect, logging, ret. rewrite Hmove. eexists. reflexivity.
Qed.

(** The first loop: every directory among the entries is moved, and
    nothing outside the entries and their destinations changes. *)
Lemma move_rounds (l : list path) (w : world) :
  List.NoDup l ->
  (forall d, In d l -> is_child main_res d = true) ->
  (forall q, starts_with q arp = true -> files w !! q = Some Dir) ->
  (forall d, In d l -> is_dir (files w) d = true ->
             forall c, files w !! dest d <> Some (File c)) ->
  exists fs' msgs,
    for_each l (fun d =>
      b <- ask (fun fs => is_dir fs d && path_exists fs d) ;;
      when b (c <- ask (fun fs => path_exists fs (arp ++ [name d])) ;;
              when c (effect (rmtree false (arp ++ [name d]))) ;;
              effect (move d (arp ++ [name d])) ;;
              logging INFO "Movido directorio mipmap")) w
    = (Ok tt, {| files := fs'; log := log w ++ msgs |})
    /\ (forall q, (forall d, In d l -> starts_with d q = false
                                       /\ starts_with (dest d) q = false) ->
                  fs' !! q = files w !! q)
    /\ (forall d rest, In d l -> is_dir (files w) d = true ->
          fs' !! (d ++ rest) = None
          /\ (forall x, files w !! (d ++ rest) = Some x ->
                        fs' !! (dest d ++ rest) = Some x)
          /\ (is_dir (files w) (dest d) = true ->
              fs' !! (dest d ++ rest) = files w !! (d ++ rest))).
Proof.
  revert w. induction l as [|e l IH]; intros w Hnd Hl Harp Hdest.
  - exists (files w), []. cbn [for_each ret]. rewrite app_nil_r, world_eta.
    split; [reflexivity|]. split; [reflexivity | intros d rest []].
  - apply List.NoDup_cons_iff in Hnd as [He Hnd].
    assert (Hce : is_child main_res e = true) by (apply Hl; left; reflexivity).
    destruct (move_round e w Hce Harp) as [msgs Hround].
    { apply Hdest. left. reflexivity. }
    assert (Hother : forall d r, In d l ->
              starts_with e (d ++ r) = false /\ starts_with (dest e) (d ++ r) = false
              /\ starts_with e (dest d ++ r) = false
              /\ starts_with (dest e) (dest d ++ r) = false).
    { intros d r Hd.
      assert (Hcd : is_child main_res d = true) by (apply Hl; right; exact Hd).
      assert (Hne : name e <> name d).
      { intros Hn. apply He. rewrite (child_eq _ _ Hce), Hn, <- (child_eq _ _ Hcd).
        exact Hd. }
      split; [|split; [|split]].
      - rewrite (child_eq _ _ Hce), (child_eq _ _ Hcd), <- app_assoc.
        apply (siblings_apart main_res _ _ [] r Hne).
      - rewrite <- (app_nil_r (dest e)). apply (dest_apart d e r [] Hcd).
      - rewrite <- (app_nil_r e). apply (dest_apart e d [] r Hce).
      - unfold dest. rewrite <- app_assoc.
        apply (siblings_apart arp _ _ [] r Hne). }
    assert (Hsame : forall d r, In d l ->
              step e (files w) !! (d ++ r) = files w !! (d ++ r)
              /\ step e (files w) !! (dest d ++ r) = files w !! (dest d ++ r)).
    { intros d r Hd. destruct (Hother d r Hd) as (H1 & H2 & H3 & H4).
      split; apply step_frame; assumption. }
    destruct (IH {| files := step e (files w); log := log w ++ msgs |} Hnd)
      as (fs' & msgs' & Hrun & Hframe & Hmoved).
    { intros d Hd. apply Hl. right. exact Hd. }
    { intros q Hq. cbn [files].
      destruct (not_above_arp e q Hce Hq) as [H1 H2].
      rewrite step_frame by assumption. apply Harp, Hq. }
    { intros d Hd. cbn [files]. unfold is_dir.
      pose proof (Hsame d [] Hd) as [H1 H2]. rewrite !app_nil_r in H1, H2.
      rewrite H1, H2. apply Hdest. right. exact Hd. }
    cbn [files log] in *.
    exists fs', (msgs ++ msgs'). split; [|split].
    + cbn [for_each]. unfold bind at 1. rewrite Hround, Hrun.
      rewrite app_assoc. reflexivity.
    + intros q Hq. rewrite Hframe by (intros d Hd; apply Hq; right; exact Hd).
      destruct (Hq e (or_introl eq_refl)) as [H1 H2].
      apply step_frame; assumption.
    + intros d rest [<-|Hd] Hdir.
      * assert (Hout : forall r q, q = e ++ r \/ q = dest e ++ r ->
                  fs' !! q = step e (files w) !! q).
        { intros r q Hq. apply Hframe. intros d Hd.
          destruct (Hother d [] Hd) as (H1 & H2 & H3 & H4).
          rewrite !app_nil_r in *.
          assert (Hcd : is_child main_res d = true) by (apply Hl; right; exact Hd).
          assert (Hne : name d <> name e).
          { intros Hn. apply He. rewrite (child_eq _ _ Hce), <- Hn,
              <- (child_eq _ _ Hcd). exact Hd. }
          destruct Hq as [-> | ->]; split.
          - rewrite (child_eq _ _ Hce), (child_eq _ _ Hcd), <- app_assoc.
            apply (siblings_apart main_res _ _ [] r Hne).
          - rewrite <- (app_nil_r (dest d)). apply (dest_apart e d r [] Hce).
          - rewrite <- (app_nil_r d). apply (dest_apart d e [] r Hcd).
          - unfold dest. rewrite <- app_assoc.
            apply (siblings_apart arp _ _ [] r Hne). }
        rewrite (Hout rest (e ++ rest)) by auto.
        rewrite (Hout rest (dest e ++ rest)) by auto.
        split; [apply step_source; assumption|].
        apply step_target; assumption.
      * destruct (Hsame d rest Hd) as [H1 H2].
        destruct (Hsame d [] Hd) as [H3 H4]. rewrite !app_nil_r in H3, H4.
        destruct (Hmoved d rest Hd) as (Hgone & Hthere & Hexact).
        { unfold is_dir in *. rewrite H3. exact Hdir. }
        split; [exact Hgone|]. split.
        -- intros x Hx. apply Hthere. rewrite H1. exact Hx.
        -- intros Hdd. rewrite Hexact, H1; [reflexivity|].
           unfold is_dir in *. rewrite H4. exact Hdd.
Qed.

(** One round of the second loop, for a file [dir/file]. *)
Lemma config_round (dir file : string) (w : world) :
  (forall q, starts_with q arp = true -> files w !! q = Some Dir) ->
  files w !! (main_res ++ [dir; file]) <> Some Dir ->
  (files w !! (main_res ++ [dir; file]) <> None ->
   is_dir (files w) (arp ++ [dir; file]) = false
   /\ forall c, files w !! (arp ++ [dir]) <> Some (File c)) ->
  exists fs' msgs,
    (b <- ask (fun fs => path_exists fs (main_res ++ [dir; file])) ;;
     when b (effect (mkdir (parent (arp ++ [dir; file]))) ;;
             effect (move (main_res ++ [dir; file]) (arp ++ [dir; file])) ;;
             logging INFO "Movido archivo de configuracion")) w
    = (Ok tt, {| files := fs'; log := log w ++ msgs |})
    /\ (forall q,
          fs' !! q
          = match files w !! (main_res ++ [dir; file]) with
            | Some (File c) =>
                if decide (q = arp ++ [dir; file]) then Some (File c)
                else if decide (q = main_res ++ [dir; file]) then None
                else if starts_with q (arp ++ [dir]) then Some Dir
                else files w !! q
            | _ => files w !! q
            end).
Proof.
  intros Harp Hsrc Hdst. unfold bind at 1. cbn [ask]. unfold path_exists.
  destruct (files w !! (main_res ++ [dir; file])) as [[c|]|] eqn:E;
    [|congruence|]; cbn [when ret].
  2:{ exists (files w), []. rewrite app_nil_r, world_eta. auto. }
  destruct Hdst as [Hd Hp]; [discriminate|].
  assert (Hparent : parent (arp ++ [dir; file]) = arp ++ [dir]).
  { change (arp ++ [dir; file]) with (arp ++ [dir] ++ [file]).
    rewrite app_assoc. apply parent_snoc. }
  rewrite Hparent.
  destruct (mkdir_ok (arp ++ [dir]) (files w)) as (fs1 & Hmk & H1).
  { intros q c' Hq.
    destruct (le_lt_dec (length q) (length arp)) as [Hs|Hs].
    - rewrite (Harp q (starts_with_short _ _ _ Hq Hs)). discriminate.
    - assert (q = arp ++ [dir]) as ->; [|apply Hp].
      apply starts_with_same_length; [exact Hq|].
      apply starts_with_length in Hq. rewrite length_app in Hq |- *.
      cbn [length] in Hq |- *. lia. }
  assert (Hs1 : starts_with (main_res ++ [dir; file]) (arp ++ [dir]) = false)
    by (apply apart_below; assumption).
  assert (Hs2 : starts_with (arp ++ [dir; file]) (arp ++ [dir]) = false)
    by (rewrite starts_with_app; cbn; rewrite String.eqb_refl; reflexivity).
  assert (Hmv : move (main_res ++ [dir; file]) (arp ++ [dir; file]) fs1
                = Ok (<[arp ++ [dir; file] := File c]>
                        (delete (main_res ++ [dir; file]) fs1))).
  { apply move_file_ok.
    - rewrite H1, Hs1. exact E.
    - unfold is_dir in *. rewrite H1, Hs2. exact Hd.
    - rewrite Hparent, H1, starts_with_refl. reflexivity. }
  unfold bind, effect, logging. rewrite Hmk. cbn [files log]. rewrite Hmv.
  eexists _, _. split; [reflexivity|]. intros q. cbn [files].
  destruct (decide (q = arp ++ [dir; file])) as [->|Hq1];
    [apply lookup_insert_eq|].
  rewrite lookup_insert_ne by congruence.
  destruct (decide (q = main_res ++ [dir; file])) as [->|Hq2];
    [apply lookup_delete_eq|].
  rewrite lookup_delete_ne by congruence. apply H1.
Qed.

(** The second loop: every file among the entries that exists is moved;
    besides, directories are created for them and nothing else
    changes. *)
Lemma config_rounds (l : list path) (w : world) :
  List.NoDup l ->
  (forall cf, In cf l -> exists dir file, cf = [dir; file]) ->
  (forall q, starts_with q arp = true -> files w !! q = Some Dir) ->
  (forall cf, In cf l ->
     files w !! (main_res ++ cf) <> Some Dir
     /\ (files w !! (main_res ++ cf) <> None ->
         is_dir (files w) (arp ++ cf) = false
         /\ forall c, files w !! parent (arp ++ cf) <> Some (File c))) ->
  exists fs' msgs,
    for_each l (fun config_file =>
      b <- ask (fun fs => path_exists fs (main_res ++ config_file)) ;;
      when b (effect (mkdir (parent (arp ++ config_file))) ;;
              effect (move (main_res ++ config_file) (arp ++ config_file)) ;;
              logging INFO "Movido archivo de configuracion")) w
    = (Ok tt, {| files := fs'; log := log w ++ msgs |})
    /\ (forall q, (forall cf, In cf l -> q <> main_res ++ cf /\ q <> arp ++ cf) ->
          fs' !! q = files w !! q
          \/ (files w !! q = None /\ fs' !! q = Some Dir
              /\ exists cf, In cf l /\ starts_with q (parent (arp ++ cf)) = true))
    /\ (forall cf c, In cf l -> files w !! (main_res ++ cf) = Some (File c) ->
          fs' !! (arp ++ cf) = Some (File c) /\ fs' !! (main_res ++ cf) = None).
Proof.
  revert w. induction l as [|e l IH]; intros w Hnd Hl Harp Hpre.
  - exists (files w), []. cbn [for_each ret]. rewrite app_nil_r, world_eta.
    split; [reflexivity|]. split; [auto | intros cf c []].
  - apply List.NoDup_cons_iff in Hnd as [He Hnd].
    destruct (Hl e (or_introl eq_refl)) as (dir & file & ->).
    assert (Hparent : forall d f, parent (arp ++ [d; f]) = arp ++ [d]).
    { intros d f. change (arp ++ [d; f]) with (arp ++ [d] ++ [f]).
      rewrite app_assoc. apply parent_snoc. }
    destruct (Hpre _ (or_introl eq_refl)) as [Hsrc Hdst].
    rewrite Hparent in Hdst.
    destruct (config_round dir file w Harp Hsrc Hdst) as (fs1 & msgs & Hround & H1).
    assert (Hkeep : forall q, q <> main_res ++ [dir; file] -> q <> arp ++ [dir; file] ->
              fs1 !! q = files w !! q
              \/ (files w !! q = None /\ fs1 !! q = Some Dir
                  /\ starts_with q (arp ++ [dir]) = true)).
    { intros q Hq1 Hq2. rewrite H1.
      destruct (files w !! (main_res ++ [dir; file])) as [[c|]|]; auto.
      rewrite !decide_False by assumption.
      destruct (starts_with q (arp ++ [dir])) eqn:Eq; [|auto].
      destruct (files w !! q) as [[c'|]|] eqn:Ew; [exfalso| |auto].
      - destruct Hdst as [_ Hp]; [discriminate|].
        destruct (le_lt_dec (length q) (length arp)) as [Hs|Hs].
        + rewrite (Harp q (starts_with_short _ _ _ Eq Hs)) in Ew. discriminate.
        + apply (Hp c'). rewrite <- Ew. f_equal. symmetry.
          apply starts_with_same_length; [exact Eq|].
          apply starts_with_length in Eq. rewrite length_app in Eq |- *.
          cbn [length] in Eq |- *. lia.
      - left. reflexivity. }
    assert (Hsame : forall cf, In cf l ->
              fs1 !! (main_res ++ cf) = files w !! (main_res ++ cf)
              /\ fs1 !! (arp ++ cf) = files w !! (arp ++ cf)
              /\ (forall c, fs1 !! parent (arp ++ cf) = Some (File c) ->
                            files w !! parent (arp ++ cf) = Some (File c))).
    { intros cf Hcf. destruct (Hl cf (or_intror Hcf)) as (d & f & ->).
      assert (Hne : [d; f] <> [dir; file])
        by (intros H; apply He; rewrite <- H; exact Hcf).
      split; [|split].
      - destruct (Hkeep (main_res ++ [d; f])) as [H|(_ & _ & H)]; auto.
        + intros H. apply app_inv_head in H. congruence.
        + intros H. apply (f_equal (starts_with main_res)) in H.
          rewrite starts_with_prefix in H.
          rewrite <- (app_nil_r main_res) in H at 1.
          rewrite (apart_below main_res arp [] [dir; file]) in H by assumption.
          discriminate.
        + rewrite apart_below in H by assumption. discriminate.
      - destruct (Hkeep (arp ++ [d; f])) as [H|(_ & _ & H)]; auto.
        + intros H. apply (f_equal (starts_with arp)) in H.
          rewrite starts_with_prefix in H.
          rewrite <- (app_nil_r arp) in H at 1.
          rewrite (apart_below arp main_res [] [dir; file]) in H by assumption.
          discriminate.
        + intros H. apply app_inv_head in H. congruence.
        + rewrite starts_with_app in H. cbn in H.
          destruct (String.eqb d dir); discriminate.
      - intros c. rewrite Hparent.
        destruct (Hkeep (arp ++ [d])) as [H|(_ & H & _)].
        + intros H. apply (f_equal (starts_with arp)) in H.
          rewrite starts_with_prefix in H.
          rewrite <- (app_nil_r arp) in H at 1.
          rewrite (apart_below arp main_res [] [dir; file]) in H by assumption.
          discriminate.
        + intros H. apply app_inv_head in H. discriminate.
        + rewrite H. auto.
        + rewrite H. discriminate. }
    destruct (IH {| files := fs1; log := log w ++ msgs |} Hnd)
      as (fs' & msgs' & Hrun & Hframe & Hmoved).
    { intros cf Hcf. apply Hl. right. exact Hcf. }
    { intros q Hq. cbn [files].
      destruct (Hkeep q) as [H|(_ & H & _)]; [| |rewrite H; apply Harp, Hq|exact H].
      - intros ->. pose proof (starts_with_trans _ _ _ (starts_with_prefix main_res _) Hq).
        congruence.
      - intros ->. apply starts_with_length in Hq. rewrite length_app in Hq.
        cbn in Hq. lia. }
    { intros cf Hcf. cbn [files]. destruct (Hsame cf Hcf) as (H1' & H2' & H3').
      destruct (Hpre cf (or_intror Hcf)) as [Ha Hb].
      unfold is_dir. rewrite H1', H2'. split; [exact Ha|].
      intros Hex. destruct (Hb Hex) as [Hb1 Hb2]. split; [exact Hb1|].
      intros c Hc. exact (Hb2 c (H3' c Hc)). }
    cbn [files log] in *.
    exists fs', (msgs ++ msgs'). split; [|split].
    + cbn [for_each]. unfold bind at 1. rewrite Hround, Hrun, app_assoc. reflexivity.
    + intros q Hq. destruct (Hq _ (or_introl eq_refl)) as [Hq1 Hq2].
      destruct (Hframe q) as [H|(Hn & Hd & cf & Hcf & Hs)].
      { intros cf Hcf. apply Hq. right. exact Hcf. }
      * rewrite H. destruct (Hkeep q Hq1 Hq2) as [H'|(Hn & Hd & Hs)]; [auto|].
        right. split; [exact Hn|]. split; [exact Hd|].
        exists [dir; file]. split; [left; reflexivity|]. rewrite Hparent. exact Hs.
      * destruct (Hkeep q Hq1 Hq2) as [H'|(Hn' & Hd' & Hs')]; [|congruence].
        right. rewrite <- H'. split; [exact Hn|]. split; [exact Hd|].
        exists cf. split; [right; exact Hcf | exact Hs].
    + intros cf c [<-|Hcf] Hc.
      * assert (Hout : forall cf', In cf' l ->
                  [dir; file] <> cf').
        { intros cf' Hcf' H. apply He. rewrite H. exact Hcf'. }
        assert (H1a : fs1 !! (arp ++ [dir; file]) = Some (File c)).
        { rewrite H1, Hc. rewrite decide_True by reflexivity. reflexivity. }
        assert (H1b : fs1 !! (main_res ++ [dir; file]) = None).
        { rewrite H1, Hc.
          rewrite decide_False.
          - rewrite decide_True by reflexivity. reflexivity.
          - intros H. apply (f_equal (starts_with arp)) in H.
            rewrite starts_with_prefix in H.
            rewrite <- (app_nil_r arp) in H at 1.
            rewrite (apart_below arp main_res [] [dir; file]) in H by assumption.
            discriminate. }
        split.
        -- destruct (Hframe (arp ++ [dir; file])) as [H|(Hn & _)]; [| |congruence].
           ++ intros cf' Hcf'. split.
              ** intros H. apply (f_equal (starts_with main_res)) in H.
                 rewrite starts_with_prefix in H.
                 rewrite <- (app_nil_r main_res) in H at 1.
                 rewrite (apart_below main_res arp [] [dir; file]) in H by assumption.
                 discriminate.
              ** intros H. apply app_inv_head in H. exact (Hout cf' Hcf' H).
           ++ rewrite H. exact H1a.
        -- destruct (Hframe (main_res ++ [dir; file]))
             as [H|(_ & _ & cf' & Hcf' & Hs)].
           ++ intros cf' Hcf'. split.
              ** intros H. apply app_inv_head in H. exact (Hout cf' Hcf' H).
              ** intros H. apply (f_equal (starts_with arp)) in H.
                 rewrite starts_with_prefix in H.
                 rewrite <- (app_nil_r arp) in H at 1.
                 rewrite (apart_below arp main_res [] [dir; file]) in H by assumption.
                 discriminate.
           ++ rewrite H. exact H1b.
           ++ destruct (Hl cf' (or_intror Hcf')) as (d & f & ->).
              rewrite Hparent, apart_below in Hs by assumption. discriminate.
      * destruct (Hsame cf Hcf) as (H1' & _ & _).
        apply Hmoved; [exact Hcf|]. rewrite H1'. exact Hc.
Qed.

Lemma config_files_shape (cf : path) :
  In cf config_files ->
  exists dir file, cf = [dir; file] /\ Str.prefix "mipmap-" dir = false.
Proof.
  unfold config_files. intros H.
  repeat (destruct H as [<-|H]; [eexists _, _; split; reflexivity|]).
  destruct H.
Qed.

Lemma config_files_nodup : List.NoDup config_files.
Proof.
  unfold config_files.
  repeat (apply List.NoDup_cons; [cbn; intuition discriminate|]).
  apply List.NoDup_nil.
Qed.

Lemma children_nodup (fs : filesystem) (p : path) : List.NoDup (children fs p).
Proof. unfold children. apply NoDup_ListNoDup, NoDup_fst_map_to_list. Qed.

(** A path below a density directory or below its destination is none
    of the resource files, and is not above the directory of one. *)
Lemma density_not_config (d cf rest : path) :
  is_child main_res d = true -> Str.prefix "mipmap-" (name d) = true ->
  In cf config_files ->
  (d ++ rest <> main_res ++ cf /\ d ++ rest <> arp ++ cf
   /\ starts_with (d ++ rest) (parent (arp ++ cf)) = false)
  /\ (dest d ++ rest <> main_res ++ cf /\ dest d ++ rest <> arp ++ cf
      /\ starts_with (dest d ++ rest) (parent (arp ++ cf)) = false).
Proof.
  intros Hc Hm Hcf. destruct (config_files_shape cf Hcf) as (dir & file & -> & Hdir).
  assert (Hne : name d <> dir) by (intros <-; congruence).
  assert (Hparent : parent (arp ++ [dir; file]) = arp ++ [dir]).
  { change (arp ++ [dir; file]) with (arp ++ [dir] ++ [file]).
    rewrite app_assoc. apply parent_snoc. }
  rewrite Hparent.
  assert (Hx : forall a b x y, starts_with a b = false -> starts_with b a = false ->
                               a ++ x <> b ++ y).
  { intros a b x y H1 H2 H. apply (f_equal (starts_with a)) in H.
    rewrite starts_with_prefix in H. rewrite <- (app_nil_r a) in H at 1.
    rewrite apart_below in H by assumption. discriminate. }
  split; (split; [|split]).
  - rewrite (child_eq _ _ Hc), <- app_assoc. intros H. apply app_inv_head in H.
    injection H as H _. exact (Hne H).
  - rewrite (child_eq _ _ Hc), <- app_assoc. apply Hx; assumption.
  - rewrite (child_eq _ _ Hc), <- app_assoc. apply apart_below; assumption.
  - unfold dest. rewrite <- app_assoc. apply Hx; assumption.
  - unfold dest. rewrite <- app_assoc. intros H. apply app_inv_head in H.
    injection H as H _. exact (Hne H).
  - unfold dest. rewrite <- app_assoc. apply siblings_apart, Hne.
Qed.

(** A resource file, its destination and the directory of the
    destination are below no density directory and no destination of
    one. *)
Lemma config_not_density (d cf q : path) :
  is_child main_res d = true -> Str.prefix "mipmap-" (name d) = true ->
  In cf config_files ->
  q = main_res ++ cf \/ q = arp ++ cf \/ q = parent (arp ++ cf) ->
  starts_with d q = false /\ starts_with (dest d) q = false.
Proof.
  intros Hc Hm Hcf Hq. destruct (config_files_shape cf Hcf) as (dir & file & -> & Hdir).
  assert (Hne : name d <> dir) by (intros <-; congruence).
  assert (Hparent : parent (arp ++ [dir; file]) = arp ++ [dir]).
  { change (arp ++ [dir; file]) with (arp ++ [dir] ++ [file]).
    rewrite app_assoc. apply parent_snoc. }
  rewrite Hparent in Hq. pose proof (child_eq _ _ Hc) as Hd. unfold dest.
  set (n := name d) in *. clearbody n. subst d.
  destruct Hq as [-> | [-> | ->]]; split;
    first [ apply siblings_apart, Hne | apply apart_below; assumption ].
Qed.

(** X8: with a flavor root and a main resource directory of which
    neither holds the other, and nothing in the way (no file where the
    flavor root or its ancestors go, no file where a density directory
    goes, the seven resource files not directories, their destinations
    not directories and the directories of these not files),
    [move_assets_to_flavor] returns.  Afterwards every directory
    [mipmap-...] of the main resource directory is gone from there and
    everything it held is under the flavor root, replacing a directory of
    that name that was there; each of the seven resource files that
    existed is under the flavor root and no longer under the main one;
    the flavor root and its ancestors are directories; and every path
    outside the two roots, other than those ancestors, is as it was. *)
Theorem distinct_root_move_succeeds (flavor : string) (w : world)
    (Hway : forall q c, starts_with q arp = true -> files w !! q <> Some (File c))
    (Hdest : forall d c, is_child main_res d = true ->
                         Str.prefix "mipmap-" (name d) = true ->
                         is_dir (files w) d = true ->
                         files w !! (arp ++ [name d]) <> Some (File c))
    (Hcfg : forall cf, In cf config_files ->
              files w !! (main_res ++ cf) <> Some Dir
              /\ (files w !! (main_res ++ cf) <> None ->
                  is_dir (files w) (arp ++ cf) = false
                  /\ forall c, files w !! parent (arp ++ cf) <> Some (File c))) :
  exists w',
    move_assets_to_flavor root flavor arp w = (Ok tt, w')
    /\ (files w !! main_res = Some Dir ->
        forall d rest,
          is_child main_res d = true -> Str.prefix "mipmap-" (name d) = true ->
          is_dir (files w) d = true ->
          files w' !! (d ++ rest) = None
          /\ (forall x, files w !! (d ++ rest) = Some x ->
                        files w' !! ((arp ++ [name d]) ++ rest) = Some x)
          /\ (is_dir (files w) (arp ++ [name d]) = true ->
              files w' !! ((arp ++ [name d]) ++ rest) = files w !! (d ++ rest)))
    /\ (forall cf c, In cf config_files ->
          files w !! (main_res ++ cf) = Some (File c) ->
          files w' !! (arp ++ cf) = Some (File c)
          /\ files w' !! (main_res ++ cf) = None)
    /\ (forall q, starts_with q arp = true -> files w' !! q = Some Dir)
    /\ (forall q, starts_with main_res q = false -> starts_with arp q = false ->
                  starts_with q arp = false ->
                  files w' !! q = files w !! q).
Proof.
  destruct (mkdir_ok arp (files w) Hway) as (fs_a & Hmk & Ha).
  set (w_a := {| files := fs_a; log := log w ++ [(INFO, "Moviendo assets...")] |}).
  set (l := glob fs_a main_res (Prefixed "mipmap-")).
  assert (Hl : forall d, In d l ->
             is_child main_res d = true /\ Str.prefix "mipmap-" (name d) = true).
  { intros d. unfold l, glob. destruct (is_dir fs_a main_res); [|intros []].
    intros Hd. apply filter_In in Hd as [Hd Hm]. split; [|exact Hm].
    eapply children_is_child, Hd. }
  assert (Hnd : List.NoDup l).
  { unfold l, glob. destruct (is_dir fs_a main_res); [|apply List.NoDup_nil].
    apply List.NoDup_filter, children_nodup. }
  (* paths on which creating the flavor root changes nothing *)
  assert (Hres : forall r, fs_a !! (main_res ++ r) = files w !! (main_res ++ r)).
  { intros r. rewrite Ha. destruct (starts_with (main_res ++ r) arp) eqn:E; [|reflexivity].
    pose proof (starts_with_trans _ _ _ (starts_with_prefix main_res r) E). congruence. }
  assert (Hflv : forall x r, fs_a !! (arp ++ x :: r) = files w !! (arp ++ x :: r)).
  { intros x r. rewrite Ha. destruct (starts_with (arp ++ x :: r) arp) eqn:E; [|reflexivity].
    apply starts_with_length in E. rewrite length_app in E. cbn in E. lia. }
  assert (Hsrc_a : forall d r, is_child main_res d = true ->
             fs_a !! (d ++ r) = files w !! (d ++ r)).
  { intros d r Hc. rewrite (child_eq _ _ Hc), <- app_assoc. apply Hres. }
  assert (Hdst_a : forall d r, fs_a !! (dest d ++ r) = files w !! (dest d ++ r)).
  { intros d r. unfold dest. rewrite <- app_assoc. apply Hflv. }
  assert (Harp_a : forall q, starts_with q arp = true -> fs_a !! q = Some Dir).
  { intros q Hq. rewrite Ha, Hq. reflexivity. }
  destruct (move_rounds l w_a Hnd) as (fs_m & msgs1 & Hrun1 & Hframe1 & Hmoved1).
  { intros d Hd. apply Hl, Hd. }
  { exact Harp_a. }
  { intros d Hd Hdir c. cbn [files w_a] in *. destruct (Hl d Hd) as [Hc Hm].
    pose proof (Hdst_a d []) as H1. pose proof (Hsrc_a d [] Hc) as H2.
    rewrite !app_nil_r in H1, H2. rewrite H1.
    apply Hdest; try assumption. unfold is_dir in *. rewrite <- H2. exact Hdir. }
  cbn [files log w_a] in Hframe1, Hmoved1.
  assert (Hcfg_m : forall cf q, In cf config_files ->
             q = main_res ++ cf \/ q = arp ++ cf \/ q = parent (arp ++ cf) ->
             fs_m !! q = files w !! q).
  { intros cf q Hcf Hq. rewrite Hframe1.
    - destruct (config_files_shape cf Hcf) as (dir & file & -> & _).
      destruct Hq as [-> | [-> | ->]]; [apply Hres | apply Hflv |].
      change (arp ++ [dir; file]) with (arp ++ [dir] ++ [file]).
      rewrite app_assoc, parent_snoc. apply Hflv.
    - intros d Hd. destruct (Hl d Hd) as [Hc Hm].
      apply (config_not_density d cf q Hc Hm Hcf Hq). }
  assert (Harp_m : forall q, starts_with q arp = true -> fs_m !! q = Some Dir).
  { intros q Hq. rewrite Hframe1; [apply Harp_a, Hq|].
    intros d Hd. apply not_above_arp; [apply Hl, Hd | exact Hq]. }
  destruct (config_rounds config_files
              {| files := fs_m; log := log w_a ++ msgs1 |} config_files_nodup)
    as (fs_c & msgs2 & Hrun2 & Hframe2 & Hmoved2).
  { intros cf Hcf. destruct (config_files_shape cf Hcf) as (dir & file & -> & _).
    eauto. }
  { exact Harp_m. }
  { intros cf Hcf. cbn [files]. unfold is_dir.
    rewrite !(Hcfg_m cf) by auto. apply Hcfg, Hcf. }
  cbn [files log] in Hframe2, Hmoved2.
  assert (Hdens : forall d r q, is_child main_res d = true ->
             Str.prefix "mipmap-" (name d) = true ->
             q = d ++ r \/ q = dest d ++ r -> fs_c !! q = fs_m !! q).
  { intros d r q Hc Hm Hq.
    destruct (Hframe2 q) as [H|(_ & _ & cf & Hcf & Hs)]; [|exact H|].
    - intros cf Hcf.
      destruct (density_not_config d cf r Hc Hm Hcf) as [(H1 & H2 & _) (H3 & H4 & _)].
      destruct Hq as [-> | ->]; auto.
    - destruct (density_not_config d cf r Hc Hm Hcf) as [(_ & _ & H1) (_ & _ & H2)].
      destruct Hq as [-> | ->]; congruence. }
  eexists. split; [|split; [|split; [|split]]].
  - unfold move_assets_to_flavor.
    unfold bind at 1. cbn [logging].
    unfold bind at 1. unfold effect at 1. cbn [files log]. rewrite Hmk.
    fold w_a. unfold bind at 1. cbn [ask files w_a].
    change (root ++ ["android"; "app"; "src"; "main"; "res"]) with main_res.
    fold l. fold w_a.
    unfold bind at 1. cbv zeta in Hrun1. rewrite Hrun1.
    unfold bind at 1. change (for_each _ _ ?w0) with
      (for_each config_files (fun config_file =>
         b <- ask (fun fs => path_exists fs (main_res ++ config_file)) ;;
         when b (effect (mkdir (parent (arp ++ config_file))) ;;
                 effect (move (main_res ++ config_file) (arp ++ config_file)) ;;
                 logging INFO "Movido archivo de configuracion")) w0).
    rewrite Hrun2. cbn [logging files log]. reflexivity.
  - cbn [files]. intros Hmain d rest Hc Hm Hdir.
    assert (Hin : In d l).
    { unfold l, glob, is_dir. rewrite <- (app_nil_r main_res), Hres, app_nil_r, Hmain.
      apply filter_In. split; [|exact Hm].
      apply in_children; [exact Hc|].
      pose proof (Hsrc_a d [] Hc) as H. rewrite app_nil_r in H. rewrite H.
      unfold is_dir in Hdir. destruct (files w !! d); [discriminate | discriminate Hdir]. }
    assert (Hdir_a : is_dir fs_a d = true).
    { pose proof (Hsrc_a d [] Hc) as H. rewrite app_nil_r in H.
      unfold is_dir in *. rewrite H. exact Hdir. }
    destruct (Hmoved1 d rest Hin Hdir_a) as (Hgone & Hthere & Hexact).
    rewrite (Hdens d rest (d ++ rest)) by auto.
    fold (dest d). rewrite (Hdens d rest (dest d ++ rest)) by auto.
    split; [exact Hgone|]. split.
    + intros x Hx. apply Hthere. rewrite Hsrc_a by exact Hc. exact Hx.
    + intros Hdd. rewrite Hexact, Hsrc_a; [reflexivity | exact Hc|].
      pose proof (Hdst_a d []) as H. rewrite app_nil_r in H.
      unfold is_dir in *. rewrite H. exact Hdd.
  - cbn [files]. intros cf c Hcf Hc. apply Hmoved2; [exact Hcf|].
    rewrite (Hcfg_m cf) by auto. exact Hc.
  - cbn [files]. intros q Hq.
    destruct (Hframe2 q) as [H|(Hn & _)].
    + intros cf Hcf. destruct (config_files_shape cf Hcf) as (dir & file & -> & _).
      split.
      * intros ->.
        pose proof (starts_with_trans _ _ _ (starts_with_prefix main_res _) Hq).
        congruence.
      * intros ->. apply starts_with_length in Hq. rewrite length_app in Hq.
        cbn in Hq. lia.
    + rewrite H. apply Harp_m, Hq.
    + rewrite (Harp_m q Hq) in Hn. discriminate.
  - cbn [files]. intros q Hq1 Hq2 Hq3.
    assert (Hm : fs_m !! q = files w !! q).
    { rewrite Hframe1.
      - rewrite Ha, Hq3. reflexivity.
      - intros d Hd. destruct (Hl d Hd) as [Hc _]. split.
        + destruct (starts_with d q) eqn:E; [|reflexivity].
          rewrite (child_eq _ _ Hc) in E.
          pose proof (starts_with_trans _ _ _ (starts_with_prefix main_res _) E).
          congruence.
        + destruct (starts_with (dest d) q) eqn:E; [|reflexivity].
          pose proof (starts_with_trans _ _ _ (starts_with_prefix arp _) E).
          congruence. }
    destruct (Hframe2 q) as [H|(_ & _ & cf & Hcf & Hs)].
    + intros cf Hcf. split; intros ->; rewrite starts_with_prefix in *; discriminate.
    + rewrite H. exact Hm.
    + destruct (config_files_shape cf Hcf) as (dir & file & -> & _).
      change (arp ++ [dir; file]) with (arp ++ [dir] ++ [file]) in Hs.
      rewrite app_assoc, parent_snoc in Hs.
      destruct (le_lt_dec (length q) (length arp)) as [Hle|Hlt].
      * rewrite (starts_with_short _ _ _ Hs Hle) in Hq3. discriminate.
      * assert (q = arp ++ [dir]) as ->.
        { apply starts_with_same_length; [exact Hs|].
          apply starts_with_length in Hs. rewrite length_app in Hs |- *.
          cbn [length] in Hs |- *. lia. }
        rewrite starts_with_prefix in Hq2. discriminate.
Qed.

End MoveApart.

Lemma distinct_root_move_succeeds_witness :
  exists w',
    move_assets_to_flavor Sample.root "demo" Sample.demo_res
      {| files := snd (Sample.launcher_icons [] Sample.fs0); log := [] |}
    = (Ok tt, w')
    /\ files w' !! (Sample.demo_res ++ ["mipmap-hdpi"; "ic_launcher.png"])
       = Some (File Binary)
    /\ files w' !! (Sample.res ++ ["mipmap-hdpi"; "ic_launcher.png"]) = None.
Proof.
  destruct (distinct_root_move_succeeds Sample.root Sample.demo_res eq_refl eq_refl
              "demo" {| files := snd (Sample.launcher_icons [] Sample.fs0); log := [] |})
    as (w' & Hrun & Hdens & _).
  - intros q c Hq. apply in_prefixes, list_elem_of_In in Hq. vm_compute in Hq.
    repeat (apply elem_of_cons in Hq as [-> | Hq]; [vm_compute; discriminate|]).
    apply elem_of_nil in Hq. contradiction.
  - intros d c _ _ _. cbn [files snd Sample.launcher_icons].
    unfold Sample.fs0, Sample.project, Sample.demo_res, Sample.res, Sample.demo_dir,
      Sample.root.
    cbn [list_to_map foldr fst snd app].
    rewrite !lookup_insert_ne by discriminate. rewrite lookup_empty. discriminate.
  - intros cf Hcf. unfold config_files in Hcf.
    repeat (destruct Hcf as [<-|Hcf];
            [vm_compute; split; [discriminate | intros H; destruct (H eq_refl)]|]).
    destruct Hcf.
  - exists w'. split; [exact Hrun|].
    destruct (Hdens eq_refl (Sample.res ++ ["mipmap-hdpi"]) ["ic_launcher.png"])
      as (Hgone & Hthere & _).
    + vm_compute. reflexivity.
    + vm_compute. reflexivity.
    + vm_compute. reflexivity.
    + split; [|exact Hgone]. apply Hthere. vm_compute. reflexivity.
Defined.

(* ===================================================================== *)
(** * Properties: the verification of the catalogs *)
(* ===================================================================== *)

(** What makes a catalog complete: it is a directory, one of its entries
    has a name that ends in [.png], and it has an entry
    [Contents.json]. *)
Lemma catalog_complete_spec (fs : filesystem) (folder : path) :
  catalog_complete fs folder = true
  <-> fs !! folder = Some Dir
      /\ (exists child, is_child folder child = true /\ fs !! child <> None
                        /\ ends_with ".png" (name child) = true)
      /\ fs !! (folder ++ ["Contents.json"]) <> None.
Proof.
  unfold catalog_complete, glob, path_exists, is_dir, fnmatch. split.
  - intros H. apply andb_true_iff in H as [H Hc]. apply andb_true_iff in H as [He Hg].
    destruct (fs !! folder) as [[c|]|] eqn:E; try discriminate.
    split; [reflexivity|]. split.
    + destruct (List.filter _ (children fs folder)) as [|child l] eqn:Ef;
        [discriminate|].
      assert (Hin : In child (List.filter (fun q => ends_with ".png" (name q))
                                (children fs folder)))
        by (rewrite Ef; left; reflexivity).
      apply filter_In in Hin as [Hin Hpng]. exists child.
      split; [eapply children_is_child, Hin|]. split; [|exact Hpng].
      unfold children in Hin.
      apply list_elem_of_In, list_elem_of_fmap in Hin as ([q x] & -> & Hin).
      apply elem_of_map_to_list, map_lookup_filter_Some in Hin as [Hin _].
      cbn. congruence.
    + destruct (fs !! (folder ++ ["Contents.json"])); [discriminate | discriminate Hc].
  - intros (Hd & (child & Hc & Hex & Hpng) & Hj). rewrite Hd. cbn [andb].
    destruct (fs !! (folder ++ ["Contents.json"])); [|congruence].
    rewrite andb_true_r.
    assert (Hin : In child (List.filter (fun q => ends_with ".png" (name q))
                              (children fs folder))).
    { apply filter_In. split; [apply in_children; assumption | exact Hpng]. }
    destruct (List.filter _ (children fs folder)); [destruct Hin | reflexivity].
Qed.

(** X9: [verify_ios_assets] returns, changes no file and logs two
    records, one for the icon catalog and then one for the launch image
    catalog.  The record of a catalog is at the info level exactly when
    the catalog is a directory that has an entry whose name ends in
    [.png] and an entry [Contents.json]; otherwise it is at the error
    level. *)
Theorem verify_ios_assets_reports (root : path) (flavor : string) (w : world) :
  let complete folder :=
    files w !! folder = Some Dir
    /\ (exists child, is_child folder child = true /\ files w !! child <> None
                      /\ ends_with ".png" (name child) = true)
    /\ files w !! (folder ++ ["Contents.json"]) <> None in
  exists icon launch,
    verify_ios_assets root flavor w
    = (Ok tt, {| files := files w; log := log w ++ [icon; launch] |})
    /\ (icon = (INFO, "iOS AppIcon.appiconset OK")
        \/ icon = (ERROR, "iOS AppIcon.appiconset incompleto"))
    /\ (icon = (INFO, "iOS AppIcon.appiconset OK")
        <-> complete (IOS_ASSETS root ++ ["AppIcon.appiconset"]))
    /\ (launch = (INFO, "iOS LaunchImage.imageset OK")
        \/ launch = (ERROR, "iOS LaunchImage.imageset incompleto"))
    /\ (launch = (INFO, "iOS LaunchImage.imageset OK")
        <-> complete (IOS_ASSETS root ++ ["LaunchImage.imageset"])).
Proof.
  intros complete.
  pose proof (catalog_complete_spec (files w) (IOS_ASSETS root ++ ["AppIcon.appiconset"]))
    as H1.
  pose proof (catalog_complete_spec (files w) (IOS_ASSETS root ++ ["LaunchImage.imageset"]))
    as H2.
  fold (complete (IOS_ASSETS root ++ ["AppIcon.appiconset"])) in H1.
  fold (complete (IOS_ASSETS root ++ ["LaunchImage.imageset"])) in H2.
  unfold verify_ios_assets, bind, ask, logging. cbn [files log].
  destruct (catalog_complete (files w) (IOS_ASSETS root ++ ["AppIcon.appiconset"]));
    cbn [files log];
    destruct (catalog_complete (files w) (IOS_ASSETS root ++ ["LaunchImage.imageset"]));
    cbn [files log]; rewrite <- app_assoc; cbn [app]; eexists _, _;
    (split; [reflexivity|]);
    (split; [first [left; reflexivity | right; reflexivity]|]);
    (split; [first [ split; [intros _; apply H1; reflexivity | intros _; reflexivity]
                   | split; [intros E; discriminate E
                            | intros E; apply H1 in E; discriminate E] ]|]);
    (split; [first [left; reflexivity | right; reflexivity]|]);
    first [ split; [intros _; apply H2; reflexivity | intros _; reflexivity]
          | split; [intros E; discriminate E
                   | intros E; apply H2 in E; discriminate E] ].
Qed.

(* ===================================================================== *)
(** * Properties: the manifest steps on the files *)
(* ===================================================================== *)

Lemma triple_any {A : Type} (P : filesystem -> Prop) (m : M A) :
  triple (fun _ _ => True) P m (fun _ _ => True).
Proof. intros w _. destruct (m w) as [[a|e] w']; exact I. Qed.

Lemma copy_leaves_target (src dst : path) (fs fs' : filesystem) :
  copy src dst fs = Ok fs' -> fs' !! dst <> None.
Proof.
  unfold copy, read, write, is_dir.
  destruct (fs !! src) as [[c|]|]; cbn [rbind]; try discriminate.
  destruct (fs !! dst) as [[c'|]|] eqn:Ed.
  - rewrite Ed. destruct (fs !! parent dst) as [[]|]; intros [= <-].
    rewrite lookup_insert_eq. discriminate.
  - destruct (fs !! (dst ++ [name src])) as [[]|];
      destruct (fs !! parent (dst ++ [name src])) as [[]|]; intros [= <-].
    all: rewrite lookup_insert_ne
      by (intros H; first [exact (snoc_ne_self _ _ H)
                          | exact (snoc_ne_self _ _ (eq_sym H))]).
    all: rewrite Ed; discriminate.
  - rewrite Ed. destruct (fs !! parent dst) as [[]|]; intros [= <-].
    rewrite lookup_insert_eq. discriminate.
Qed.

Lemma validate_and_copy_images_leaves_splash (root flavor_dir : path) :
  triple (fun _ _ => True) (fun _ => True)
    (validate_and_copy_images root flavor_dir)
    (fun _ fs => fs !! (root ++ ["splash.png"]) <> None).
Proof.
  unfold validate_and_copy_images.
  eapply triple_bind; [apply triple_any|]. intros ?.
  eapply triple_bind; [apply triple_any|]. intros b.
  eapply triple_bind; [apply triple_any|]. intros ?.
  eapply triple_bind; [apply triple_any|]. intros ok.
  eapply triple_bind; [apply triple_any|]. intros ?.
  eapply triple_bind; [apply triple_any|]. intros b'.
  eapply triple_bind; [apply triple_any|]. intros ?.
  eapply triple_bind; [apply triple_any|]. intros ok'.
  eapply triple_bind; [apply triple_any|]. intros ?.
  eapply triple_bind; [apply triple_any|]. intros ?.
  eapply triple_bind.
  - apply (triple_effect _ _ _ (fun _ fs => fs !! (root ++ ["splash.png"]) <> None)).
    + intros fs fs' _ H. eapply copy_leaves_target, H.
    + intros; exact I.
  - intros ?. apply triple_logging.
Qed.

Lemma generate_pubspec_assets_keeps (root flavor_dir q : path) :
  q <> PUBSPEC root ->
  triple (fun _ _ => True) (fun fs => fs !! q <> None)
    (generate_pubspec_assets root flavor_dir)
    (fun _ fs => fs !! q <> None).
Proof.
  intros Hq. unfold generate_pubspec_assets, load_yaml.
  eapply triple_bind; [apply triple_attempt; intros; exact I|]. intros data.
  eapply triple_bind; [apply triple_ask|]. intros config.
  eapply triple_bind; [apply triple_attempt; intros; exact I|]. intros data'.
  eapply triple_bind.
  - apply (triple_effect _ _ _ (fun _ fs => fs !! q <> None)).
    + intros fs fs' [[[H _] _] _] Hw. unfold write in Hw.
      destruct (fs !! PUBSPEC root) as [[c|]|];
        destruct (fs !! parent (PUBSPEC root)) as [[]|]; simplify_eq;
        rewrite lookup_insert_ne by congruence; exact H.
    + intros; exact I.
  - intros ?. apply triple_logging.
Qed.

(** X10: in a run, the flag [main] passes to [update_pubspec] is always
    [True]: once [validate_and_copy_images] and
    [generate_pubspec_assets] have returned, [splash.png] exists in the
    project root. *)
Theorem splash_flag_is_always_set (root : path) (flavor : string) (w w1 w2 : world) :
  validate_and_copy_images root (CONFIG_BASE root ++ [flavor]) w = (Ok tt, w1) ->
  generate_pubspec_assets root (CONFIG_BASE root ++ [flavor]) w1 = (Ok tt, w2) ->
  path_exists (files w2) (root ++ ["splash.png"]) = true.
Proof.
  intros H1 H2.
  pose proof (validate_and_copy_images_leaves_splash root (CONFIG_BASE root ++ [flavor])
                w I) as Hv.
  rewrite H1 in Hv.
  assert (Hne : root ++ ["splash.png"] <> PUBSPEC root).
  { unfold PUBSPEC. intros H. apply app_inv_head in H. discriminate. }
  pose proof (generate_pubspec_assets_keeps root (CONFIG_BASE root ++ [flavor])
                _ Hne w1 Hv) as Hg.
  rewrite H2 in Hg. unfold path_exists.
  destruct (files w2 !! (root ++ ["splash.png"])); [reflexivity | congruence].
Qed.

Lemma splash_flag_is_always_set_witness :
  path_exists
    (files (snd (generate_pubspec_assets Sample.root Sample.demo_dir
                   (snd (validate_and_copy_images Sample.root Sample.demo_dir
                           {| files := Sample.fs0; log := [] |})))))
    (Sample.root ++ ["splash.png"]) = true.
Proof.
  apply (splash_flag_is_always_set Sample.root "demo"
           {| files := Sample.fs0; log := [] |}
           (snd (validate_and_copy_images Sample.root Sample.demo_dir
                   {| files := Sample.fs0; log := [] |}))).
  - vm_compute. reflexivity.
  - vm_compute. reflexivity.
Defined.

(** X11: a section of the manifest that is present but is not a mapping
    (an empty [flutter:] or [flutter_launcher_icons:] loads as null)
    makes the merge raise [AttributeError], and an [assets] key that
    holds null makes it raise [TypeError]; and whenever
    [generate_pubspec_assets] or [update_pubspec] raises, it has changed
    no file and logged nothing. *)
Theorem manifest_steps_fail_cleanly :
  (forall flavor config d v,
     Dict.get "flutter" d = Some v -> (forall f, v <> YMap f) ->
     merge_assets flavor config (YMap d) = Raise AttributeError)
  /\ (forall flavor config d f,
        Dict.get "flutter" d = Some (YMap f) ->
        Dict.get "assets" f = Some YNull ->
        merge_assets flavor (Ok config) (YMap d) = Raise TypeError)
  /\ (forall main_color has_splash d v,
        Dict.get "flutter_launcher_icons" d = Some v
        \/ Dict.get "flutter_native_splash" d = Some v ->
        (forall m, v <> YMap m) ->
        merge_branding main_color has_splash (YMap d) = Raise AttributeError)
  /\ (forall root flavor_dir w e w',
        generate_pubspec_assets root flavor_dir w = (Raise e, w') -> w' = w)
  /\ (forall root main_color has_splash w e w',
        update_pubspec root main_color has_splash w = (Raise e, w') -> w' = w).
Proof.
  split; [|split; [|split; [|split]]].
  - intros flavor config d v Hv Hmap. cbn [merge_assets].
    rewrite (setdefault_present _ _ _ _ Hv).
    destruct v; try reflexivity. exfalso. exact (Hmap _ eq_refl).
  - intros flavor config d f Hd Hf. cbn [merge_assets].
    rewrite (setdefault_present _ _ _ _ Hd), (setdefault_present _ _ _ _ Hf).
    reflexivity.
  - intros main_color has_splash d v Hv Hmap. cbn [merge_branding].
    destruct (merge_block "flutter_launcher_icons" _ d) as [d1|e] eqn:E1;
      cbn [rbind].
    + destruct Hv as [Hv|Hv].
      * unfold merge_block in E1. rewrite (setdefault_present _ _ _ _ Hv) in E1.
        destruct v; try discriminate E1. exfalso. exact (Hmap _ eq_refl).
      * apply merge_block_spec in E1 as [_ Hk].
        unfold merge_block. rewrite (setdefault_present _ _ _ v).
        -- destruct v; try reflexivity. exfalso. exact (Hmap _ eq_refl).
        -- rewrite Hk by discriminate. exact Hv.
    + unfold merge_block in E1.
      destruct (Dict.setdefault "flutter_launcher_icons" (YMap []) d) as [[] ?];
        congruence.
  - intros root flavor_dir w e w'.
    unfold generate_pubspec_assets, bind, load_yaml, attempt, ask, effect, logging.
    destruct (rbind (read (PUBSPEC root) (files w)) _) as [data|]; [|congruence].
    destruct (merge_assets _ _ data) as [data'|]; [|congruence].
    destruct (write (PUBSPEC root) (Yaml data') (files w)); congruence.
  - intros root main_color has_splash w e w'.
    unfold update_pubspec, bind, load_yaml, attempt, effect, logging.
    destruct (rbind (read (PUBSPEC root) (files w)) _) as [data|]; [|congruence].
    destruct (merge_branding _ _ data) as [data'|]; [|congruence].
    destruct (write (PUBSPEC root) (Yaml data') (files w)); congruence.
Qed.

Lemma manifest_steps_fail_cleanly_witness :
  merge_assets "demo" (Ok Sample.demo_config) (YMap [("flutter", YNull)])
  = Raise AttributeError.
Proof.
  apply (proj1 manifest_steps_fail_cleanly "demo" (Ok Sample.demo_config)
           [("flutter", YNull)] YNull).
  - reflexivity.
  - discriminate.
Defined.

(* ===================================================================== *)
(** * Properties: the native patches on the files *)
(* ===================================================================== *)

Lemma edits_text_refl (among : path -> Prop) (fs : filesystem) :
  edits_text among fs fs.
Proof. intros q. left. reflexivity. Qed.

Lemma edits_text_step (among : path -> Prop) (fs0 fs : filesystem)
    (file : path) (t t' : string) :
  edits_text among fs0 fs -> among file ->
  fs !! file = Some (File (Text t)) ->
  edits_text among fs0 (<[file := File (Text t')]> fs).
Proof.
  intros H Hfile Ht q. destruct (decide (q = file)) as [->|Hne].
  - rewrite lookup_insert_eq. right. split; [exact Hfile|].
    destruct (H file) as [E | (_ & t0 & t1 & E0 & E1)].
    + exists t, t'. rewrite <- E, Ht. auto.
    + exists t0, t'. auto.
  - rewrite lookup_insert_ne by congruence. apply H.
Qed.

Section NativeFiles.
Variable root : path.
Variable among : path -> Prop.
Variable fs0 : filesystem.

Let R (fs : filesystem) : Prop := edits_text among fs0 fs.
Let E (e : exn) (fs : filesystem) : Prop := R fs.

Lemma patch_edits (file : path) (f : string -> result string) :
  among file -> triple E R (patch file f) (fun _ => R).
Proof.
  intros Hfile. unfold patch, read_text.
  eapply triple_bind; [apply triple_attempt; intros fs e H _; exact H|].
  intros t. cbn beta.
  eapply triple_bind.
  { apply (triple_attempt E (fun fs => R fs /\ _) (fun _ => f t)).
    intros fs e [H _] _. exact H. }
  intros t'. cbn beta. apply triple_effect.
  - intros fs fs' [[H Hread] _] Hw.
    assert (Ht : fs !! file = Some (File (Text t))).
    { unfold read in Hread. destruct (fs !! file) as [[[]|]|]; cbn in Hread; congruence. }
    unfold write in Hw. rewrite Ht in Hw.
    destruct (fs !! parent file) as [[c|]|]; simplify_eq.
    eapply edits_text_step; eauto.
  - intros fs e [[H _] _] _. exact H.
Qed.

Lemma patch_if_exists_edits (file : path) (f : string -> result string)
    (msg : string) :
  among file ->
  triple E R (b <- ask (fun fs => path_exists fs file) ;;
              when b (patch file f ;; logging INFO msg)) (fun _ => R).
Proof.
  intros Hfile.
  eapply triple_bind; [apply triple_ask|]. intros b. cbn beta.
  apply triple_when.
  - intros _. eapply triple_bind.
    + eapply triple_conseq; [|apply (patch_edits file f Hfile)|];
        [intros fs [H _]; exact H | intros u fs H; exact H].
    + intros u. apply triple_logging.
  - intros _ fs [H _]. exact H.
Qed.

End NativeFiles.

(** X12: whatever they return or raise, [update_android_config] changes
    nothing but the text of [AndroidManifest.xml] and of
    [build.gradle.kts], and [update_ios_config] nothing but the text of
    [Info.plist]: no path is created or removed, a file that is missing
    stays missing, and a path that does not hold text is not written. *)
Theorem native_patches_edit_text_only (root : path) (package_name app_name : string)
    (w : world) :
  edits_text (fun q => q = AndroidManifest root \/ q = AndroidGradle root)
             (files w)
             (files (snd (update_android_config root package_name app_name w)))
  /\ edits_text (fun q => q = iOSInfoPlist root)
                (files w)
                (files (snd (update_ios_config root package_name app_name w))).
Proof.
  split.
  - pose proof (triple_bind (fun _ => edits_text
                   (fun q => q = AndroidManifest root \/ q = AndroidGradle root)
                   (files w)) _ _ _ _ _
                  (patch_if_exists_edits _ (files w) (AndroidManifest root)
                     (update_manifest_text package_name app_name)
                     "Actualizado AndroidManifest.xml" (or_introl eq_refl))
                  (fun _ => patch_if_exists_edits _ (files w) (AndroidGradle root)
                     (update_gradle_text package_name)
                     "Actualizado build.gradle.kts" (or_intror eq_refl))
                  w (edits_text_refl _ _)) as H.
    unfold update_android_config.
    match type of H with match ?m with _ => _ end =>
      match goal with |- context [snd ?m'] => change m' with m end;
      destruct m as [[[]|e] w'] end; exact H.
  - pose proof (patch_if_exists_edits (fun q => q = iOSInfoPlist root) (files w)
                  (iOSInfoPlist root) (update_ios_text package_name app_name)
                  "Actualizado Info.plist" eq_refl w (edits_text_refl _ _)) as H.
    unfold update_ios_config.
    match type of H with match ?m with _ => _ end =>
      match goal with |- context [snd ?m'] => change m' with m end;
      destruct m as [[[]|e] w'] end; exact H.
Qed.

(* ===================================================================== *)
(** * Properties: the external generators *)
(* ===================================================================== *)

Lemma write_file (p : path) (c : content) (fs : filesystem) :
  is_dir fs p = false -> fs !! parent p = Some Dir ->
  write p c fs = Ok (<[p := File c]> fs).
Proof.
  unfold write, is_dir. intros Hd Hp.
  destruct (fs !! p) as [[c'|]|]; try discriminate; rewrite Hp; reflexivity.
Qed.

Section Generators.
Variable root : path.
Variables g1 g2 : path -> filesystem -> bool * filesystem.
Variables flavor main_color : string.
Variable w : world.

Let dir : path := CONFIG_BASE root ++ [flavor].
Let icons_yaml : path := dir ++ ["flutter_launcher_icons-" +:+ flavor +:+ ".yaml"].
Let splash_yaml : path := dir ++ ["flutter_native_splash-" +:+ flavor +:+ ".yaml"].

(** The files when the first generator starts. *)
Let configured : filesystem :=
  <[splash_yaml := File (Yaml (splash_cfg flavor main_color))]>
    (<[icons_yaml := File (Yaml (icons_cfg flavor main_color))]> (files w)).

Hypothesis Hdir : files w !! dir = Some Dir.
Hypothesis Hicons : is_dir (files w) icons_yaml = false.
Hypothesis Hsplash : is_dir (files w) splash_yaml = false.

Lemma generate_and_run_configured :
  generate_and_run root g1 g2 flavor main_color w
  = try_except
      (subprocess_run (g1 icons_yaml) ;;
       logging INFO "Iconos generados correctamente" ;;
       subprocess_run (g2 splash_yaml) ;;
       logging INFO "Splash screen generado correctamente")
      (fun e => match e with CalledProcessError => true | _ => false end)
      (logging ERROR "Error al generar assets" ;; sys_exit 1)
      {| files := configured;
         log := log w ++ [(INFO, "Generado flutter_launcher_icons");
                          (INFO, "Generado flutter_native_splash")] |}.
Proof.
  assert (Hne : icons_yaml <> splash_yaml).
  { unfold icons_yaml, splash_yaml. intros H. apply app_inv_head in H.
    discriminate H. }
  assert (Hnd : dir <> icons_yaml).
  { unfold icons_yaml. intros H. symmetry in H. exact (snoc_ne_self _ _ H). }
  unfold generate_and_run. fold dir. fold icons_yaml. fold splash_yaml.
  unfold bind at 1. unfold effect at 1.
  rewrite (write_file _ _ _ Hicons) by (unfold icons_yaml; rewrite parent_snoc; exact Hdir).
  unfold bind at 1. cbn [logging files log].
  unfold bind at 1. unfold effect at 1. cbn [files log].
  rewrite write_file.
  2:{ unfold is_dir in *. rewrite lookup_insert_ne by exact Hne. exact Hsplash. }
  2:{ unfold splash_yaml at 1. rewrite parent_snoc.
      rewrite lookup_insert_ne by congruence. exact Hdir. }
  unfold bind at 1. cbn [logging files log].
  rewrite <- app_assoc. reflexivity.
Qed.

End Generators.

(** X13: [generate_and_run] first writes the two configuration files of
    the generators, replacing whatever they held, and only then runs the
    generators on them.  If the icon generator fails, the splash
    generator is not run; if either fails, an error is logged and the
    process ends with status 1 ([SystemExit 1]), with the files as the
    failed generator left them: what the script wrote before is not
    taken back.  (The flavor directory is assumed to exist and the two
    paths not to be directories.) *)
Theorem failed_generator_ends_run (root : path)
    (g1 g2 : path -> filesystem -> bool * filesystem)
    (flavor main_color : string) (w : world) :
  let dir := CONFIG_BASE root ++ [flavor] in
  let icons_yaml := dir ++ ["flutter_launcher_icons-" +:+ flavor +:+ ".yaml"] in
  let splash_yaml := dir ++ ["flutter_native_splash-" +:+ flavor +:+ ".yaml"] in
  let configured :=
    <[splash_yaml := File (Yaml (splash_cfg flavor main_color))]>
      (<[icons_yaml := File (Yaml (icons_cfg flavor main_color))]> (files w)) in
  files w !! dir = Some Dir ->
  is_dir (files w) icons_yaml = false ->
  is_dir (files w) splash_yaml = false ->
  (forall fs1, g1 icons_yaml configured = (false, fs1) ->
     generate_and_run root g1 g2 flavor main_color w
     = (Raise (SystemExit 1),
        {| files := fs1;
           log := log w ++ [(INFO, "Generado flutter_launcher_icons");
                            (INFO, "Generado flutter_native_splash");
                            (ERROR, "Error al generar assets")] |}))
  /\ (forall fs1 fs2, g1 icons_yaml configured = (true, fs1) ->
        g2 splash_yaml fs1 = (false, fs2) ->
        generate_and_run root g1 g2 flavor main_color w
        = (Raise (SystemExit 1),
           {| files := fs2;
              log := log w ++ [(INFO, "Generado flutter_launcher_icons");
                               (INFO, "Generado flutter_native_splash");
                               (INFO, "Iconos generados correctamente");
                               (ERROR, "Error al generar assets")] |}))
  /\ (forall fs1 fs2, g1 icons_yaml configured = (true, fs1) ->
        g2 splash_yaml fs1 = (true, fs2) ->
        generate_and_run root g1 g2 flavor main_color w
        = (Ok tt,
           {| files := fs2;
              log := log w ++ [(INFO, "Generado flutter_launcher_icons");
                               (INFO, "Generado flutter_native_splash");
                               (INFO, "Iconos generados correctamente");
                               (INFO, "Splash screen generado correctamente")] |})).
Proof.
  intros dir icons_yaml splash_yaml configured Hdir Hi Hs.
  rewrite (generate_and_run_configured root g1 g2 flavor main_color w Hdir Hi Hs).
  fold dir. fold icons_yaml. fold splash_yaml. fold configured.
  split; [|split].
  - intros fs1 H1. unfold try_except, bind, subprocess_run. cbn [files log].
    rewrite H1. cbn [logging sys_exit raise files log].
    rewrite <- app_assoc. reflexivity.
  - intros fs1 fs2 H1 H2. unfold try_except, bind, subprocess_run. cbn [files log].
    rewrite H1. cbn [logging files log]. rewrite H2.
    cbn [logging sys_exit raise files log].
    rewrite <- !app_assoc. reflexivity.
  - intros fs1 fs2 H1 H2. unfold try_except, bind, subprocess_run. cbn [files log].
    rewrite H1. cbn [logging files log]. rewrite H2.
    cbn [logging files log].
    rewrite <- !app_assoc. reflexivity.
Qed.

Lemma failed_generator_ends_run_witness :
  exists w',
    generate_and_run Sample.root (fun _ fs => (false, fs)) Sample.native_splash
      "demo" "#1A2B3C" {| files := Sample.fs0; log := [] |}
    = (Raise (SystemExit 1), w')
    /\ In (ERROR, "Error al generar assets") (log w').
Proof.
  destruct (failed_generator_ends_run Sample.root (fun _ fs => (false, fs))
              Sample.native_splash "demo" "#1A2B3C"
              {| files := Sample.fs0; log := [] |}) as (H & _ & _).
  - vm_compute. reflexivity.
  - vm_compute. reflexivity.
  - vm_compute. reflexivity.
  - eexists. split; [apply H; reflexivity|]. cbn. auto.
Defined.

(* ===================================================================== *)
(** * Properties: what the manifest merges keep *)
(* ===================================================================== *)

Section DictUpdate.
Context {V : Type}.
Implicit Types (m other : list (string * V)) (k : string) (v : V).

Lemma set_id k v m : Dict.get k m = Some v -> Dict.set k v m = m.
Proof.
  induction m as [|[k' v'] m IH]; cbn [Dict.get Dict.set]; [discriminate|].
  destruct (String.eqb k' k); [intros [= ->]; reflexivity|].
  intros H. rewrite (IH H). reflexivity.
Qed.

Lemma keys_set k v m :
  fst <$> Dict.set k v m
  = (fst <$> m) ++ match Dict.get k m with Some _ => [] | None => [k] end.
Proof.
  induction m as [|[k' v'] m IH]; cbn [Dict.get Dict.set fmap list_fmap];
    [reflexivity|].
  destruct (String.eqb k' k); cbn [fmap list_fmap fst app].
  - rewrite app_nil_r. reflexivity.
  - change (list_fmap _ _ fst ?l) with (fst <$> l). rewrite IH. reflexivity.
Qed.

Lemma update_cons m k v other :
  Dict.update m ((k, v) :: other) = Dict.update (Dict.set k v m) other.
Proof. reflexivity. Qed.

Lemma get_update_other k m other :
  ~ In k (fst <$> other) -> Dict.get k (Dict.update m other) = Dict.get k m.
Proof.
  revert m. induction other as [|[k' v'] other IH]; intros m H; [reflexivity|].
  rewrite update_cons, IH by (intros Hin; apply H; right; exact Hin).
  apply get_set_ne. intros ->. apply H. left. reflexivity.
Qed.

Lemma get_update_in k v m other :
  List.NoDup (fst <$> other) -> In (k, v) other ->
  Dict.get k (Dict.update m other) = Some v.
Proof.
  revert m. induction other as [|[k' v'] other IH]; intros m Hnd; [intros []|].
  apply List.NoDup_cons_iff in Hnd as [Hk Hnd].
  rewrite update_cons. intros [[= -> ->] | Hin].
  - rewrite get_update_other by exact Hk. apply get_set_eq.
  - apply IH; assumption.
Qed.

Lemma update_id m other :
  (forall k v, In (k, v) other -> Dict.get k m = Some v) ->
  Dict.update m other = m.
Proof.
  induction other as [|[k v] other IH]; intros H; [reflexivity|].
  rewrite update_cons, set_id by (apply H; left; reflexivity).
  apply IH. intros k' v' Hin. apply H. right. exact Hin.
Qed.

Lemma update_update m other :
  List.NoDup (fst <$> other) ->
  Dict.update (Dict.update m other) other = Dict.update m other.
Proof.
  intros Hnd. apply update_id. intros k v Hin. apply get_update_in; assumption.
Qed.

End DictUpdate.

Lemma launcher_icons_keys (main_color : string) :
  List.NoDup (fst <$> launcher_icons_block main_color).
Proof.
  cbn. repeat (apply List.NoDup_cons; [cbn; intuition discriminate|]).
  apply List.NoDup_nil.
Qed.

Lemma native_splash_keys (main_color : string) :
  List.NoDup (fst <$> native_splash_block main_color).
Proof.
  cbn. repeat (apply List.NoDup_cons; [cbn; intuition discriminate|]).
  apply List.NoDup_nil.
Qed.

(** Merging a block where it was merged before changes nothing. *)
Lemma merge_block_again key block m d :
  List.NoDup (fst <$> block) ->
  Dict.get key d = Some (YMap (Dict.update m block)) ->
  merge_block key block d = Ok d.
Proof.
  intros Hnd Hget. unfold merge_block.
  rewrite (setdefault_present _ _ _ _ Hget), update_update by exact Hnd.
  rewrite set_id by exact Hget. reflexivity.
Qed.

Lemma merge_branding_twice main_color b1 b2 data data1 :
  merge_branding main_color b1 data = Ok data1 ->
  merge_branding main_color b2 data1 = Ok data1.
Proof.
  destruct data as [| | | | |d]; try discriminate. intros H.
  apply merge_branding_spec in H as (d' & m1 & m2 & -> & H1 & H2).
  cbn [merge_branding].
  rewrite (merge_block_again _ _ m1) by (apply launcher_icons_keys || exact H1).
  cbn [rbind].
  rewrite (merge_block_again _ _ m2) by (apply native_splash_keys || exact H2).
  reflexivity.
Qed.

Lemma update_pubspec_twice root main_color b1 b2 w w1 :
  update_pubspec root main_color b1 w = (Ok tt, w1) ->
  exists w2, update_pubspec root main_color b2 w1 = (Ok tt, w2)
             /\ files w2 = files w1.
Proof.
  unfold update_pubspec, bind, load_yaml, attempt, effect, logging, write, read,
    PUBSPEC.
  rewrite parent_snoc.
  destruct (files w !! (root ++ ["pubspec.yaml"])) as [[[? ?|?|data|?|]|]|] eqn:Ep;
    cbn; try (intros [=]; fail).
  destruct (merge_branding main_color b1 data) as [data1|] eqn:Em;
    cbn; try (intros [=]; fail).
  destruct (files w !! root) as [[]|] eqn:Er; cbn; try (intros [=]; fail).
  intros [= <-]. cbn.
  rewrite lookup_insert_eq. cbn. rewrite (merge_branding_twice _ _ b2 _ _ Em). cbn.
  rewrite lookup_insert_ne by apply snoc_ne_self. rewrite Er.
  eexists. split; [reflexivity|]. cbn. apply insert_insert_eq.
Qed.

(** X14: [update_pubspec] is idempotent: merging the two blocks into the
    data it produced gives the same data again, and a second run of the
    step on the world the first one left succeeds and changes no file. *)
Theorem update_pubspec_idempotent :
  (forall main_color b1 b2 data data1,
     merge_branding main_color b1 data = Ok data1 ->
     merge_branding main_color b2 data1 = Ok data1)
  /\ (forall root main_color b1 b2 w w1,
        update_pubspec root main_color b1 w = (Ok tt, w1) ->
        exists w2, update_pubspec root main_color b2 w1 = (Ok tt, w2)
                   /\ files w2 = files w1).
Proof. split; [exact merge_branding_twice | exact update_pubspec_twice]. Qed.

Lemma update_pubspec_idempotent_witness :
  exists data1,
    merge_branding "#1A2B3C" true Sample.manifest = Ok data1
    /\ merge_branding "#1A2B3C" false data1 = Ok data1.
Proof.
  eexists. split; [reflexivity|].
  apply (proj1 update_pubspec_idempotent "#1A2B3C" true false Sample.manifest).
  reflexivity.
Defined.

Lemma merge_block_ok key block d m :
  block_or_absent key d m ->
  merge_block key block d = Ok (Dict.set key (YMap (Dict.update m block)) d).
Proof.
  unfold merge_block, Dict.setdefault. intros [[H ->] | H]; rewrite H.
  - rewrite set_set. reflexivity.
  - reflexivity.
Qed.

(** X15: on a manifest whose two branding keys are absent or hold
    mappings, [update_pubspec] merges without failing, and it keeps what
    it does not set: every other top-level key keeps its value, the
    top-level keys keep their order with a missing branding key added at
    the end, and inside each branding block a key that the script does
    not set keeps the value it had. *)
Theorem update_pubspec_keeps_the_rest (main_color : string) (has_splash : bool)
    (d icons splash : list (string * yaml))
    (Hicons : block_or_absent "flutter_launcher_icons" d icons)
    (Hsplash : block_or_absent "flutter_native_splash" d splash) :
  exists d' icons' splash',
    merge_branding main_color has_splash (YMap d) = Ok (YMap d')
    /\ Dict.get "flutter_launcher_icons" d' = Some (YMap icons')
    /\ Dict.get "flutter_native_splash" d' = Some (YMap splash')
    /\ (forall k, k <> "flutter_launcher_icons" -> k <> "flutter_native_splash" ->
          Dict.get k d' = Dict.get k d)
    /\ fst <$> d'
       = (fst <$> d)
         ++ match Dict.get "flutter_launcher_icons" d with
            | Some _ => [] | None => ["flutter_launcher_icons"] end
         ++ match Dict.get "flutter_native_splash" d with
            | Some _ => [] | None => ["flutter_native_splash"] end
    /\ (forall k, Dict.get k (launcher_icons_block main_color) = None ->
          Dict.get k icons' = Dict.get k icons)
    /\ (forall k, Dict.get k (native_splash_block main_color) = None ->
          Dict.get k splash' = Dict.get k splash).
Proof.
  assert (Hkeys : forall (block : list (string * yaml)) k,
             Dict.get k block = None -> ~ In k (fst <$> block)).
  { intros block k. induction block as [|[k' v'] block IH]; cbn [Dict.get];
      [intros _ []|].
    destruct (String.eqb_spec k' k); [discriminate|].
    intros H [H'|H']; [exact (n H') | exact (IH H H')]. }
  assert (Hsplash1 : block_or_absent "flutter_native_splash"
            (Dict.set "flutter_launcher_icons"
               (YMap (Dict.update icons (launcher_icons_block main_color))) d)
            splash).
  { unfold block_or_absent. rewrite get_set_ne by discriminate. exact Hsplash. }
  eexists _, _, _. cbn [merge_branding].
  rewrite (merge_block_ok _ _ _ _ Hicons). cbn [rbind].
  rewrite (merge_block_ok _ _ _ _ Hsplash1). cbn [rbind].
  split; [reflexivity|].
  split; [rewrite get_set_ne by discriminate; apply get_set_eq|].
  split; [apply get_set_eq|].
  split; [intros k H1 H2; rewrite !get_set_ne by congruence; reflexivity|].
  split.
  - rewrite !keys_set, get_set_ne by discriminate. rewrite <- app_assoc. reflexivity.
  - split; intros k Hk; apply get_update_other, Hkeys, Hk.
Qed.

Lemma update_pubspec_keeps_the_rest_witness :
  exists d',
    merge_branding "#1A2B3C" true
      (YMap [("name", YStr "app");
             ("flutter_native_splash", YMap [("fullscreen", YBool true)])])
    = Ok (YMap d')
    /\ fst <$> d' = ["name"; "flutter_native_splash"; "flutter_launcher_icons"].
Proof.
  destruct (update_pubspec_keeps_the_rest "#1A2B3C" true
              [("name", YStr "app");
               ("flutter_native_splash", YMap [("fullscreen", YBool true)])]
              [] [("fullscreen", YBool true)])
    as (d' & icons' & splash' & Hrun & _ & _ & _ & Hkeys & _).
  - left. split; reflexivity.
  - right. reflexivity.
  - exists d'. split; [exact Hrun | exact Hkeys].
Defined.

Lemma existsb_yaml_In a l : existsb (yaml_eq_str a) l = true -> In (YStr a) l.
Proof.
  intros H. apply existsb_exists in H as (x & Hx & Hxa).
  destruct x; try discriminate. cbn in Hxa. apply String.eqb_eq in Hxa.
  subst. exact Hx.
Qed.

(** X16: on a manifest whose [flutter] key is absent or holds a mapping,
    with [assets] absent or a list in it, [generate_pubspec_assets]
    merges without failing, and afterwards the list holds each of the
    three paths of the flavor and each asset of the configuration; every
    other top-level key, and every other key under [flutter], keeps its
    value. *)
Theorem merge_assets_lists_every_asset (flavor : string) (config : Config)
    (d f : list (string * yaml)) (l : list yaml)
    (Hflutter : block_or_absent "flutter" d f)
    (Hassets : (Dict.get "assets" f = None /\ l = [])
               \/ Dict.get "assets" f = Some (YSeq l)) :
  exists d' f' l',
    merge_assets flavor (Ok config) (YMap d) = Ok (YMap d')
    /\ Dict.get "flutter" d' = Some (YMap f')
    /\ Dict.get "assets" f' = Some (YSeq l')
    /\ (forall a, In a (flavor_assets flavor ++ default [] (assets config)) ->
          In (YStr a) l')
    /\ (forall k, k <> "flutter" -> Dict.get k d' = Dict.get k d)
    /\ (forall k, k <> "assets" -> Dict.get k f' = Dict.get k f).
Proof.
  destruct (add_assets_seq l (flavor_assets flavor ++ default [] (assets config)))
    as (extra & Heq & _ & _).
  pose proof (add_assets_result _ _ _ Heq) as [_ Hall].
  rewrite add_assets_app in Heq.
  destruct (add_assets (YSeq l) (flavor_assets flavor)) as [a1|] eqn:E1;
    cbn [rbind] in Heq; [|discriminate].
  exists (Dict.set "flutter" (YMap (Dict.set "assets" (YSeq (l ++ extra)) f)) d),
    (Dict.set "assets" (YSeq (l ++ extra)) f), (l ++ extra).
  split.
  - cbn [merge_assets]. unfold Dict.setdefault.
    destruct Hflutter as [[Hd ->] | Hd]; rewrite Hd.
    + destruct Hassets as [[_ ->] | Ha]; [|discriminate Ha].
      cbn [Dict.get Dict.set rbind]. rewrite E1. cbn [rbind]. rewrite Heq.
      cbn [rbind]. rewrite set_set. reflexivity.
    + destruct Hassets as [[Ha ->] | Ha]; rewrite Ha; cbn [rbind];
        rewrite E1; cbn [rbind]; rewrite Heq; cbn [rbind];
        rewrite ?set_set; reflexivity.
  - split; [apply get_set_eq|]. split; [apply get_set_eq|]. split; [|split].
    + intros a Ha. apply existsb_yaml_In, present_seq, Hall, Ha.
    + intros k Hk. apply get_set_ne, Hk.
    + intros k Hk. apply get_set_ne, Hk.
Qed.

Lemma merge_assets_lists_every_asset_witness :
  exists d' f' l',
    merge_assets "demo" (Ok Sample.demo_config) Sample.manifest = Ok (YMap d')
    /\ Dict.get "flutter" d' = Some (YMap f')
    /\ Dict.get "assets" f' = Some (YSeq l')
    /\ In (YStr "assets/configs/demo/splash.png") l'.
Proof.
  destruct (merge_assets_lists_every_asset "demo" Sample.demo_config
              [("name", YStr "app")] [] [])
    as (d' & f' & l' & Hrun & Hf & Ha & Hin & _).
  - left. split; reflexivity.
  - left. split; reflexivity.
  - exists d', f', l'. repeat split; try assumption.
    apply Hin. right. left. reflexivity.
Defined.

(* ===================================================================== *)
(** * Properties: the patch of the property list *)
(* ===================================================================== *)

Local Arguments String.append : simpl nomatch.

(** ** Strings *)

Lemma sapp_assoc (a b c : string) : (a +:+ b) +:+ c = a +:+ (b +:+ c).
Proof. induction a as [|x a IH]; cbn; [reflexivity | f_equal; exact IH]. Qed.

Lemma sapp_nil_r (a : string) : a +:+ "" = a.
Proof. induction a as [|x a IH]; cbn; [reflexivity | f_equal; exact IH]. Qed.

Lemma slength_app (a b : string) :
  String.length (a +:+ b) = (String.length a + String.length b)%nat.
Proof. induction a as [|x a IH]; cbn; [reflexivity | f_equal; exact IH]. Qed.

Lemma prefix_app (k s : string) : Str.prefix k (k +:+ s) = true.
Proof.
  induction k as [|x k IH]; cbn; [reflexivity|].
  rewrite Ascii.eqb_refl. exact IH.
Qed.

Lemma prefix_weaken (k b s : string) :
  Str.prefix k b = true -> Str.prefix k (b +:+ s) = true.
Proof.
  revert b. induction k as [|x k IH]; intros [|y b]; cbn; auto; try discriminate.
  intros H. apply andb_true_iff in H as [-> H]. cbn. auto.
Qed.

(** When [k] starts a text that begins with [b], either it fits in [b] or
    it runs over the end of [b]. *)
Lemma prefix_split (k b s : string) :
  Str.prefix k (b +:+ s) = true ->
  Str.prefix k b = true
  \/ exists y, y <> "" /\ k = b +:+ y /\ Str.prefix y s = true.
Proof.
  revert b. induction k as [|x k IH]; intros b; [cbn; destruct b; auto|].
  destruct b as [|c b].
  - intros H. right. exists (String x k). repeat split; [discriminate | exact H].
  - cbn [String.append Str.prefix]. intros H. apply andb_true_iff in H as [Hx H].
    apply Ascii.eqb_eq in Hx. subst c. rewrite Ascii.eqb_refl. cbn [andb].
    destruct (IH _ H) as [Hp | (y & Hy & -> & Hp)]; [auto|].
    right. exists y. repeat split; auto.
Qed.

Lemma strip_prefix_app (l s : string) : Re.strip_prefix l (l +:+ s) = Some s.
Proof.
  induction l as [|x l IH]; cbn; [destruct s; reflexivity|].
  rewrite Ascii.eqb_refl. exact IH.
Qed.

Lemma strip_prefix_prefix (l s : string) :
  Str.prefix l s = false -> Re.strip_prefix l s = None.
Proof.
  revert s. induction l as [|x l IH]; intros [|y s]; cbn; try discriminate; auto.
  destruct (Ascii.eqb x y); cbn; auto.
Qed.

(** ** Occurrences *)

Lemma occurs_app (k t1 t2 s : string) :
  Str.occurs_in k (t1 +:+ t2) s
  = Str.occurs_in k t1 (t2 +:+ s) || Str.occurs_in k t2 s.
Proof.
  induction t1 as [|c t1 IH]; [reflexivity|].
  cbn [String.append Str.occurs_in]. rewrite IH, sapp_assoc, orb_assoc. reflexivity.
Qed.

Lemma contains_occurs (k s : string) :
  k <> "" -> Str.contains k s = Str.occurs_in k s "".
Proof.
  intros Hk. induction s as [|c s IH]; cbn [Str.contains Str.occurs_in].
  - destruct k; [congruence | reflexivity].
  - rewrite IH. cbn [String.append]. rewrite sapp_nil_r. reflexivity.
Qed.

(** A run of characters that cannot start [k] holds no occurrence. *)
Lemma occurs_run (x : ascii) (k r s : string) :
  Str.forallb (fun c => negb (Ascii.eqb x c)) r = true ->
  Str.occurs_in (String x k) r s = false.
Proof.
  induction r as [|c r IH]; [reflexivity|].
  cbn [Str.forallb Str.occurs_in String.append Str.prefix]. intros H.
  apply andb_true_iff in H as [Hc H]. apply negb_true_iff in Hc.
  rewrite Hc, IH by exact H. reflexivity.
Qed.

Lemma borders_spec (k b y s : string) :
  k = b +:+ y -> b <> "" -> y <> "" -> Str.prefix y s = true -> borders k s = true.
Proof.
  revert k. induction b as [|c b IH]; intros k -> Hb Hy Hp; [congruence|].
  cbn [String.append borders]. destruct b as [|c' b].
  - cbn [String.append]. rewrite Hp.
    destruct (String.eqb_spec y ""); [congruence | reflexivity].
  - rewrite (IH _ eq_refl) by (auto; discriminate). apply orb_true_r.
Qed.

(** Text without [k], followed by text [k] has no border with, holds no
    occurrence of [k]. *)
Lemma occurs_free (k a s : string) :
  Str.contains k a = false -> borders k s = false -> Str.occurs_in k a s = false.
Proof.
  intros Ha Hb. induction a as [|c a IH]; [reflexivity|].
  cbn [Str.contains] in Ha. apply orb_false_iff in Ha as [Hp Ha].
  cbn [Str.occurs_in]. rewrite (IH Ha), orb_false_r.
  destruct (Str.prefix k (String c a +:+ s)) eqn:E; [|reflexivity].
  apply prefix_split in E as [E | (y & Hy & Hk & E)]; [congruence|].
  rewrite (borders_spec k (String c a) y s) in Hb by (auto; discriminate).
  discriminate.
Qed.

(** ** The matcher on entries *)

Lemma many_run (cls : ascii -> bool) (min : nat)
    (k : string -> option (string * string)) (r t m rest : string) (n : nat) :
  Str.forallb cls r = true ->
  (forall c t', t = String c t' -> cls c = false) ->
  k t = Some (m, rest) ->
  (min <= n + String.length r)%nat ->
  Re.many cls min k (r +:+ t) n = Some (r +:+ m, rest).
Proof.
  intros Hr Ht Hk. revert n. induction r as [|c r IH]; intros n Hn.
  - cbn [String.append String.length] in *.
    assert (Hmin : (min <=? n)%nat = true) by (apply Nat.leb_le; lia).
    destruct t as [|c t]; cbn [Re.many]; rewrite Hmin; [exact Hk|].
    rewrite (Ht c t eq_refl). exact Hk.
  - cbn [Str.forallb] in Hr. apply andb_true_iff in Hr as [Hc Hr].
    cbn [String.append Re.many]. rewrite Hc.
    rewrite (IH Hr (S n)) by (cbn [String.length] in Hn; lia). reflexivity.
Qed.

Lemma entry_app (key ws v rest : string) :
  entry key ws v +:+ rest
  = key +:+ ws +:+ "<string>" +:+ v +:+ "</string>" +:+ rest.
Proof. unfold entry. rewrite !sapp_assoc. reflexivity. Qed.

Lemma match_lit (l : string) (p : list Re.atom) (s : string) :
  Re.match_atoms (Re.Lit l :: p) s
  = match Re.strip_prefix l s with
    | Some s' =>
        match Re.match_atoms p s' with
        | Some (m, r) => Some (l +:+ m, r)
        | None => None
        end
    | None => None
    end.
Proof. reflexivity. Qed.

Lemma match_many (cls : ascii -> bool) (min : nat) (p : list Re.atom) (s : string) :
  Re.match_atoms (Re.Many cls min :: p) s = Re.many cls min (Re.match_atoms p) s 0.
Proof. reflexivity. Qed.

Lemma match_entry (key ws v rest : string) (g : bool) :
  Str.forallb Str.is_space ws = true ->
  v <> "" -> Str.forallb not_lt v = true ->
  Re.match_atoms (Re.atoms (plist_entry key g)) (entry key ws v +:+ rest)
  = Some (entry key ws v, rest).
Proof.
  intros Hws Hv Hlt. rewrite entry_app. cbn [plist_entry Re.atoms].
  rewrite match_lit, strip_prefix_app, match_many.
  assert (H2 : Re.many not_lt 1 (Re.match_atoms [Re.Lit "</string>"])
                 (v +:+ "</string>" +:+ rest) 0
               = Some (v +:+ "</string>", rest)).
  { apply many_run.
    - exact Hlt.
    - intros c t' [= <- _]. reflexivity.
    - reflexivity.
    - destruct v; [congruence | cbn; lia]. }
  assert (H1 : Re.many Str.is_space 0
                 (Re.match_atoms [Re.Lit "<string>"; Re.Many not_lt 1;
                                  Re.Lit "</string>"])
                 (ws +:+ "<string>" +:+ v +:+ "</string>" +:+ rest) 0
               = Some (ws +:+ "<string>" +:+ v +:+ "</string>", rest)).
  { apply (many_run _ _ _ ws _ ("<string>" +:+ v +:+ "</string>")).
    - exact Hws.
    - intros c t' [= <- _]. reflexivity.
    - rewrite match_lit, (strip_prefix_app "<string>"), match_many, H2.
      reflexivity.
    - lia. }
  rewrite H1. reflexivity.
Qed.

Lemma match_needs_key (key s : string) (g : bool) :
  Str.prefix key s = false ->
  Re.match_atoms (Re.atoms (plist_entry key g)) s = None.
Proof.
  intros H. cbn [plist_entry Re.atoms].
  rewrite match_lit, (strip_prefix_prefix _ _ H). reflexivity.
Qed.

(** ** Scanning *)

Lemma app_to_cons (c : ascii) (t : string) (r : result string) :
  Re.cons_to c (Re.app_to (Ok t) r) = Re.app_to (Ok (String c t)) r.
Proof. destruct r; reflexivity. Qed.

Lemma app_to_nil (r : result string) : Re.app_to (Ok "") r = r.
Proof. destruct r; reflexivity. Qed.

Lemma scan_skip (p : Re.pattern) (repl a s : string) (k : nat) :
  Re.scan p repl (a +:+ s) (String.length a + k) = Re.scan p repl s k.
Proof.
  induction a as [|c a IH]; [reflexivity|].
  cbn [String.append String.length Nat.add Re.scan]. exact IH.
Qed.

Lemma scan_copy (key repl t s : string) (g : bool) :
  Str.occurs_in key t s = false ->
  Re.scan (plist_entry key g) repl (t +:+ s) 0
  = Re.app_to (Ok t) (Re.scan (plist_entry key g) repl s 0).
Proof.
  induction t as [|c t IH]; intros H.
  - rewrite app_to_nil. reflexivity.
  - cbn [Str.occurs_in] in H. apply orb_false_iff in H as [Hp H].
    rewrite <- app_to_cons, <- (IH H). cbn [String.append] in *.
    cbn [Re.scan]. rewrite (match_needs_key _ _ _ Hp). reflexivity.
Qed.

Lemma scan_end (key repl : string) (g : bool) :
  key <> "" -> Re.scan (plist_entry key g) repl "" 0 = Ok "".
Proof. intros H. destruct key; [congruence | reflexivity]. Qed.

Lemma scan_match (p : Re.pattern) (repl m rest : string) :
  m <> "" ->
  Re.match_atoms (Re.atoms p) (m +:+ rest) = Some (m, rest) ->
  Re.scan p repl (m +:+ rest) 0
  = Re.app_to (Re.expand m (if Re.grouped p then [m] else []) repl Re.Text)
              (Re.scan p repl rest 0).
Proof.
  destruct m as [|c m]; [congruence|]. intros _ H.
  cbn [String.append] in *. cbn [Re.scan]. rewrite H.
  cbn [String.length]. rewrite <- (Nat.add_0_r (String.length m)), scan_skip.
  reflexivity.
Qed.

(** ** Templates *)

Lemma expand_plain (whole : string) (groups : list string) (t u : string) :
  Str.forallb plain t = true ->
  Re.expand whole groups (t +:+ u) Re.Text
  = Re.app_to (Ok t) (Re.expand whole groups u Re.Text).
Proof.
  induction t as [|c t IH]; intros H.
  - rewrite app_to_nil. reflexivity.
  - cbn [Str.forallb] in H. apply andb_true_iff in H as [Hc H].
    rewrite <- app_to_cons, <- (IH H). cbn [String.append Re.expand].
    unfold plain in Hc. rewrite Hc. reflexivity.
Qed.

Lemma expand_plain_all (whole : string) (groups : list string) (t : string) :
  Str.forallb plain t = true -> Re.expand whole groups t Re.Text = Ok t.
Proof.
  intros H. rewrite <- (sapp_nil_r t) at 1. rewrite (expand_plain _ _ _ _ H).
  cbn [Re.expand]. cbn. rewrite sapp_nil_r. reflexivity.
Qed.

Lemma forallb_app (p : ascii -> bool) (a b : string) :
  Str.forallb p (a +:+ b) = Str.forallb p a && Str.forallb p b.
Proof.
  induction a as [|c a IH]; [reflexivity|].
  cbn [String.append Str.forallb]. rewrite IH, andb_assoc. reflexivity.
Qed.

(** The template of a replaced entry expands to itself. *)
Lemma expand_written (whole : string) (groups : list string) (key value : string) :
  Str.forallb plain key = true -> Str.forallb plain value = true ->
  Re.expand whole groups (written key value) Re.Text = Ok (written key value).
Proof.
  intros Hk Hv. apply expand_plain_all. unfold written.
  rewrite !forallb_app, Hk, Hv. reflexivity.
Qed.

Lemma expand_escape_n (whole : string) (groups : list string) (t : string) :
  Re.expand whole groups (String "\" (String "n" t)) Re.Text
  = Re.cons_to "010" (Re.expand whole groups t Re.Text).
Proof. reflexivity. Qed.

Lemma expand_escape_t (whole : string) (groups : list string) (t : string) :
  Re.expand whole groups (String "\" (String "t" t)) Re.Text
  = Re.cons_to "009" (Re.expand whole groups t Re.Text).
Proof. reflexivity. Qed.

Lemma expand_group_1 (whole g : string) (t : string) :
  Re.expand whole [g] (String "\" (String "1" (String "\" t))) Re.Text
  = Re.app_to (Ok g) (Re.expand whole [g] (String "\" t) Re.Text).
Proof. reflexivity. Qed.

(** The template of the inserted pair expands to the entry matched, a
    line feed and a tab, and the new pair. *)
Lemma expand_insertion (whole g app_name : string) :
  Str.forallb plain app_name = true ->
  Re.expand whole [g]
    ("\1\n\t<key>CFBundleDisplayName</key>\n\t<string>" +:+ app_name +:+ "</string>")
    Re.Text
  = Ok (g +:+ nl_tab +:+ written KEY_NAME app_name).
Proof.
  intros H.
  change ("\1\n\t<key>CFBundleDisplayName</key>\n\t<string>" +:+ app_name +:+ "</string>")
    with (String "\" (String "1" (String "\" (String "n" (String "\" (String "t"
            (KEY_NAME +:+ String "\" (String "n" (String "\" (String "t"
               ("<string>" +:+ app_name +:+ "</string>"))))))))))).
  rewrite expand_group_1, expand_escape_n, expand_escape_t.
  rewrite (expand_plain whole [g] KEY_NAME) by reflexivity.
  rewrite expand_escape_n, expand_escape_t.
  rewrite expand_plain_all by (rewrite !forallb_app, H; reflexivity).
  reflexivity.
Qed.

(** ** Substitution of one entry *)

Lemma space_clean (ws : string) :
  Str.forallb Str.is_space ws = true -> Str.forallb clean ws = true.
Proof.
  induction ws as [|c ws IH]; [reflexivity|].
  cbn [Str.forallb]. intros H. apply andb_true_iff in H as [Hc H].
  rewrite (IH H), andb_true_r.
  destruct c as [[] [] [] [] [] [] [] []]; try reflexivity; discriminate Hc.
Qed.

Lemma not_lt_clean (v : string) :
  Str.forallb not_lt v = true -> Str.forallb clean v = true.
Proof.
  induction v as [|c v IH]; [reflexivity|].
  cbn [Str.forallb]. intros H. apply andb_true_iff in H as [Hc H].
  rewrite (IH H), andb_true_r. unfold clean. rewrite Ascii.eqb_sym. exact Hc.
Qed.

Lemma occurs_weaken (k a s : string) :
  Str.occurs_in k a s = false -> Str.occurs_in k a "" = false.
Proof.
  induction a as [|c a IH]; [reflexivity|].
  cbn [Str.occurs_in]. intros H. apply orb_false_iff in H as [Hp H].
  rewrite (IH H), orb_false_r.
  destruct (Str.prefix k (String c a +:+ "")) eqn:E; [|reflexivity].
  rewrite sapp_nil_r in E. apply (prefix_weaken _ _ s) in E. congruence.
Qed.

(** A key that starts with the two characters of an opening key tag does
    not occur in the string element of an entry. *)
Lemma occurs_in_element (k sep v s : string) :
  Str.forallb clean sep = true -> Str.forallb clean v = true ->
  Str.occurs_in (String "<" (String "k" k))
                (sep +:+ "<string>" +:+ v +:+ "</string>") s = false.
Proof.
  intros Hsep Hv.
  rewrite occurs_app, (occurs_run _ _ _ _ Hsep).
  change ("<string>" +:+ v +:+ "</string>") with ("<string>" +:+ (v +:+ "</string>")).
  rewrite occurs_app, occurs_app, (occurs_run _ _ _ _ Hv). reflexivity.
Qed.

Lemma occurs_in_entry (k other ws v s : string) :
  (forall s', Str.occurs_in (String "<" (String "k" k)) other s' = false) ->
  Str.forallb clean ws = true -> Str.forallb clean v = true ->
  Str.occurs_in (String "<" (String "k" k)) (entry other ws v) s = false.
Proof.
  intros Hother Hws Hv. unfold entry.
  rewrite occurs_app, Hother, occurs_in_element by assumption. reflexivity.
Qed.

Lemma entry_nonempty (key ws v : string) : v <> "" -> entry key ws v <> "".
Proof.
  intros Hv H. apply (f_equal String.length) in H. unfold entry in H.
  rewrite !slength_app in H. destruct v; [congruence | cbn in H; lia].
Qed.

(** The entry of [key], alone of its kind between [x] and [y], is
    replaced by the expansion of the template. *)
Lemma sub_entry (key repl x ws v y r : string) (g : bool) :
  key <> "" ->
  Str.occurs_in key x (entry key ws v +:+ y) = false ->
  Str.occurs_in key y "" = false ->
  Str.forallb Str.is_space ws = true ->
  v <> "" -> Str.forallb not_lt v = true ->
  Re.expand (entry key ws v) (if g then [entry key ws v] else []) repl Re.Text
  = Ok r ->
  Re.sub (plist_entry key g) repl (x +:+ entry key ws v +:+ y)
  = Ok (x +:+ r +:+ y).
Proof.
  intros Hkey Hx Hy Hws Hv Hlt Hr. unfold Re.sub.
  rewrite (scan_copy _ _ _ _ _ Hx).
  rewrite scan_match; [|apply entry_nonempty, Hv | apply match_entry; assumption].
  cbn [plist_entry Re.grouped]. rewrite Hr.
  rewrite <- (sapp_nil_r y) at 1. rewrite (scan_copy _ _ _ _ _ Hy).
  rewrite (scan_end _ _ _ Hkey). cbn [Re.app_to rbind rmap].
  rewrite sapp_nil_r. reflexivity.
Qed.

Lemma contains_intro (k x z : string) : Str.contains k (x +:+ k +:+ z) = true.
Proof.
  induction x as [|c x IH].
  - cbn [String.append]. destruct (k +:+ z) eqn:E; cbn [Str.contains];
      rewrite <- E, prefix_app; reflexivity.
  - cbn [String.append Str.contains]. rewrite IH. apply orb_true_r.
Qed.

(** ** The two keys *)

Lemma contains_app_false (k a b : string) :
  k <> "" -> Str.contains k (a +:+ b) = false ->
  Str.contains k a = false /\ Str.contains k b = false.
Proof.
  intros Hk H. rewrite contains_occurs in H by exact Hk.
  rewrite occurs_app in H. apply orb_false_iff in H as [Ha Hb].
  rewrite !contains_occurs by exact Hk. split; [|exact Hb].
  apply (occurs_weaken _ _ _ Ha).
Qed.

Lemma id_not_in_name (s : string) : Str.occurs_in KEY_ID KEY_NAME s = false.
Proof. reflexivity. Qed.

Lemma name_not_in_id (s : string) : Str.occurs_in KEY_NAME KEY_ID s = false.
Proof. reflexivity. Qed.

Lemma borders_id_id (s : string) : borders KEY_ID (KEY_ID +:+ s) = false.
Proof. reflexivity. Qed.

Lemma borders_id_name (s : string) : borders KEY_ID (KEY_NAME +:+ s) = false.
Proof. reflexivity. Qed.

Lemma borders_name_id (s : string) : borders KEY_NAME (KEY_ID +:+ s) = false.
Proof. reflexivity. Qed.

Lemma borders_name_name (s : string) : borders KEY_NAME (KEY_NAME +:+ s) = false.
Proof. reflexivity. Qed.

Lemma key_id_nonempty : KEY_ID <> "".
Proof. discriminate. Qed.

Lemma key_name_nonempty : KEY_NAME <> "".
Proof. discriminate. Qed.

(** An entry of one key holds no occurrence of the other. *)
Lemma id_not_in_name_entry (ws v s : string) :
  Str.forallb clean ws = true -> Str.forallb clean v = true ->
  Str.occurs_in KEY_ID (entry KEY_NAME ws v) s = false.
Proof. apply (occurs_in_entry "ey>CFBundleIdentifier</key>"), id_not_in_name. Qed.

Lemma name_not_in_id_entry (ws v s : string) :
  Str.forallb clean ws = true -> Str.forallb clean v = true ->
  Str.occurs_in KEY_NAME (entry KEY_ID ws v) s = false.
Proof. apply (occurs_in_entry "ey>CFBundleDisplayName</key>"), name_not_in_id. Qed.

Lemma written_entry (key value : string) : written key value = entry key nl_tab value.
Proof. reflexivity. Qed.

Lemma package_name_nonempty (flavor : string) : package_name_of flavor <> "".
Proof. discriminate. Qed.

Lemma package_name_plain (flavor : string) :
  Str.forallb plain flavor = true -> Str.forallb plain (package_name_of flavor) = true.
Proof. intros H. unfold package_name_of. rewrite forallb_app, H. reflexivity. Qed.

Lemma package_name_not_lt (flavor : string) :
  Str.forallb not_lt flavor = true ->
  Str.forallb not_lt (package_name_of flavor) = true.
Proof. intros H. unfold package_name_of. rewrite forallb_app, H. reflexivity. Qed.

(** ** The patch of the property list *)

Section IosPatch.

Variables flavor app_name : string.
Hypothesis Hflavor_plain : Str.forallb plain flavor = true.
Hypothesis Hflavor_lt : Str.forallb not_lt flavor = true.
Hypothesis Hname : Str.forallb plain app_name = true.

Let pkg : string := package_name_of flavor.

Lemma expand_id_template (whole : string) (groups : list string) :
  Re.expand whole groups
    (KEY_ID +:+ nl_tab +:+ "<string>" +:+ pkg +:+ "</string>") Re.Text
  = Ok (written KEY_ID pkg).
Proof. apply expand_written; [reflexivity | apply package_name_plain, Hflavor_plain]. Qed.

Lemma expand_name_template (whole : string) (groups : list string) :
  Re.expand whole groups
    (KEY_NAME +:+ nl_tab +:+ "<string>" +:+ app_name +:+ "</string>") Re.Text
  = Ok (written KEY_NAME app_name).
Proof. apply expand_written; [reflexivity | exact Hname]. Qed.

Lemma pkg_clean : Str.forallb clean pkg = true.
Proof. apply not_lt_clean, package_name_not_lt, Hflavor_lt. Qed.

(** No display-name key: the identifier is replaced and the pair is
    inserted after it. *)
Lemma ios_patch_inserts (pre ws v post : string) :
  Str.forallb Str.is_space ws = true -> v <> "" -> Str.forallb not_lt v = true ->
  Str.contains KEY_ID pre = false -> Str.contains KEY_ID post = false ->
  Str.contains KEY_NAME (pre +:+ entry KEY_ID ws v +:+ post) = false ->
  update_ios_text pkg app_name (pre +:+ entry KEY_ID ws v +:+ post)
  = Ok (pre +:+ written KEY_ID pkg +:+ nl_tab +:+ written KEY_NAME app_name +:+ post).
Proof.
  intros Hws Hv Hlt Hpre Hpost Habsent.
  apply contains_app_false in Habsent as [Hn_pre Habsent]; [|discriminate].
  apply contains_app_false in Habsent as [_ Hn_post]; [|discriminate].
  unfold update_ios_text.
  rewrite (sub_entry KEY_ID _ pre ws v post (written KEY_ID pkg) false);
    [ | apply key_id_nonempty
      | apply occurs_free; [exact Hpre|]; rewrite entry_app; apply borders_id_id
      | rewrite <- contains_occurs by discriminate; exact Hpost
      | exact Hws | exact Hv | exact Hlt
      | apply expand_id_template ].
  cbn [rbind].
  assert (Hno : Str.contains KEY_NAME (pre +:+ written KEY_ID pkg +:+ post) = false).
  { rewrite contains_occurs by discriminate.
    rewrite occurs_app, occurs_app. rewrite !orb_false_iff. repeat split.
    - apply occurs_free; [exact Hn_pre|].
      rewrite written_entry, sapp_nil_r, entry_app. apply borders_name_id.
    - rewrite written_entry. apply name_not_in_id_entry; [reflexivity | apply pkg_clean].
    - rewrite <- contains_occurs by discriminate. exact Hn_post. }
  rewrite Hno. rewrite (written_entry KEY_ID pkg).
  rewrite (sub_entry KEY_ID _ pre nl_tab pkg post
             (entry KEY_ID nl_tab pkg +:+ nl_tab +:+ written KEY_NAME app_name) true).
  - rewrite !sapp_assoc. reflexivity.
  - apply key_id_nonempty.
  - apply occurs_free; [exact Hpre|]. rewrite entry_app. apply borders_id_id.
  - rewrite <- contains_occurs by discriminate. exact Hpost.
  - reflexivity.
  - apply package_name_nonempty.
  - apply package_name_not_lt, Hflavor_lt.
  - apply expand_insertion, Hname.
Qed.

(** Both keys, the identifier first: each value is replaced. *)
Lemma ios_patch_replaces_after (a ws1 v1 b ws2 v2 c : string) :
  Str.forallb Str.is_space ws1 = true -> v1 <> "" -> Str.forallb not_lt v1 = true ->
  Str.forallb Str.is_space ws2 = true -> v2 <> "" -> Str.forallb not_lt v2 = true ->
  Str.contains KEY_ID a = false -> Str.contains KEY_ID b = false ->
  Str.contains KEY_ID c = false ->
  Str.contains KEY_NAME a = false -> Str.contains KEY_NAME b = false ->
  Str.contains KEY_NAME c = false ->
  update_ios_text pkg app_name
    (a +:+ entry KEY_ID ws1 v1 +:+ b +:+ entry KEY_NAME ws2 v2 +:+ c)
  = Ok (a +:+ written KEY_ID pkg +:+ b +:+ written KEY_NAME app_name +:+ c).
Proof.
  intros Hws1 Hv1 Hlt1 Hws2 Hv2 Hlt2 Hia Hib Hic Hna Hnb Hnc.
  unfold update_ios_text.
  rewrite (sub_entry KEY_ID _ a ws1 v1 (b +:+ entry KEY_NAME ws2 v2 +:+ c)
             (written KEY_ID pkg) false);
    [ | apply key_id_nonempty
      | apply occurs_free; [exact Hia|]; rewrite entry_app; apply borders_id_id
      | | exact Hws1 | exact Hv1 | exact Hlt1 | apply expand_id_template ].
  2: { rewrite occurs_app, occurs_app. rewrite !orb_false_iff. repeat split.
       - apply occurs_free; [exact Hib|]. rewrite sapp_nil_r, entry_app.
         apply borders_id_name.
       - apply id_not_in_name_entry; [apply space_clean | apply not_lt_clean]; assumption.
       - rewrite <- contains_occurs by discriminate. exact Hic. }
  cbn [rbind].
  replace (a +:+ written KEY_ID pkg +:+ b +:+ entry KEY_NAME ws2 v2 +:+ c)
    with ((a +:+ written KEY_ID pkg +:+ b) +:+ KEY_NAME
          +:+ (ws2 +:+ "<string>" +:+ v2 +:+ "</string>" +:+ c))
    by (rewrite <- entry_app, !sapp_assoc; reflexivity).
  rewrite contains_intro.
  replace ((a +:+ written KEY_ID pkg +:+ b) +:+ KEY_NAME
           +:+ (ws2 +:+ "<string>" +:+ v2 +:+ "</string>" +:+ c))
    with ((a +:+ written KEY_ID pkg +:+ b) +:+ entry KEY_NAME ws2 v2 +:+ c)
    by (rewrite entry_app; reflexivity).
  rewrite (sub_entry KEY_NAME _ (a +:+ written KEY_ID pkg +:+ b) ws2 v2 c
             (written KEY_NAME app_name) false);
    [ | apply key_name_nonempty | | | exact Hws2 | exact Hv2 | exact Hlt2 | ].
  - rewrite !sapp_assoc. reflexivity.
  - rewrite occurs_app, occurs_app. rewrite !orb_false_iff. repeat split.
    + apply occurs_free; [exact Hna|]. rewrite written_entry, !sapp_assoc, entry_app.
      apply borders_name_id.
    + rewrite written_entry. apply name_not_in_id_entry; [reflexivity | apply pkg_clean].
    + apply occurs_free; [exact Hnb|]. rewrite entry_app. apply borders_name_name.
  - rewrite <- contains_occurs by discriminate. exact Hnc.
  - apply expand_name_template.
Qed.

(** Both keys, the display name first: each value is replaced. *)
Lemma ios_patch_replaces_before (a ws2 v2 b ws1 v1 c : string) :
  Str.forallb Str.is_space ws1 = true -> v1 <> "" -> Str.forallb not_lt v1 = true ->
  Str.forallb Str.is_space ws2 = true -> v2 <> "" -> Str.forallb not_lt v2 = true ->
  Str.contains KEY_ID a = false -> Str.contains KEY_ID b = false ->
  Str.contains KEY_ID c = false ->
  Str.contains KEY_NAME a = false -> Str.contains KEY_NAME b = false ->
  Str.contains KEY_NAME c = false ->
  update_ios_text pkg app_name
    (a +:+ entry KEY_NAME ws2 v2 +:+ b +:+ entry KEY_ID ws1 v1 +:+ c)
  = Ok (a +:+ written KEY_NAME app_name +:+ b +:+ written KEY_ID pkg +:+ c).
Proof.
  intros Hws1 Hv1 Hlt1 Hws2 Hv2 Hlt2 Hia Hib Hic Hna Hnb Hnc.
  unfold update_ios_text.
  replace (a +:+ entry KEY_NAME ws2 v2 +:+ b +:+ entry KEY_ID ws1 v1 +:+ c)
    with ((a +:+ entry KEY_NAME ws2 v2 +:+ b) +:+ entry KEY_ID ws1 v1 +:+ c)
    by (rewrite !sapp_assoc; reflexivity).
  rewrite (sub_entry KEY_ID _ (a +:+ entry KEY_NAME ws2 v2 +:+ b) ws1 v1 c
             (written KEY_ID pkg) false);
    [ | apply key_id_nonempty | | | exact Hws1 | exact Hv1 | exact Hlt1 | ].
  2: { rewrite occurs_app, occurs_app. rewrite !orb_false_iff. repeat split.
       - apply occurs_free; [exact Hia|]. rewrite !sapp_assoc, entry_app.
         apply borders_id_name.
       - apply id_not_in_name_entry; [apply space_clean | apply not_lt_clean]; assumption.
       - apply occurs_free; [exact Hib|]. rewrite entry_app. apply borders_id_id. }
  2: { rewrite <- contains_occurs by discriminate. exact Hic. }
  2: { apply expand_id_template. }
  cbn [rbind].
  replace ((a +:+ entry KEY_NAME ws2 v2 +:+ b) +:+ written KEY_ID pkg +:+ c)
    with (a +:+ KEY_NAME +:+ (ws2 +:+ "<string>" +:+ v2 +:+ "</string>"
                              +:+ b +:+ written KEY_ID pkg +:+ c))
    by (rewrite <- entry_app, !sapp_assoc; reflexivity).
  rewrite contains_intro.
  replace (a +:+ KEY_NAME +:+ (ws2 +:+ "<string>" +:+ v2 +:+ "</string>"
                               +:+ b +:+ written KEY_ID pkg +:+ c))
    with (a +:+ entry KEY_NAME ws2 v2 +:+ (b +:+ written KEY_ID pkg +:+ c))
    by (rewrite entry_app; reflexivity).
  rewrite (sub_entry KEY_NAME _ a ws2 v2 (b +:+ written KEY_ID pkg +:+ c)
             (written KEY_NAME app_name) false);
    [ | apply key_name_nonempty | | | exact Hws2 | exact Hv2 | exact Hlt2 | ].
  - reflexivity.
  - apply occurs_free; [exact Hna|]. rewrite entry_app. apply borders_name_name.
  - rewrite occurs_app, occurs_app. rewrite !orb_false_iff. repeat split.
    + apply occurs_free; [exact Hnb|]. rewrite written_entry, sapp_nil_r, entry_app.
      apply borders_name_id.
    + rewrite written_entry. apply name_not_in_id_entry; [reflexivity | apply pkg_clean].
    + rewrite <- contains_occurs by discriminate. exact Hnc.
  - apply expand_name_template.
Qed.

End IosPatch.

(** Three shapes of a property list, each key standing once in an entry
    (the key, optional white space and a string element with a non-empty
    text free of opening angle brackets): the identifier value becomes
    the package name; the display-name value becomes the new name when
    its key is there, and otherwise the pair is inserted right after the
    identifier entry.  The flavor and the name hold no backslash, the
    flavor no opening angle bracket. *)
Theorem ios_patch_on_well_formed_entries (flavor app_name : string)
    (Hflavor_plain : Str.forallb plain flavor = true)
    (Hflavor_lt : Str.forallb not_lt flavor = true)
    (Hname : Str.forallb plain app_name = true) :
  (forall pre ws v post,
     Str.forallb Str.is_space ws = true -> v <> "" -> Str.forallb not_lt v = true ->
     Str.contains KEY_ID pre = false -> Str.contains KEY_ID post = false ->
     Str.contains KEY_NAME (pre +:+ entry KEY_ID ws v +:+ post) = false ->
     update_ios_text (package_name_of flavor) app_name
       (pre +:+ entry KEY_ID ws v +:+ post)
     = Ok (pre +:+ written KEY_ID (package_name_of flavor) +:+ nl_tab
               +:+ written KEY_NAME app_name +:+ post))
  /\ (forall a ws1 v1 b ws2 v2 c,
        Str.forallb Str.is_space ws1 = true -> v1 <> "" ->
        Str.forallb not_lt v1 = true ->
        Str.forallb Str.is_space ws2 = true -> v2 <> "" ->
        Str.forallb not_lt v2 = true ->
        Str.contains KEY_ID a = false -> Str.contains KEY_ID b = false ->
        Str.contains KEY_ID c = false ->
        Str.contains KEY_NAME a = false -> Str.contains KEY_NAME b = false ->
        Str.contains KEY_NAME c = false ->
        update_ios_text (package_name_of flavor) app_name
          (a +:+ entry KEY_ID ws1 v1 +:+ b +:+ entry KEY_NAME ws2 v2 +:+ c)
        = Ok (a +:+ written KEY_ID (package_name_of flavor) +:+ b
                +:+ written KEY_NAME app_name +:+ c)
        /\ update_ios_text (package_name_of flavor) app_name
             (a +:+ entry KEY_NAME ws2 v2 +:+ b +:+ entry KEY_ID ws1 v1 +:+ c)
           = Ok (a +:+ written KEY_NAME app_name +:+ b
                   +:+ written KEY_ID (package_name_of flavor) +:+ c)).
Proof.
  split.
  - intros. apply ios_patch_inserts; assumption.
  - intros. split.
    + apply ios_patch_replaces_after; assumption.
    + apply ios_patch_replaces_before; assumption.
Qed.

Lemma ios_patch_on_well_formed_entries_witness :
  update_ios_text "com.giolabs.demo" "Demo"
    ("<dict>" +:+ entry KEY_ID " " "old.id" +:+ "</dict>")
  = Ok ("<dict>" +:+ written KEY_ID "com.giolabs.demo" +:+ nl_tab
          +:+ written KEY_NAME "Demo" +:+ "</dict>").
Proof.
  apply (proj1 (ios_patch_on_well_formed_entries "demo" "Demo"
                  eq_refl eq_refl eq_refl));
    first [reflexivity | discriminate].
Defined.

(** C6 as stated fails: a display-name key whose string element is empty
    is in the text, and its value is not replaced. *)
Lemma ios_patch_keeps_empty_display_name :
  exists text out,
    update_ios_text "com.giolabs.demo" "Demo" text = Ok out
    /\ Str.contains KEY_NAME text = true
    /\ ~ ios_patch_as_specified "com.giolabs.demo" "Demo" text out.
Proof.
  exists (entry KEY_ID "" "a.b" +:+ KEY_NAME +:+ "<string></string>"),
         (written KEY_ID "com.giolabs.demo" +:+ KEY_NAME +:+ "<string></string>").
  split; [reflexivity|]. split; [reflexivity|].
  intros [_ H].
  change (value_of KEY_NAME "Demo"
            (written KEY_ID "com.giolabs.demo" +:+ KEY_NAME +:+ "<string></string>"))
    in H.
  destruct (H (written KEY_ID "com.giolabs.demo") "<string></string>" eq_refl)
    as (ws & rest & _ & Heq).
  apply (f_equal String.length) in Heq. rewrite !slength_app in Heq.
  cbn in Heq. lia.
Qed.

(** Two more texts the patch leaves as they are: with neither key nothing
    is inserted, and an identifier with an empty string element keeps
    it. *)
Example ios_patch_without_identifier :
  update_ios_text "com.giolabs.demo" "Demo" "<dict></dict>" = Ok "<dict></dict>".
Proof. reflexivity. Qed.

Example ios_patch_empty_identifier :
  update_ios_text "com.giolabs.demo" "Demo" (KEY_ID +:+ "<string></string>")
  = Ok (KEY_ID +:+ "<string></string>").
Proof. reflexivity. Qed.

(* ===================================================================== *)
(** * Properties: the patch of the property list on any text *)
(* ===================================================================== *)

(** ** What the pattern of an entry matches *)

Lemma strip_prefix_sound (l s s' : string) :
  Re.strip_prefix l s = Some s' -> s = l +:+ s'.
Proof.
  revert s. induction l as [|a l IH]; intros s; cbn [Re.strip_prefix].
  - intros [= ->]. reflexivity.
  - destruct s as [|b s]; [discriminate|].
    destruct (Ascii.eqb_spec a b) as [->|]; [|discriminate].
    intros H. cbn [String.append]. f_equal. apply IH, H.
Qed.

Lemma many_sound (cls : ascii -> bool) (min : nat)
    (k : string -> option (string * string)) (s m rest : string) (n : nat) :
  Re.many cls min k s n = Some (m, rest) ->
  exists r t m',
    s = r +:+ t /\ m = r +:+ m' /\ Str.forallb cls r = true
    /\ k t = Some (m', rest) /\ (min <= n + String.length r)%nat.
Proof.
  revert m n. induction s as [|c s IH]; intros m n; cbn [Re.many].
  - destruct (Nat.leb_spec min n); [|discriminate]. intros Hk.
    exists "", "", m. cbn. repeat split; auto. lia.
  - assert (Hstop : (if (min <=? n)%nat then k (String c s) else None) = Some (m, rest) ->
                    exists r t m',
                      String c s = r +:+ t /\ m = r +:+ m' /\ Str.forallb cls r = true
                      /\ k t = Some (m', rest) /\ (min <= n + String.length r)%nat).
    { destruct (Nat.leb_spec min n); [|discriminate]. intros Hk.
      exists "", (String c s), m. cbn. repeat split; auto. lia. }
    destruct (cls c) eqn:Ec; [|exact Hstop].
    destruct (Re.many cls min k s (S n)) as [[m1 r1]|] eqn:E; [|exact Hstop].
    intros [= <- <-]. destruct (IH _ _ E) as (r & t & m' & -> & -> & Hr & Hk & Hn).
    exists (String c r), t, m'. cbn [String.append Str.forallb String.length].
    rewrite Ec, Hr. repeat split; auto. lia.
Qed.

(** What the pattern of an entry matches is an entry, at the start of the
    text. *)
Lemma match_entry_sound (key s m rest : string) (g : bool) :
  Re.match_atoms (Re.atoms (plist_entry key g)) s = Some (m, rest) ->
  is_entry key m /\ s = m +:+ rest.
Proof.
  cbn [plist_entry Re.atoms]. rewrite match_lit.
  destruct (Re.strip_prefix key s) as [s1|] eqn:E1; [|discriminate].
  apply strip_prefix_sound in E1. subst s.
  destruct (Re.match_atoms _ s1) as [[m1 r1]|] eqn:E2; [|discriminate].
  intros [= <- <-]. rewrite match_many in E2.
  apply many_sound in E2 as (ws & s2 & m2 & -> & -> & Hws & E2 & _).
  rewrite match_lit in E2.
  destruct (Re.strip_prefix "<string>" s2) as [s3|] eqn:E3; [|discriminate].
  apply strip_prefix_sound in E3. subst s2.
  destruct (Re.match_atoms _ s3) as [[m3 r3]|] eqn:E4; [|discriminate].
  injection E2 as <- <-. rewrite match_many in E4.
  apply many_sound in E4 as (v & s4 & m4 & -> & -> & Hv & E4 & Hn).
  rewrite match_lit in E4.
  destruct (Re.strip_prefix "</string>" s4) as [s5|] eqn:E5; [|discriminate].
  apply strip_prefix_sound in E5. subst s4.
  cbn [Re.match_atoms] in E4. injection E4 as <- <-.
  split.
  - exists ws, v. split; [exact Hws|]. split; [|split; [exact Hv|]].
    + intros ->. cbn in Hn. lia.
    + reflexivity.
  - rewrite ?sapp_nil_r, !sapp_assoc. cbn [String.append].
    rewrite ?sapp_assoc. reflexivity.
Qed.

Lemma match_entry_complete (key s : string) (g : bool) :
  Re.match_atoms (Re.atoms (plist_entry key g)) s = None -> ~ starts_entry key s.
Proof.
  intros H (m & rest & (ws & v & Hws & Hv & Hlt & ->) & ->).
  rewrite match_entry in H by assumption. discriminate.
Qed.

(** An entry stands at the start of a text exactly when the pattern
    matches there. *)
Lemma starts_entry_match (key s : string) (g : bool) :
  starts_entry key s
  <-> exists m rest,
        Re.match_atoms (Re.atoms (plist_entry key g)) s = Some (m, rest).
Proof.
  split.
  - intros (m & rest & (ws & v & Hws & Hv & Hlt & ->) & ->).
    exists (entry key ws v), rest. apply match_entry; assumption.
  - intros (m & rest & H). apply match_entry_sound in H as [Hm ->].
    exists m, rest. auto.
Qed.

(** An entry at the start of a text is the only one there. *)
Lemma entry_unique (key m1 r1 m2 r2 : string) :
  is_entry key m1 -> is_entry key m2 -> m1 +:+ r1 = m2 +:+ r2 ->
  m1 = m2 /\ r1 = r2.
Proof.
  intros (ws1 & v1 & ? & ? & ? & ->) (ws2 & v2 & ? & ? & ? & ->) Heq.
  assert (E : Some (entry key ws1 v1, r1) = Some (entry key ws2 v2, r2)).
  { rewrite <- (match_entry key ws1 v1 r1 false), <- (match_entry key ws2 v2 r2 false)
      by assumption. rewrite Heq. reflexivity. }
  injection E as -> ->. auto.
Qed.

Lemma is_entry_nonempty (key m : string) : is_entry key m -> m <> "".
Proof. intros (ws & v & _ & Hv & _ & ->). apply entry_nonempty, Hv. Qed.

Lemma is_entry_prefix (key m : string) : is_entry key m -> Str.prefix key m = true.
Proof. intros (ws & v & _ & _ & _ & ->). unfold entry. apply prefix_app. Qed.

(** One substitution of an entry pattern rewrites the entries of its key. *)
Lemma sub_rewritten (key repl : string) (g : bool) (f : string -> string) :
  key <> "" ->
  (forall m, is_entry key m ->
     Re.expand m (if g then [m] else []) repl Re.Text = Ok (f m)) ->
  forall text, exists out,
    Re.sub (plist_entry key g) repl text = Ok out
    /\ rewritten (entry_rule key f) text out.
Proof.
  intros Hkey Hf text. unfold Re.sub.
  remember (String.length text) as n eqn:Hn.
  assert (Hle : (String.length text <= n)%nat) by lia. clear Hn.
  revert text Hle. induction n as [|n IH]; intros text Hle.
  - destruct text; [|cbn in Hle; lia].
    exists "". split; [apply scan_end, Hkey | constructor].
  - destruct text as [|c s].
    { exists "". split; [apply scan_end, Hkey | constructor]. }
    destruct (Re.match_atoms (Re.atoms (plist_entry key g)) (String c s))
      as [[m rest]|] eqn:E.
    + destruct (match_entry_sound _ _ _ _ _ E) as [Hm Hs].
      rewrite Hs in E |- *.
      rewrite scan_match; [|apply (is_entry_nonempty key), Hm | exact E].
      cbn [plist_entry Re.grouped]. rewrite (Hf _ Hm).
      destruct (IH rest) as (out & Hout & Hrw).
      { apply (f_equal String.length) in Hs. rewrite slength_app in Hs.
        cbn [String.length] in Hs, Hle.
        pose proof (is_entry_nonempty _ _ Hm) as Hne.
        destruct m; [congruence|]. cbn [String.length] in Hs. lia. }
      exists (f m +:+ out). rewrite Hout. split; [reflexivity|].
      apply rewritten_entry; [split; auto | exact Hrw].
    + destruct (IH s) as (out & Hout & Hrw); [cbn in Hle; lia|].
      exists (String c out). cbn [Re.scan]. rewrite E, Hout. split; [reflexivity|].
      apply rewritten_copy; [|exact Hrw].
      intros m r rest [Hm _] Hs. apply (match_entry_complete _ _ _ E).
      exists m, rest. auto.
Qed.

(** ** Reading past a text without the key *)

Lemma rewritten_cons_inv (rule : string -> string -> Prop) (c : ascii) (s out : string) :
  rewritten rule (String c s) out ->
  (exists m r rest out', rule m r /\ String c s = m +:+ rest
                         /\ out = r +:+ out' /\ rewritten rule rest out')
  \/ (exists out', out = String c out'
                   /\ (forall m r rest, rule m r -> String c s <> m +:+ rest)
                   /\ rewritten rule s out').
Proof.
  intros H. inversion H as [| m r rest out' Hr Hrest Hm Hout | c' s' out' Hno Hrest Hc Hout].
  - left. exists m, r, rest, out'. auto.
  - right. exists out'. auto.
Qed.

Section Skip.
Variable key : string.
Variable rule : string -> string -> Prop.
Hypothesis rule_in : forall m r, rule m r -> Str.prefix key m = true.

(** A text that holds no occurrence of the key is copied. *)
Lemma rewritten_skip (w s out : string) :
  Str.occurs_in key w s = false ->
  rewritten rule (w +:+ s) out ->
  exists out', out = w +:+ out' /\ rewritten rule s out'.
Proof.
  revert out. induction w as [|c w IH]; intros out Hw H.
  - exists out. auto.
  - cbn [Str.occurs_in] in Hw. apply orb_false_iff in Hw as [Hp Hw].
    cbn [String.append] in *.
    apply rewritten_cons_inv in H
      as [(m & r & rest & out' & Hr & Hs & _) | (out' & -> & _ & H)].
    + rewrite Hs, (prefix_weaken _ _ _ (rule_in _ _ Hr)) in Hp. discriminate.
    + destruct (IH _ Hw H) as (out2 & -> & H2). exists out2. auto.
Qed.

Hypothesis rule_out : forall m r, rule m r -> Str.prefix key r = true.

(** A text of the output that holds no occurrence of the key has been
    copied. *)
Lemma rewritten_skip_back (w s text : string) :
  Str.occurs_in key w s = false ->
  rewritten rule text (w +:+ s) ->
  exists text', text = w +:+ text' /\ rewritten rule text' s.
Proof.
  revert text. induction w as [|c w IH]; intros text Hw H.
  - exists text. auto.
  - cbn [Str.occurs_in] in Hw. apply orb_false_iff in Hw as [Hp Hw].
    cbn [String.append] in *.
    inversion H as [| m r rest out' Hr Hrest Hm Hout | c' s' out' Hno Hrest Hc Hout].
    + rewrite <- Hout, (prefix_weaken _ _ _ (rule_out _ _ Hr)) in Hp. discriminate.
    + subst. destruct (IH _ Hw Hrest) as (t2 & -> & H2). exists t2. auto.
Qed.

End Skip.

(** A text in which the rule applies nowhere is left as it is. *)
Lemma rewritten_unchanged (rule : string -> string -> Prop) (text out : string) :
  rewritten rule text out ->
  (forall pre m r rest, rule m r -> text <> pre +:+ m +:+ rest) ->
  out = text.
Proof.
  induction 1 as [| m r rest out Hr Hrest IH | c s out Hno Hrest IH]; intros Hfree.
  - reflexivity.
  - exfalso. exact (Hfree "" m r rest Hr eq_refl).
  - f_equal. apply IH. intros pre m r rest Hr ->.
    exact (Hfree (String c pre) m r rest Hr eq_refl).
Qed.

(** The output is determined, when the rule gives one result and applies
    to one text at a place. *)
Lemma rewritten_functional (rule : string -> string -> Prop) :
  (forall m1 r1 s1 m2 r2 s2,
     rule m1 r1 -> rule m2 r2 -> m1 +:+ s1 = m2 +:+ s2 ->
     m1 = m2 /\ r1 = r2 /\ s1 = s2) ->
  (forall m r, rule m r -> m <> "") ->
  forall text out1 out2,
    rewritten rule text out1 -> rewritten rule text out2 -> out1 = out2.
Proof.
  intros Huniq Hne text out1 out2 H1. revert out2.
  induction H1 as [| m r rest out Hr Hrest IH | c s out Hno Hrest IH]; intros out2 H2.
  - inversion H2 as [| m r rest out' Hr Hrest Hm Hout |]; [reflexivity|].
    exfalso. apply (Hne _ _ Hr). destruct m; [reflexivity | discriminate].
  - pose proof (Hne _ _ Hr) as Hm.
    inversion H2 as [| m' r' rest' out' Hr' Hrest' Hm' Hout' | c' s' out' Hno' Hrest' Hc' Hout'].
    + destruct m; [congruence | discriminate].
    + destruct (Huniq _ _ _ _ _ _ Hr' Hr Hm') as (-> & -> & ->).
      f_equal. apply IH, Hrest'.
    + exfalso. apply (Hno' m r rest Hr). exact Hc'.
  - inversion H2 as [| m' r' rest' out' Hr' Hrest' Hm' Hout' | c' s' out' Hno' Hrest' Hc' Hout'].
    + exfalso. exact (Hno _ _ _ Hr' (eq_sym Hm')).
    + f_equal. apply IH, Hrest'.
Qed.

(** ** The two substitutions *)

Lemma rewritten_nil_inv (rule : string -> string -> Prop) (out : string) :
  (forall m r, rule m r -> m <> "") -> rewritten rule "" out -> out = "".
Proof.
  intros Hne H. inversion H as [| m r rest out' Hr Hrest Hm Hout |]; [reflexivity|].
  exfalso. apply (Hne _ _ Hr). destruct m; [reflexivity | discriminate].
Qed.

Lemma entry_rule_nonempty (key : string) (f : string -> string) (m r : string) :
  entry_rule key f m r -> m <> "".
Proof. intros [H _]. exact (is_entry_nonempty _ _ H). Qed.

Lemma entry_rule_prefix (key : string) (f : string -> string) (m r : string) :
  entry_rule key f m r -> Str.prefix key m = true.
Proof. intros [H _]. exact (is_entry_prefix _ _ H). Qed.

(** At an entry the substitution gives the result of the rule. *)
Lemma rewritten_at_entry (key : string) (f : string -> string) (m rest out : string) :
  is_entry key m ->
  rewritten (entry_rule key f) (m +:+ rest) out ->
  exists out', out = f m +:+ out' /\ rewritten (entry_rule key f) rest out'.
Proof.
  intros Hm H. pose proof (is_entry_nonempty _ _ Hm) as Hne.
  destruct m as [|c m']; [congruence|]. cbn [String.append] in H.
  apply rewritten_cons_inv in H
    as [(m2 & r & rest2 & out' & [Hm2 ->] & Hs & -> & H) | (out' & _ & Hno & _)].
  - change (String c (m' +:+ rest)) with (String c m' +:+ rest) in Hs.
    destruct (entry_unique _ _ _ _ _ Hm Hm2 Hs) as [<- <-].
    exists out'. auto.
  - exfalso. apply (Hno (String c m') (f (String c m')) rest); [split; auto|].
    reflexivity.
Qed.

Lemma prefix_eq (k s : string) :
  Str.prefix k s = true -> exists rest, s = k +:+ rest.
Proof.
  revert s. induction k as [|a k IH]; intros s H; [exists s; reflexivity|].
  destruct s as [|b s]; [discriminate|]. cbn [Str.prefix] in H.
  apply andb_true_iff in H as [Hab H]. apply Ascii.eqb_eq in Hab. subst b.
  destruct (IH _ H) as [rest ->]. exists rest. reflexivity.
Qed.

Lemma contains_app (k a b : string) :
  k <> "" -> Str.contains k (a +:+ b) = Str.occurs_in k a b || Str.contains k b.
Proof.
  intros Hk. rewrite !contains_occurs by exact Hk.
  rewrite occurs_app, sapp_nil_r. reflexivity.
Qed.

(** ** The entries of the two keys *)

Lemma is_entry_clean (key m : string) :
  is_entry key m ->
  exists ws v, Str.forallb clean ws = true /\ Str.forallb clean v = true
               /\ m = entry key ws v.
Proof.
  intros (ws & v & Hws & _ & Hv & ->). exists ws, v.
  split; [apply space_clean, Hws|]. split; [apply not_lt_clean, Hv | reflexivity].
Qed.

Lemma no_id_in_name_entry (m s : string) :
  is_entry KEY_NAME m -> Str.occurs_in KEY_ID m s = false.
Proof.
  intros H. apply is_entry_clean in H as (ws & v & Hws & Hv & ->).
  apply id_not_in_name_entry; assumption.
Qed.

Lemma no_name_in_id_entry (m s : string) :
  is_entry KEY_ID m -> Str.occurs_in KEY_NAME m s = false.
Proof.
  intros H. apply is_entry_clean in H as (ws & v & Hws & Hv & ->).
  apply name_not_in_id_entry; assumption.
Qed.

(** Behind its first character, an identifier entry holds no occurrence
    of its key. *)
Lemma id_not_in_id_entry (c : ascii) (m s : string) :
  is_entry KEY_ID (String c m) -> Str.occurs_in KEY_ID m s = false.
Proof.
  intros H. apply is_entry_clean in H as (ws & v & Hws & Hv & H).
  unfold entry in H. injection H as _ ->.
  change (Str.occurs_in KEY_ID
            ("key>CFBundleIdentifier</key>"
             +:+ (ws +:+ "<string>" +:+ v +:+ "</string>")) s = false).
  rewrite occurs_app.
  rewrite (occurs_in_element "ey>CFBundleIdentifier</key>") by assumption.
  reflexivity.
Qed.

Lemma keys_apart (s : string) :
  Str.prefix KEY_ID s = true -> Str.prefix KEY_NAME s = true -> False.
Proof.
  intros H1 H2. apply prefix_eq in H1 as [rest ->]. discriminate H2.
Qed.

Section TwoPasses.

Variables package_name app_name : string.
Hypothesis Hpkg_nonempty : package_name <> "".
Hypothesis Hpkg_lt : Str.forallb not_lt package_name = true.

Let first_pass : string -> string -> Prop :=
  entry_rule KEY_ID (fun _ => written KEY_ID package_name).
Let name_pass : string -> string -> Prop :=
  entry_rule KEY_NAME (fun _ => written KEY_NAME app_name).
Let insert_pass : string -> string -> Prop :=
  entry_rule KEY_ID (fun m => m +:+ nl_tab +:+ written KEY_NAME app_name).

Lemma written_id_entry : is_entry KEY_ID (written KEY_ID package_name).
Proof. exists nl_tab, package_name. repeat split; auto. Qed.

Lemma name_not_in_written_id (s : string) :
  Str.occurs_in KEY_NAME (written KEY_ID package_name) s = false.
Proof. apply no_name_in_id_entry, written_id_entry. Qed.

Lemma first_pass_out (m r : string) : first_pass m r -> Str.prefix KEY_ID r = true.
Proof. intros [_ ->]. reflexivity. Qed.

(** The first substitution neither adds nor removes a display-name key. *)
Lemma first_pass_keeps_name (text t1 : string) :
  rewritten first_pass text t1 ->
  Str.contains KEY_NAME t1 = Str.contains KEY_NAME text.
Proof.
  induction 1 as [| m r rest out [Hm ->] Hrest IH | c s out Hno Hrest IH].
  - reflexivity.
  - rewrite !contains_app by discriminate.
    rewrite name_not_in_written_id, (no_name_in_id_entry _ _ Hm), IH. reflexivity.
  - cbn [Str.contains]. rewrite IH. f_equal.
    assert (H : rewritten first_pass (String c s) (String c out))
      by (apply rewritten_copy; assumption).
    destruct (Str.prefix KEY_NAME (String c s)) eqn:E1.
    + apply prefix_eq in E1 as [rest E1]. rewrite E1 in H.
      apply (rewritten_skip KEY_ID first_pass (entry_rule_prefix _ _)) in H
        as (out' & -> & _); [apply prefix_app | apply id_not_in_name].
    + destruct (Str.prefix KEY_NAME (String c out)) eqn:E2; [|reflexivity].
      apply prefix_eq in E2 as [rest E2]. rewrite E2 in H.
      apply (rewritten_skip_back KEY_ID first_pass first_pass_out) in H
        as (t' & Ht & _); [|apply id_not_in_name].
      rewrite Ht, prefix_app in E1. discriminate.
Qed.

(** The two substitutions of a text with the display-name key, as one
    reading of the text. *)
Lemma replace_passes (text t1 out : string) :
  rewritten first_pass text t1 -> rewritten name_pass t1 out ->
  rewritten (replaces package_name app_name) text out.
Proof.
  remember (String.length text) as n eqn:Hn.
  assert (Hle : (String.length text <= n)%nat) by lia. clear Hn.
  revert text t1 out Hle. induction n as [|n IH]; intros text t1 out Hle H1 H2.
  { destruct text; [|cbn in Hle; lia].
    apply rewritten_nil_inv in H1; [|apply entry_rule_nonempty]. subst t1.
    apply rewritten_nil_inv in H2; [|apply entry_rule_nonempty]. subst out.
    constructor. }
  destruct text as [|c s].
  { apply rewritten_nil_inv in H1; [|apply entry_rule_nonempty]. subst t1.
    apply rewritten_nil_inv in H2; [|apply entry_rule_nonempty]. subst out.
    constructor. }
  pose proof H1 as H1'.
  apply rewritten_cons_inv in H1
    as [(m & r & rest & t1' & [Hm ->] & Hs & -> & H1) | (t1' & -> & Hno1 & H1)].
  - (* an identifier entry *)
    apply (rewritten_skip KEY_NAME name_pass (entry_rule_prefix _ _)) in H2
      as (out' & -> & H2); [|apply name_not_in_written_id].
    rewrite Hs. apply rewritten_entry; [left; auto|].
    apply (IH rest t1' out'); [|assumption..].
    pose proof (is_entry_nonempty _ _ Hm) as Hne.
    apply (f_equal String.length) in Hs. rewrite slength_app in Hs.
    destruct m; [congruence|]. cbn [String.length] in Hs, Hle. lia.
  - apply rewritten_cons_inv in H2
      as [(m & r & rest & out' & [Hm ->] & Hs & -> & H2) | (out' & -> & Hno2 & H2)].
    + (* a display-name entry *)
      rewrite Hs in H1'.
      apply (rewritten_skip_back KEY_ID first_pass first_pass_out) in H1'
        as (text' & Ht & H1'); [|apply no_id_in_name_entry, Hm].
      rewrite Ht. apply rewritten_entry; [right; auto|].
      apply (IH text' rest out'); [|assumption..].
      pose proof (is_entry_nonempty _ _ Hm) as Hne.
      apply (f_equal String.length) in Ht. rewrite slength_app in Ht.
      destruct m; [congruence|]. cbn [String.length] in Ht, Hle. lia.
    + (* a character *)
      apply rewritten_copy.
      * intros m r rest [[Hm _] | [Hm _]] Hs.
        -- apply (Hno1 m (written KEY_ID package_name) rest); [split; auto | exact Hs].
        -- rewrite Hs in H1'.
           apply (rewritten_skip KEY_ID first_pass (entry_rule_prefix _ _)) in H1'
             as (t' & Ht & _); [|apply no_id_in_name_entry, Hm].
           apply (Hno2 m (written KEY_NAME app_name) t'); [split; auto | exact Ht].
      * apply (IH s t1' out'); [cbn in Hle; lia | assumption..].
Qed.

(** The two substitutions of a text without the display-name key, as one
    reading of the text. *)
Lemma insert_passes (text t1 out : string) :
  rewritten first_pass text t1 -> rewritten insert_pass t1 out ->
  rewritten (inserts package_name app_name) text out.
Proof.
  remember (String.length text) as n eqn:Hn.
  assert (Hle : (String.length text <= n)%nat) by lia. clear Hn.
  revert text t1 out Hle. induction n as [|n IH]; intros text t1 out Hle H1 H2.
  { destruct text; [|cbn in Hle; lia].
    apply rewritten_nil_inv in H1; [|apply entry_rule_nonempty]. subst t1.
    apply rewritten_nil_inv in H2; [|apply entry_rule_nonempty]. subst out.
    constructor. }
  destruct text as [|c s].
  { apply rewritten_nil_inv in H1; [|apply entry_rule_nonempty]. subst t1.
    apply rewritten_nil_inv in H2; [|apply entry_rule_nonempty]. subst out.
    constructor. }
  apply rewritten_cons_inv in H1
    as [(m & r & rest & t1' & [Hm ->] & Hs & -> & H1) | (t1' & -> & Hno1 & H1)].
  - (* an identifier entry: written in the first pass, extended in the
       second *)
    apply rewritten_at_entry in H2 as (out' & -> & H2); [|apply written_id_entry].
    rewrite Hs. apply rewritten_entry; [split; auto|].
    apply (IH rest t1' out'); [|assumption..].
    pose proof (is_entry_nonempty _ _ Hm) as Hne.
    apply (f_equal String.length) in Hs. rewrite slength_app in Hs.
    destruct m; [congruence|]. cbn [String.length] in Hs, Hle. lia.
  - apply rewritten_cons_inv in H2
      as [(m & r & rest & out' & [Hm ->] & Hs & -> & H2) | (out' & -> & Hno2 & H2)].
    + (* no entry stands in the text read, so none in the text written *)
      exfalso. pose proof (is_entry_nonempty _ _ Hm) as Hne.
      destruct m as [|c' m']; [congruence|].
      cbn [String.append] in Hs. injection Hs as <- ->.
      apply (rewritten_skip_back KEY_ID first_pass first_pass_out) in H1
        as (s' & -> & _); [|apply (id_not_in_id_entry c), Hm].
      apply (Hno1 (String c m') (written KEY_ID package_name) s'); [split; auto|].
      reflexivity.
    + apply rewritten_copy.
      * intros m r rest [Hm _] Hs.
        apply (Hno1 m (written KEY_ID package_name) rest); [split; auto | exact Hs].
      * apply (IH s t1' out'); [cbn in Hle; lia | assumption..].
Qed.

Lemma replaces_unique (m1 r1 s1 m2 r2 s2 : string) :
  replaces package_name app_name m1 r1 -> replaces package_name app_name m2 r2 ->
  m1 +:+ s1 = m2 +:+ s2 -> m1 = m2 /\ r1 = r2 /\ s1 = s2.
Proof.
  intros [[H1 ->] | [H1 ->]] [[H2 ->] | [H2 ->]] Hs.
  - destruct (entry_unique _ _ _ _ _ H1 H2 Hs) as [-> ->]. auto.
  - exfalso. apply (keys_apart (m1 +:+ s1)).
    + apply prefix_weaken, is_entry_prefix, H1.
    + rewrite Hs. apply prefix_weaken, is_entry_prefix, H2.
  - exfalso. apply (keys_apart (m1 +:+ s1)).
    + rewrite Hs. apply prefix_weaken, is_entry_prefix, H2.
    + apply prefix_weaken, is_entry_prefix, H1.
  - destruct (entry_unique _ _ _ _ _ H1 H2 Hs) as [-> ->]. auto.
Qed.

Lemma inserts_unique (m1 r1 s1 m2 r2 s2 : string) :
  inserts package_name app_name m1 r1 -> inserts package_name app_name m2 r2 ->
  m1 +:+ s1 = m2 +:+ s2 -> m1 = m2 /\ r1 = r2 /\ s1 = s2.
Proof.
  intros [H1 ->] [H2 ->] Hs.
  destruct (entry_unique _ _ _ _ _ H1 H2 Hs) as [-> ->]. auto.
Qed.

Lemma replaces_nonempty (m r : string) : replaces package_name app_name m r -> m <> "".
Proof. intros [[H _] | [H _]]; exact (is_entry_nonempty _ _ H). Qed.

Lemma inserts_nonempty (m r : string) : inserts package_name app_name m r -> m <> "".
Proof. intros [H _]. exact (is_entry_nonempty _ _ H). Qed.

End TwoPasses.

Lemma no_key_no_entry (key text pre post : string) :
  key <> "" -> Str.contains key text = false -> text = pre +:+ post ->
  ~ starts_entry key post.
Proof.
  intros Hkey Hc -> (m & rest & Hm & ->).
  rewrite contains_app in Hc by exact Hkey. apply orb_false_iff in Hc as [_ Hc].
  destruct (m +:+ rest) eqn:E; cbn [Str.contains] in Hc;
    apply orb_false_iff in Hc as [Hc _]; rewrite <- E in Hc;
    rewrite (prefix_weaken _ _ _ (is_entry_prefix _ _ Hm)) in Hc; discriminate.
Qed.

(** ** A place of the text *)

Lemma sapp_inv_head (a b c : string) : a +:+ b = a +:+ c -> b = c.
Proof.
  induction a as [|x a IH]; cbn [String.append]; [auto|].
  intros [= H]. exact (IH H).
Qed.

(** Two ways to cut one text: one first part starts the other. *)
Lemma sapp_eq_sapp (a b c d : string) :
  a +:+ b = c +:+ d ->
  (exists x, a = c +:+ x /\ d = x +:+ b)
  \/ (exists y, y <> "" /\ c = a +:+ y /\ b = y +:+ d).
Proof.
  revert c. induction a as [|x a IH]; intros c H.
  - cbn [String.append] in H. destruct c as [|y c].
    + left. exists "". auto.
    + right. exists (String y c). repeat split; [discriminate | exact H].
  - destruct c as [|y c].
    + left. exists (String x a). cbn [String.append] in *. auto.
    + cbn [String.append] in H. injection H as -> H.
      destruct (IH _ H) as [(z & -> & ->) | (z & Hz & -> & ->)].
      * left. exists z. auto.
      * right. exists z. auto.
Qed.

Lemma occurs_at (k a y s : string) :
  y <> "" -> Str.prefix k (y +:+ s) = true -> Str.occurs_in k (a +:+ y) s = true.
Proof.
  intros Hy Hp. rewrite occurs_app. apply orb_true_iff. right.
  destruct y as [|c y]; [congruence|]. cbn [Str.occurs_in]. rewrite Hp. reflexivity.
Qed.

Section Places.
Variable rule : string -> string -> Prop.

(** Characters at which the rule does not apply are copied. *)
Lemma rewritten_copy_run (w s out : string) :
  (forall w1 w2 m r rest, w = w1 +:+ w2 -> w2 <> "" -> rule m r ->
     w2 +:+ s <> m +:+ rest) ->
  rewritten rule (w +:+ s) out ->
  exists out', out = w +:+ out' /\ rewritten rule s out'.
Proof.
  revert out. induction w as [|c w IH]; intros out Hw H.
  - exists out. auto.
  - cbn [String.append] in H.
    apply rewritten_cons_inv in H
      as [(m & r & rest & out' & Hr & Hs & _) | (out' & -> & _ & H)].
    + exfalso. apply (Hw "" (String c w) m r rest); [reflexivity | discriminate | exact Hr|].
      exact Hs.
    + destruct (IH out') as (out2 & -> & H2); [|exact H|exists out2; auto].
      intros w1 w2 m r rest -> Hw2 Hr.
      apply (Hw (String c w1) w2 m r rest); [reflexivity | exact Hw2 | exact Hr].
Qed.

(** A text read up to a place where no text of the rule runs over: the
    parts before and behind the place are read apart. *)
Lemma rewritten_split (a b out : string) :
  (forall m r, rule m r -> m <> "") ->
  (forall a1 a2 m r rest, a = a1 +:+ a2 -> a2 <> "" -> rule m r ->
     a2 +:+ b = m +:+ rest -> exists rest', a2 = m +:+ rest') ->
  rewritten rule (a +:+ b) out ->
  exists oa ob, out = oa +:+ ob /\ rewritten rule a oa /\ rewritten rule b ob.
Proof.
  remember (String.length a) as n eqn:Hn.
  assert (Hle : (String.length a <= n)%nat) by lia. clear Hn.
  intros Hne. revert a out Hle. induction n as [|n IH]; intros a out Hle Ha H.
  { destruct a; [|cbn in Hle; lia]. exists "", out. repeat split; [constructor | exact H]. }
  destruct a as [|c a].
  { exists "", out. repeat split; [constructor | exact H]. }
  cbn [String.append] in H.
  apply rewritten_cons_inv in H
    as [(m & r & rest & out' & Hr & Hs & -> & H) | (out' & -> & Hno & H)].
  - destruct (Ha "" (String c a) m r rest eq_refl ltac:(discriminate) Hr Hs)
      as [rest' Hrest'].
    assert (Hrest : rest = rest' +:+ b).
    { change (String c (a +:+ b)) with (String c a +:+ b) in Hs.
      rewrite Hrest', sapp_assoc in Hs. apply sapp_inv_head in Hs. auto. }
    subst rest.
    destruct (IH rest' out') as (oa & ob & -> & Hoa & Hob).
    + pose proof (Hne _ _ Hr) as Hm.
      apply (f_equal String.length) in Hrest'. rewrite slength_app in Hrest'.
      destruct m; [congruence|]. cbn [String.length] in Hrest', Hle. lia.
    + intros a1 a2 m2 r2 rest2 -> Ha2 Hr2.
      apply (Ha (m +:+ a1) a2 m2 r2 rest2); [|exact Ha2 | exact Hr2].
      rewrite Hrest', sapp_assoc. reflexivity.
    + exact H.
    + exists (r +:+ oa), ob. rewrite sapp_assoc, Hrest'. repeat split; [|exact Hob].
      apply rewritten_entry; assumption.
  - destruct (IH a out') as (oa & ob & -> & Hoa & Hob).
    + cbn in Hle. lia.
    + intros a1 a2 m2 r2 rest2 -> Ha2 Hr2.
      apply (Ha (String c a1) a2 m2 r2 rest2); [reflexivity | exact Ha2 | exact Hr2].
    + exact H.
    + exists (String c oa), ob. repeat split; [|exact Hob].
      apply rewritten_copy; [|exact Hoa].
      intros m r rest Hr Hs. apply (Hno m r (rest +:+ b) Hr).
      change (String c (a +:+ b)) with (String c a +:+ b).
      rewrite Hs, sapp_assoc. reflexivity.
Qed.

(** Where the rule applies, the text is replaced by what the rule
    gives. *)
Lemma rewritten_at_rule (m r rest out : string) :
  (forall m1 r1 s1 m2 r2 s2,
     rule m1 r1 -> rule m2 r2 -> m1 +:+ s1 = m2 +:+ s2 ->
     m1 = m2 /\ r1 = r2 /\ s1 = s2) ->
  m <> "" -> rule m r ->
  rewritten rule (m +:+ rest) out ->
  exists out', out = r +:+ out' /\ rewritten rule rest out'.
Proof.
  intros Huniq Hne Hr H. destruct m as [|c m']; [congruence|].
  cbn [String.append] in H.
  apply rewritten_cons_inv in H
    as [(m2 & r2 & rest2 & out' & Hr2 & Hs & -> & H) | (out' & _ & Hno & _)].
  - change (String c (m' +:+ rest)) with (String c m' +:+ rest) in Hs.
    destruct (Huniq _ _ _ _ _ _ Hr Hr2 Hs) as (<- & <- & <-).
    exists out'. auto.
  - exfalso. apply (Hno (String c m') r rest Hr). reflexivity.
Qed.

End Places.

(** ** An entry holds its key in front only *)

Lemma name_not_in_name_entry (c : ascii) (m s : string) :
  is_entry KEY_NAME (String c m) -> Str.occurs_in KEY_NAME m s = false.
Proof.
  intros H. apply is_entry_clean in H as (ws & v & Hws & Hv & H).
  unfold entry in H. injection H as _ ->.
  change (Str.occurs_in KEY_NAME
            ("key>CFBundleDisplayName</key>"
             +:+ (ws +:+ "<string>" +:+ v +:+ "</string>")) s = false).
  rewrite occurs_app.
  rewrite (occurs_in_element "ey>CFBundleDisplayName</key>") by assumption.
  reflexivity.
Qed.

Lemma occurs_tail (k : string) (c : ascii) (m s : string) :
  Str.occurs_in k (String c m) s = false -> Str.occurs_in k m s = false.
Proof. cbn [Str.occurs_in]. intros H. apply orb_false_iff in H as [_ H]. exact H. Qed.

(** Behind its first character an entry of one of the two keys holds no
    occurrence of either key. *)
Lemma no_key_in_entry (key : string) (c : ascii) (m s : string) :
  key = KEY_ID \/ key = KEY_NAME ->
  is_entry KEY_ID (String c m) \/ is_entry KEY_NAME (String c m) ->
  Str.occurs_in key m s = false.
Proof.
  intros [-> | ->] [H | H].
  - exact (id_not_in_id_entry _ _ _ H).
  - exact (occurs_tail _ _ _ _ (no_id_in_name_entry _ _ H)).
  - exact (occurs_tail _ _ _ _ (no_name_in_id_entry _ _ H)).
  - exact (name_not_in_name_entry _ _ _ H).
Qed.

(** No entry runs over a place where one of the keys stands. *)
Lemma no_entry_over_key (rule : string -> string -> Prop) (key a b : string) :
  (forall m r, rule m r -> is_entry KEY_ID m \/ is_entry KEY_NAME m) ->
  key = KEY_ID \/ key = KEY_NAME ->
  Str.prefix key b = true ->
  forall a1 a2 m r rest, a = a1 +:+ a2 -> a2 <> "" -> rule m r ->
    a2 +:+ b = m +:+ rest -> exists rest', a2 = m +:+ rest'.
Proof.
  intros Hrule Hkey Hb a1 a2 m r rest _ Ha2 Hr Hs.
  apply sapp_eq_sapp in Hs as [(x & Hx & _) | (y & Hy & Hm & Hby)].
  - exists x. exact Hx.
  - exfalso. destruct a2 as [|c a2]; [congruence|].
    cbn [String.append] in Hm. subst m.
    pose proof (no_key_in_entry key c (a2 +:+ y) rest Hkey (Hrule _ _ Hr)) as Hno.
    rewrite (occurs_at key a2 y rest Hy) in Hno; [discriminate|].
    rewrite <- Hby. exact Hb.
Qed.

Lemma key_in_front (key : string) (c : ascii) (k s : string) :
  key = KEY_ID \/ key = KEY_NAME ->
  KEY_ID = String c k \/ KEY_NAME = String c k ->
  Str.occurs_in key k s = false.
Proof. intros [-> | ->] [[= <- <-] | [= <- <-]]; reflexivity. Qed.

(** ** The patch on any text *)

Section PatchRule.
Variables package_name app_name text : string.

Let rule : string -> string -> Prop := patch_rule package_name app_name text.

Lemma patch_rule_entry (m r : string) :
  rule m r -> is_entry KEY_ID m \/ is_entry KEY_NAME m.
Proof.
  unfold rule, patch_rule. destruct (Str.contains KEY_NAME text).
  - intros [[H _] | [H _]]; auto.
  - intros [H _]. auto.
Qed.

Lemma patch_rule_nonempty (m r : string) : rule m r -> m <> "".
Proof.
  intros H. destruct (patch_rule_entry _ _ H) as [Hm | Hm];
    exact (is_entry_nonempty _ _ Hm).
Qed.

Lemma patch_rule_unique (m1 r1 s1 m2 r2 s2 : string) :
  rule m1 r1 -> rule m2 r2 -> m1 +:+ s1 = m2 +:+ s2 ->
  m1 = m2 /\ r1 = r2 /\ s1 = s2.
Proof.
  unfold rule, patch_rule. destruct (Str.contains KEY_NAME text).
  - apply replaces_unique.
  - apply inserts_unique.
Qed.

Lemma patch_rule_key (m r : string) :
  rule m r ->
  exists key, (key = KEY_ID \/ key = KEY_NAME) /\ is_entry key m.
Proof.
  intros H. destruct (patch_rule_entry _ _ H) as [Hm | Hm];
    [exists KEY_ID | exists KEY_NAME]; auto.
Qed.

(** An entry, wherever it stands, is replaced, and the text before it
    and behind it is read apart. *)
Lemma rewritten_entry_at (pre m r post out : string) :
  rule m r -> rewritten rule (pre +:+ m +:+ post) out ->
  exists out_pre out_post,
    out = out_pre +:+ r +:+ out_post
    /\ rewritten rule pre out_pre /\ rewritten rule post out_post.
Proof.
  intros Hr H. destruct (patch_rule_key _ _ Hr) as (key & Hkey & Hm).
  apply rewritten_split in H as (op & ob & -> & Hop & Hob).
  - apply (rewritten_at_rule _ _ _ _ _ patch_rule_unique
             (patch_rule_nonempty _ _ Hr) Hr) in Hob as (oq & -> & Hoq).
    exists op, oq. auto.
  - exact patch_rule_nonempty.
  - apply (no_entry_over_key rule key); [exact patch_rule_entry | exact Hkey|].
    apply prefix_weaken, is_entry_prefix, Hm.
Qed.

(** A key at which no entry stands is kept, and the text before it and
    behind it is read apart. *)
Lemma rewritten_key_at (key pre post out : string) :
  key = KEY_ID \/ key = KEY_NAME ->
  ~ starts_entry key (key +:+ post) ->
  rewritten rule (pre +:+ key +:+ post) out ->
  exists out_pre out_post,
    out = out_pre +:+ key +:+ out_post
    /\ rewritten rule pre out_pre /\ rewritten rule post out_post.
Proof.
  intros Hkey Hno H.
  apply rewritten_split in H as (op & ob & -> & Hop & Hob).
  - apply rewritten_copy_run in Hob as (oq & -> & Hoq); [exists op, oq; auto|].
    intros w1 w2 m r rest Hw Hw2 Hr Hs.
    destruct (patch_rule_key _ _ Hr) as (k & Hk & Hm).
    pose proof (is_entry_prefix _ _ Hm) as Hp.
    apply (prefix_weaken _ _ rest) in Hp. rewrite <- Hs in Hp.
    destruct w1 as [|c w1].
    + cbn [String.append] in Hw. subst w2.
      assert (k = key) as ->.
      { destruct Hk as [-> | ->], Hkey as [-> | ->]; try reflexivity; exfalso.
        - apply (keys_apart (KEY_NAME +:+ post)); [exact Hp | apply prefix_app].
        - apply (keys_apart (KEY_ID +:+ post)); [apply prefix_app | exact Hp]. }
      apply Hno. exists m, rest. auto.
    + cbn [String.append] in Hw.
      assert (Hfront : Str.occurs_in k (w1 +:+ w2) post = false).
      { apply (key_in_front k c); [exact Hk|].
        destruct Hkey as [-> | ->]; [left | right]; exact Hw. }
      rewrite (occurs_at k w1 w2 post Hw2 Hp) in Hfront. discriminate.
  - exact patch_rule_nonempty.
  - apply (no_entry_over_key rule key); [exact patch_rule_entry | exact Hkey|].
    apply prefix_app.
Qed.

End PatchRule.

(** C6, amended: for a flavor and a name without backslash, and a flavor
    without opening angle bracket, the patch returns on every text, and
    what it returns is the text read from the left with every entry
    replaced as the rule of the patch says, every other character kept.
    An entry is the key, optional white space and a string element whose
    text is not empty and has no opening angle bracket.  The rule: when
    the text holds the display-name key, an identifier entry becomes the
    entry of the package name and a display-name entry the entry of the
    new name; when it does not, an identifier entry becomes the entry of
    the package name followed by the inserted entry of the new name.
    This determines the text returned.  In particular: an entry,
    wherever it stands, is replaced; a key at which no entry stands (its
    string element is empty or of another shape) is kept; a text in
    which no entry of the two keys stands is returned as it is, and so
    is a text without the display-name key in which no identifier entry
    stands: nothing is inserted. *)
Theorem ios_patch_rewrites_entries (flavor app_name : string)
    (Hflavor_plain : Str.forallb plain flavor = true)
    (Hflavor_lt : Str.forallb not_lt flavor = true)
    (Hname : Str.forallb plain app_name = true)
    (text : string) :
  exists out,
    update_ios_text (package_name_of flavor) app_name text = Ok out
    /\ rewritten (patch_rule (package_name_of flavor) app_name text) text out
    /\ (forall out',
          rewritten (patch_rule (package_name_of flavor) app_name text) text out' ->
          out' = out)
    /\ (forall pre m r post,
          text = pre +:+ m +:+ post ->
          patch_rule (package_name_of flavor) app_name text m r ->
          exists out_pre out_post,
            out = out_pre +:+ r +:+ out_post
            /\ rewritten (patch_rule (package_name_of flavor) app_name text)
                 pre out_pre
            /\ rewritten (patch_rule (package_name_of flavor) app_name text)
                 post out_post)
    /\ (forall key pre post,
          key = KEY_ID \/ key = KEY_NAME ->
          text = pre +:+ key +:+ post ->
          ~ starts_entry key (key +:+ post) ->
          exists out_pre out_post,
            out = out_pre +:+ key +:+ out_post
            /\ rewritten (patch_rule (package_name_of flavor) app_name text)
                 pre out_pre
            /\ rewritten (patch_rule (package_name_of flavor) app_name text)
                 post out_post)
    /\ ((forall pre post, text = pre +:+ post ->
           ~ starts_entry KEY_ID post /\ ~ starts_entry KEY_NAME post) ->
        out = text)
    /\ (Str.contains KEY_NAME text = false ->
        (forall pre post, text = pre +:+ post -> ~ starts_entry KEY_ID post) ->
        out = text).
Proof.
  pose proof (package_name_nonempty flavor) as Hne.
  pose proof (package_name_not_lt flavor Hflavor_lt) as Hlt.
  set (pkg := package_name_of flavor) in *.
  destruct (sub_rewritten KEY_ID
              (KEY_ID +:+ nl_tab +:+ "<string>" +:+ pkg +:+ "</string>") false
              (fun _ => written KEY_ID pkg) key_id_nonempty) with (text := text)
    as (t1 & Hsub1 & Hrw1).
  { intros m _. apply expand_written; [reflexivity|].
    apply package_name_plain, Hflavor_plain. }
  pose proof (first_pass_keeps_name pkg Hne Hlt text t1 Hrw1) as Hkeep.
  assert (Hout : exists out,
             update_ios_text pkg app_name text = Ok out
             /\ rewritten (patch_rule pkg app_name text) text out).
  { unfold update_ios_text, patch_rule. rewrite Hsub1. cbn [rbind]. rewrite Hkeep.
    destruct (Str.contains KEY_NAME text).
    - destruct (sub_rewritten KEY_NAME
                  (KEY_NAME +:+ nl_tab +:+ "<string>" +:+ app_name +:+ "</string>")
                  false (fun _ => written KEY_NAME app_name) key_name_nonempty)
        with (text := t1) as (out & Hsub2 & Hrw2).
      { intros m _. apply expand_written; [reflexivity | exact Hname]. }
      exists out. split; [exact Hsub2|].
      exact (replace_passes pkg app_name Hne Hlt text t1 out Hrw1 Hrw2).
    - destruct (sub_rewritten KEY_ID
                  ("\1\n\t<key>CFBundleDisplayName</key>\n\t<string>" +:+ app_name
                   +:+ "</string>")
                  true (fun m => m +:+ nl_tab +:+ written KEY_NAME app_name)
                  key_id_nonempty)
        with (text := t1) as (out & Hsub2 & Hrw2).
      { intros m _. apply expand_insertion, Hname. }
      exists out. split; [exact Hsub2|].
      exact (insert_passes pkg app_name Hne Hlt text t1 out Hrw1 Hrw2). }
  destruct Hout as (out & Hrun & Hrw). exists out.
  split; [exact Hrun|]. split; [exact Hrw|].
  assert (Hfree : (forall pre post, text = pre +:+ post ->
                     ~ starts_entry KEY_ID post /\ ~ starts_entry KEY_NAME post) ->
                  out = text).
  { intros Hno. apply (rewritten_unchanged _ _ _ Hrw).
    intros pre m r rest Hr Heq. destruct (Hno _ _ Heq) as [Hid Hnm].
    destruct (patch_rule_entry _ _ _ _ _ Hr) as [Hm | Hm];
      [apply Hid | apply Hnm]; exists m, rest; auto. }
  split; [|split; [|split; [|split; [exact Hfree|]]]].
  - intros out' Hrw'.
    exact (rewritten_functional _ (patch_rule_unique pkg app_name text)
             (patch_rule_nonempty pkg app_name text) _ _ _ Hrw' Hrw).
  - intros pre m r post Heq Hr.
    apply (rewritten_entry_at pkg app_name text pre m r post out Hr).
    rewrite <- Heq. exact Hrw.
  - intros key pre post Hkey Heq Hno.
    apply (rewritten_key_at pkg app_name text key pre post out Hkey Hno).
    rewrite <- Heq. exact Hrw.
  - intros Hc Hno. apply Hfree. intros pre post Heq. split; [exact (Hno _ _ Heq)|].
    exact (no_key_no_entry _ _ _ _ key_name_nonempty Hc Heq).
Qed.

Lemma ios_patch_rewrites_entries_witness :
  exists out,
    update_ios_text "com.giolabs.demo" "Demo"
      (entry KEY_ID "" "a.b" +:+ KEY_NAME +:+ "<string></string>") = Ok out
    /\ rewritten (replaces "com.giolabs.demo" "Demo")
         (entry KEY_ID "" "a.b" +:+ KEY_NAME +:+ "<string></string>") out.
Proof.
  destruct (ios_patch_rewrites_entries "demo" "Demo" eq_refl eq_refl eq_refl
              (entry KEY_ID "" "a.b" +:+ KEY_NAME +:+ "<string></string>"))
    as (out & Hrun & Hrw & _).
  exists out. split; [exact Hrun | exact Hrw].
Defined.

(** What the three conditions on the names exclude.  A backslash in a
    name is read as an escape of the replacement template: the patch
    raises, or writes another name.  With an opening angle bracket in
    the flavor, the entry written by the first substitution is not one
    the last substitution takes, and the pair is not inserted. *)
Example ios_patch_name_with_escape :
  update_ios_text "com.giolabs.demo" "a\d" (entry KEY_ID "" "a.b") = Raise ReError.
Proof. reflexivity. Qed.

Example ios_patch_flavor_with_escape :
  update_ios_text (package_name_of "a\\b") "Demo" (entry KEY_ID "" "a.b")
  = Ok (written KEY_ID "com.giolabs.a\b" +:+ nl_tab +:+ written KEY_NAME "Demo").
Proof. reflexivity. Qed.

Example ios_patch_flavor_with_bracket :
  update_ios_text (package_name_of "a<b") "Demo" (entry KEY_ID "" "a.b")
  = Ok (written KEY_ID "com.giolabs.a<b").
Proof. reflexivity. Qed.

(* ===================================================================== *)
(** * Properties: substitution with a pattern that starts with a literal *)
(* ===================================================================== *)

(** The properties of the patches are stated for names without a
    backslash.  Their templates then hold no escape, or the escapes the
    script writes itself, and expand the same way whatever the text;
    [re.sub] parses a template that holds a backslash before it scans the
    text, whereas [Re.scan] expands it at each match, so that the two
    differ on a template that does not parse and a text without a
    match. *)

Section LiteralFirst.
Variable p : Re.pattern.
Variable key : string.
Variable rest : list Re.atom.
Hypothesis Hatoms : Re.atoms p = Re.Lit key :: rest.
Hypothesis Hkey : key <> "".

Lemma match_needs_lit (s : string) :
  Str.prefix key s = false -> Re.match_atoms (Re.atoms p) s = None.
Proof.
  intros H. rewrite Hatoms, match_lit, (strip_prefix_prefix _ _ H). reflexivity.
Qed.

Lemma scan_copy_lit (repl t s : string) :
  Str.occurs_in key t s = false ->
  Re.scan p repl (t +:+ s) 0 = Re.app_to (Ok t) (Re.scan p repl s 0).
Proof.
  induction t as [|c t IH]; intros H.
  - rewrite app_to_nil. reflexivity.
  - cbn [Str.occurs_in] in H. apply orb_false_iff in H as [Hp H].
    rewrite <- app_to_cons, <- (IH H). cbn [String.append] in *.
    cbn [Re.scan]. rewrite (match_needs_lit _ Hp). reflexivity.
Qed.

Lemma scan_end_lit (repl : string) : Re.scan p repl "" 0 = Ok "".
Proof.
  cbn [Re.scan]. rewrite match_needs_lit; [reflexivity|].
  destruct key; [congruence | reflexivity].
Qed.

(** A text without the literal comes back as it is. *)
Lemma sub_unchanged (repl text : string) :
  Str.contains key text = false -> Re.sub p repl text = Ok text.
Proof.
  intros H. rewrite (contains_occurs _ _ Hkey) in H. unfold Re.sub.
  rewrite <- (sapp_nil_r text) at 1.
  rewrite (scan_copy_lit _ _ _ H), scan_end_lit. cbn. rewrite sapp_nil_r.
  reflexivity.
Qed.

(** The one match [m] of the text, between [x] and [y], is replaced by
    the expansion of the template. *)
Lemma sub_one (repl x m y r : string) :
  Str.occurs_in key x (m +:+ y) = false ->
  Str.occurs_in key y "" = false ->
  m <> "" ->
  Re.match_atoms (Re.atoms p) (m +:+ y) = Some (m, y) ->
  Re.expand m (if Re.grouped p then [m] else []) repl Re.Text = Ok r ->
  Re.sub p repl (x +:+ m +:+ y) = Ok (x +:+ r +:+ y).
Proof.
  intros Hx Hy Hm Hmatch Hr. unfold Re.sub.
  rewrite (scan_copy_lit _ _ _ Hx), (scan_match _ _ _ _ Hm Hmatch), Hr.
  rewrite <- (sapp_nil_r y) at 1. rewrite (scan_copy_lit _ _ _ Hy), scan_end_lit.
  cbn [Re.app_to rbind rmap]. rewrite sapp_nil_r. reflexivity.
Qed.

End LiteralFirst.

(* ===================================================================== *)
(** * Properties: the patches of the Android files *)
(* ===================================================================== *)

Lemma quoted_plain (s : string) :
  Str.forallb plain s = true -> Str.forallb plain (quoted s) = true.
Proof.
  intros H. unfold quoted. cbn [Str.forallb]. rewrite forallb_app, H. reflexivity.
Qed.

Lemma quoted_app (v rest : string) :
  quoted v +:+ rest = String dquote (v +:+ String dquote rest).
Proof. unfold quoted. cbn [String.append]. rewrite sapp_assoc. reflexivity. Qed.

Lemma match_quoted (v rest : string) :
  v <> "" -> Str.forallb not_quote v = true ->
  Re.match_atoms [Re.Many not_quote 1; Re.Lit (String dquote "")]
                 (v +:+ String dquote rest)
  = Some (v +:+ String dquote "", rest).
Proof.
  intros Hv Hq. rewrite match_many.
  apply (many_run _ _ _ v (String dquote rest) (String dquote "")).
  - exact Hq.
  - intros c t' [= <- _]. reflexivity.
  - rewrite match_lit. cbn. destruct rest; reflexivity.
  - destruct v; [congruence | cbn; lia].
Qed.

Lemma attr_app (name v rest : string) :
  attr name v +:+ rest
  = (name +:+ "=" +:+ String dquote "") +:+ v +:+ String dquote rest.
Proof.
  unfold attr. rewrite !sapp_assoc, quoted_app. reflexivity.
Qed.

Lemma match_attr (name v rest : string) :
  v <> "" -> Str.forallb not_quote v = true ->
  Re.match_atoms (Re.atoms (quoted_attr name)) (attr name v +:+ rest)
  = Some (attr name v, rest).
Proof.
  intros Hv Hq. rewrite attr_app. cbn [quoted_attr Re.atoms].
  rewrite match_lit, strip_prefix_app, (match_quoted _ _ Hv Hq).
  unfold attr, quoted. rewrite !sapp_assoc. reflexivity.
Qed.

Lemma attr_nonempty (name v : string) : attr name v <> "".
Proof.
  intros H. apply (f_equal String.length) in H. unfold attr, quoted in H.
  rewrite !slength_app in H. cbn in H. lia.
Qed.

Lemma match_assignment (ws1 ws2 v rest : string) :
  Str.forallb Str.is_space ws1 = true -> Str.forallb Str.is_space ws2 = true ->
  v <> "" -> Str.forallb not_quote v = true ->
  Re.match_atoms (Re.atoms application_id) (assignment ws1 ws2 v +:+ rest)
  = Some (assignment ws1 ws2 v, rest).
Proof.
  intros H1 H2 Hv Hq. unfold assignment. rewrite !sapp_assoc, quoted_app.
  cbn [application_id Re.atoms].
  rewrite match_lit, strip_prefix_app, match_many.
  rewrite (many_run _ _ _ ws1 _ ("=" +:+ ws2 +:+ quoted v) rest); [reflexivity| | | |lia].
  - exact H1.
  - intros c t' [= <- _]. reflexivity.
  - rewrite match_lit, (strip_prefix_app "="), match_many.
    rewrite (many_run _ _ _ ws2 _ (quoted v) rest); [reflexivity| | | |lia].
    + exact H2.
    + intros c t' [= <- _]. reflexivity.
    + rewrite match_lit. change (String dquote (v +:+ String dquote rest))
        with (String dquote "" +:+ (v +:+ String dquote rest)).
      rewrite strip_prefix_app, (match_quoted _ _ Hv Hq).
      unfold quoted. reflexivity.
Qed.

(** X17: on a build script that holds one [applicationId] assignment
    with a quoted, non-empty value, between texts that do not mention
    [applicationId], [update_android_config] rewrites the assignment to
    the package name of the flavor, with one space on each side of the
    equals sign, and keeps the text before and after it.  (The flavor
    holds no backslash, which a replacement template would interpret.) *)
Theorem gradle_patch_on_assignment (flavor a ws1 ws2 v c : string)
    (Hflavor : Str.forallb plain flavor = true)
    (Hws1 : Str.forallb Str.is_space ws1 = true)
    (Hws2 : Str.forallb Str.is_space ws2 = true)
    (Hv : v <> "") (Hquote : Str.forallb not_quote v = true)
    (Ha : Str.contains "applicationId" a = false)
    (Hc : Str.contains "applicationId" c = false) :
  update_gradle_text (package_name_of flavor) (a +:+ assignment ws1 ws2 v +:+ c)
  = Ok (a +:+ assignment " " " " (package_name_of flavor) +:+ c).
Proof.
  unfold update_gradle_text.
  apply (sub_one application_id "applicationId" _ eq_refl ltac:(discriminate)).
  - apply occurs_free; [exact Ha | reflexivity].
  - rewrite <- contains_occurs by discriminate. exact Hc.
  - discriminate.
  - apply match_assignment; assumption.
  - cbn [application_id Re.grouped]. apply expand_plain_all.
    unfold assignment, package_name_of.
    rewrite !forallb_app, quoted_plain; [reflexivity|].
    rewrite forallb_app, Hflavor. reflexivity.
Qed.

Lemma gradle_patch_on_assignment_witness :
  update_gradle_text (package_name_of "demo")
    ("android { " +:+ assignment "" " " "com.example.app" +:+ " }")
  = Ok ("android { " +:+ assignment " " " " (package_name_of "demo") +:+ " }").
Proof.
  apply (gradle_patch_on_assignment "demo" "android { " "" " " "com.example.app" " }");
    try reflexivity.
  discriminate.
Defined.

(** A literal with the character [x] after characters that are not
    double quotes does not start a run without [x] that a double quote
    ends. *)
Lemma prefix_blocked (x : ascii) (k1 k2 r s : string) :
  x <> dquote ->
  Str.forallb not_quote k1 = true ->
  Str.forallb (fun c => negb (Ascii.eqb x c)) r = true ->
  Str.prefix (k1 +:+ String x k2) (r +:+ String dquote s) = false.
Proof.
  intros Hx. revert r. induction k1 as [|a k1 IH]; intros r Hk Hr.
  - destruct r as [|c r]; cbn [String.append Str.prefix].
    + apply Ascii.eqb_neq in Hx. rewrite Hx. reflexivity.
    + cbn [Str.forallb] in Hr. apply andb_true_iff in Hr as [Hc _].
      apply negb_true_iff in Hc. rewrite Hc. reflexivity.
  - cbn [Str.forallb] in Hk. apply andb_true_iff in Hk as [Ha Hk].
    destruct r as [|c r]; cbn [String.append Str.prefix].
    + unfold not_quote in Ha. apply negb_true_iff in Ha. rewrite Ha. reflexivity.
    + cbn [Str.forallb] in Hr. apply andb_true_iff in Hr as [_ Hr].
      rewrite (IH r Hk Hr). apply andb_false_r.
Qed.

Lemma occurs_blocked (x : ascii) (k1 k2 r s : string) :
  x <> dquote ->
  Str.forallb not_quote k1 = true ->
  Str.forallb (fun c => negb (Ascii.eqb x c)) r = true ->
  Str.occurs_in (k1 +:+ String x k2) r (String dquote s) = false.
Proof.
  intros Hx Hk. induction r as [|c r IH]; intros Hr; [reflexivity|].
  cbn [Str.occurs_in]. rewrite (prefix_blocked x k1 k2 (String c r) s Hx Hk Hr).
  cbn [Str.forallb] in Hr. apply andb_true_iff in Hr as [_ Hr].
  rewrite (IH Hr). reflexivity.
Qed.

(** Neither literal of the manifest patterns occurs in an attribute
    whose name holds neither and whose value has no equals sign. *)
Lemma package_not_in_label_attr (v s : string) :
  Str.forallb no_equals v = true ->
  Str.occurs_in PACKAGE_ATTR (attr "android:label" v) s = false.
Proof.
  intros Hv. rewrite <- (sapp_nil_r (attr "android:label" v)), attr_app.
  rewrite occurs_app.
  change (Str.occurs_in PACKAGE_ATTR ("android:label" +:+ "=" +:+ String dquote "")
            ((v +:+ String dquote "") +:+ s)) with false.
  rewrite occurs_app. cbn [orb String.append].
  change PACKAGE_ATTR with ("package" +:+ String "=" (String dquote "")) at 1.
  rewrite (occurs_blocked "=" "package" (String dquote "") v s)
    by (reflexivity || discriminate || exact Hv).
  reflexivity.
Qed.

Lemma label_not_in_package_attr (v s : string) :
  Str.forallb no_equals v = true ->
  Str.occurs_in LABEL_ATTR (attr "package" v) s = false.
Proof.
  intros Hv. rewrite <- (sapp_nil_r (attr "package" v)), attr_app.
  rewrite occurs_app.
  change (Str.occurs_in LABEL_ATTR ("package" +:+ "=" +:+ String dquote "")
            ((v +:+ String dquote "") +:+ s)) with false.
  rewrite occurs_app. cbn [orb String.append].
  change LABEL_ATTR with ("android:label" +:+ String "=" (String dquote "")) at 1.
  rewrite (occurs_blocked "=" "android:label" (String dquote "") v s)
    by (reflexivity || discriminate || exact Hv).
  reflexivity.
Qed.

Lemma package_name_no_equals (flavor : string) :
  Str.forallb no_equals flavor = true ->
  Str.forallb no_equals (package_name_of flavor) = true.
Proof. intros H. unfold package_name_of. rewrite forallb_app, H. reflexivity. Qed.

Lemma attr_template (name value : string) :
  Str.forallb plain name = true -> Str.forallb plain value = true ->
  Str.forallb plain (name +:+ "=" +:+ quoted value) = true.
Proof.
  intros Hn Hv. rewrite !forallb_app, Hn, (quoted_plain _ Hv). reflexivity.
Qed.

(** X18: on a manifest that holds one [package] attribute and, after it,
    one [android:label] attribute, each with a quoted, non-empty value,
    between texts that hold neither attribute, [update_android_config]
    sets the first to the package name of the flavor and the second to
    the application name, and keeps the three texts around them.  (The
    two names hold no backslash; the flavor and the label replaced hold
    no equals sign, with which a value could end like an attribute
    starts.) *)
Theorem manifest_patch_on_attributes (flavor app_name a v1 b v2 c : string)
    (Hflavor : Str.forallb plain flavor = true)
    (Hflavor_eq : Str.forallb no_equals flavor = true)
    (Hname : Str.forallb plain app_name = true)
    (Hv1 : v1 <> "") (Hq1 : Str.forallb not_quote v1 = true)
    (Hv2 : v2 <> "") (Hq2 : Str.forallb not_quote v2 = true)
    (He2 : Str.forallb no_equals v2 = true)
    (Ha : Str.contains PACKAGE_ATTR a = false)
    (Ha' : Str.contains LABEL_ATTR a = false)
    (Hb : Str.contains PACKAGE_ATTR b = false)
    (Hb' : Str.contains LABEL_ATTR b = false)
    (Hc : Str.contains PACKAGE_ATTR c = false)
    (Hc' : Str.contains LABEL_ATTR c = false) :
  update_manifest_text (package_name_of flavor) app_name
    (a +:+ attr "package" v1 +:+ b +:+ attr "android:label" v2 +:+ c)
  = Ok (a +:+ attr "package" (package_name_of flavor) +:+ b
          +:+ attr "android:label" app_name +:+ c).
Proof.
  unfold update_manifest_text.
  rewrite (sub_one (quoted_attr "package") PACKAGE_ATTR _ eq_refl ltac:(discriminate)
             _ a (attr "package" v1) (b +:+ attr "android:label" v2 +:+ c)
             (attr "package" (package_name_of flavor))).
  - cbn [rbind].
    assert (E : forall m,
               a +:+ attr "package" (package_name_of flavor) +:+ b +:+ m +:+ c
               = (a +:+ attr "package" (package_name_of flavor) +:+ b) +:+ m +:+ c)
      by (intros m; rewrite !sapp_assoc; reflexivity).
    rewrite !E.
    apply (sub_one (quoted_attr "android:label") LABEL_ATTR _ eq_refl
             ltac:(discriminate)).
    + rewrite !occurs_app.
      rewrite (occurs_free _ _ _ Ha') by reflexivity.
      rewrite label_not_in_package_attr by (apply package_name_no_equals, Hflavor_eq).
      rewrite (occurs_free _ _ _ Hb') by reflexivity.
      reflexivity.
    + rewrite <- contains_occurs by discriminate. exact Hc'.
    + apply attr_nonempty.
    + apply match_attr; assumption.
    + cbn [quoted_attr Re.grouped]. apply expand_plain_all.
      apply attr_template; [reflexivity | exact Hname].
  - apply occurs_free; [exact Ha | reflexivity].
  - rewrite !occurs_app.
    rewrite (occurs_free _ _ _ Hb) by reflexivity.
    rewrite package_not_in_label_attr by exact He2.
    rewrite <- contains_occurs by discriminate. rewrite Hc. reflexivity.
  - apply attr_nonempty.
  - apply match_attr; assumption.
  - cbn [quoted_attr Re.grouped]. apply expand_plain_all.
    apply attr_template; [reflexivity | apply package_name_plain, Hflavor].
Qed.

Lemma manifest_patch_on_attributes_witness :
  update_manifest_text (package_name_of "demo") "Demo"
    ("<manifest " +:+ attr "package" "com.example.app" +:+ "><application "
       +:+ attr "android:label" "Example" +:+ "/></manifest>")
  = Ok ("<manifest " +:+ attr "package" (package_name_of "demo") +:+ "><application "
          +:+ attr "android:label" "Demo" +:+ "/></manifest>").
Proof.
  apply (manifest_patch_on_attributes "demo" "Demo" "<manifest " "com.example.app"
           "><application " "Example" "/></manifest>");
    try reflexivity; discriminate.
Defined.

(** X19: a text that mentions none of the keys a patch looks for comes
    back as it was: [update_android_config] adds no [applicationId]
    assignment to a build script and no [package] or [android:label]
    attribute to a manifest that lack them, and [update_ios_config]
    inserts neither the bundle identifier nor the display name into a
    property list that has no bundle identifier.  (The names hold no
    backslash.) *)
Theorem patches_add_nothing (flavor app_name text : string)
    (Hflavor : Str.forallb plain flavor = true)
    (Hname : Str.forallb plain app_name = true) :
  (Str.contains "applicationId" text = false ->
   update_gradle_text (package_name_of flavor) text = Ok text)
  /\ (Str.contains PACKAGE_ATTR text = false ->
      Str.contains LABEL_ATTR text = false ->
      update_manifest_text (package_name_of flavor) app_name text = Ok text)
  /\ (Str.contains KEY_ID text = false ->
      Str.contains KEY_NAME text = false ->
      update_ios_text (package_name_of flavor) app_name text = Ok text).
Proof.
  split; [|split].
  - intros H. unfold update_gradle_text.
    apply (sub_unchanged application_id "applicationId" _ eq_refl ltac:(discriminate)).
    exact H.
  - intros H1 H2. unfold update_manifest_text.
    rewrite (sub_unchanged (quoted_attr "package") PACKAGE_ATTR _ eq_refl
               ltac:(discriminate) _ _ H1).
    cbn [rbind].
    apply (sub_unchanged (quoted_attr "android:label") LABEL_ATTR _ eq_refl
             ltac:(discriminate)).
    exact H2.
  - intros H1 H2. unfold update_ios_text.
    rewrite (sub_unchanged (plist_entry KEY_ID false) KEY_ID _ eq_refl
               key_id_nonempty _ _ H1).
    cbn [rbind]. rewrite H2.
    apply (sub_unchanged (plist_entry KEY_ID true) KEY_ID _ eq_refl key_id_nonempty).
    exact H1.
Qed.

Lemma patches_add_nothing_witness :
  update_gradle_text (package_name_of "demo") "plugins { }" = Ok "plugins { }"
  /\ update_manifest_text (package_name_of "demo") "Demo" "<manifest/>"
     = Ok "<manifest/>"
  /\ update_ios_text (package_name_of "demo") "Demo" "<plist><dict></dict></plist>"
     = Ok "<plist><dict></dict></plist>".
Proof.
  destruct (patches_add_nothing "demo" "Demo" "plugins { }" eq_refl eq_refl)
    as (Hg & _ & _).
  destruct (patches_add_nothing "demo" "Demo" "<manifest/>" eq_refl eq_refl)
    as (_ & Hm & _).
  destruct (patches_add_nothing "demo" "Demo" "<plist><dict></dict></plist>"
              eq_refl eq_refl) as (_ & _ & Hi).
  split; [apply Hg; reflexivity|].
  split; [apply Hm; reflexivity | apply Hi; reflexivity].
Defined.
